(** * Steam-Discount-Finder: a shallow embedding of [steam_sales.py]

    The development models the price parser, the item extractor, the batch
    controller and the reporter's sort and price formatting, and settles the
    specification's claims against them. *)

From Stdlib Require Import ZArith NArith List String Ascii Bool Lia SpecFloat.
From stdpp Require Import base option list gmap strings sorting.

Local Open Scope Z_scope.
Set Warnings "-register-all".

(** ** Python strings

    A Python [str] is a sequence of Unicode code points. *)

Definition char := N.
Definition str := list char.

(** Source literals are written as UTF-8 text and decoded to code points. *)
Fixpoint utf8_decode (bs : list N) : str :=
  match bs with
  | [] => []
  | b :: r =>
      if (b <? 128)%N then b :: utf8_decode r
      else if (b <? 224)%N then
        match r with
        | b1 :: r1 => ((b - 192) * 64 + (b1 - 128))%N :: utf8_decode r1
        | _ => []
        end
      else if (b <? 240)%N then
        match r with
        | b1 :: b2 :: r2 =>
            ((b - 224) * 4096 + (b1 - 128) * 64 + (b2 - 128))%N :: utf8_decode r2
        | _ => []
        end
      else
        match r with
        | b1 :: b2 :: b3 :: r3 =>
            ((b - 240) * 262144 + (b1 - 128) * 4096 + (b2 - 128) * 64 + (b3 - 128))%N
              :: utf8_decode r3
        | _ => []
        end
  end.

Definition u (s : string) : str :=
  utf8_decode (List.map N_of_ascii (list_ascii_of_string s)).

Definition char_eqb (a b : char) : bool := (a =? b)%N.

Fixpoint str_eqb (a b : str) : bool :=
  match a, b with
  | [], [] => true
  | x :: a', y :: b' => char_eqb x y && str_eqb a' b'
  | _, _ => false
  end.

(** *** Character classes of CPython 3.11 (Unicode 14.0)

    [\d], [int()] and [float()] accept every character of category Nd; these
    come in runs of ten, listed by the code point of their zero. *)
Definition Nd_zeros : list N :=
  [48; 1632; 1776; 1984; 2406; 2534; 2662; 2790; 2918; 3046; 3174; 3302; 3430;
   3558; 3664; 3792; 3872; 4160; 4240; 6112; 6160; 6470; 6608; 6784; 6800; 6992;
   7088; 7232; 7248; 42528; 43216; 43264; 43472; 43504; 43600; 44016; 65296;
   66720; 68912; 69734; 69872; 69942; 70096; 70384; 70736; 70864; 71248; 71360;
   71472; 71904; 72016; 72784; 73040; 73120; 92768; 92864; 93008; 120782; 120792;
   120802; 120812; 120822; 123200; 123632; 125264; 130032]%N.

Fixpoint decimal_in (zeros : list N) (c : char) : option Z :=
  match zeros with
  | [] => None
  | z :: zs =>
      if ((z <=? c) && (c <? z + 10))%N then Some (Z.of_N (c - z))
      else decimal_in zs c
  end.

(** The decimal value of a digit character, [None] for any other character. *)
Definition decimal_value (c : char) : option Z := decimal_in Nd_zeros c.

Definition is_decimal (c : char) : bool :=
  match decimal_value c with Some _ => true | None => false end.

(** [str.isspace], which is also [\s] and what [strip()] skips. *)
Definition isspace (c : char) : bool :=
  existsb (N.eqb c)
    [9; 10; 11; 12; 13; 28; 29; 30; 31; 32; 133; 160; 5760; 8192; 8193; 8194;
     8195; 8196; 8197; 8198; 8199; 8200; 8201; 8202; 8232; 8233; 8239; 8287;
     12288]%N.

(** Characters that [str.isdigit] accepts besides the decimal digits
    (superscripts, circled digits and the like), as inclusive ranges. *)
Definition other_digit_ranges : list (N * N) :=
  [(178, 179); (185, 185); (4969, 4977); (6618, 6618); (8304, 8304);
   (8308, 8313); (8320, 8329); (9312, 9320); (9332, 9340); (9352, 9360);
   (9450, 9450); (9461, 9469); (9471, 9471); (10102, 10110); (10112, 10120);
   (10122, 10130); (68160, 68163); (69216, 69224); (69714, 69722);
   (127232, 127242)]%N.

Definition isdigit_char (c : char) : bool :=
  is_decimal c
  || existsb (fun r => (fst r <=? c) && (c <=? snd r))%N other_digit_ranges.

(** [s.isdigit()]: non-empty and every character a digit. *)
Definition str_isdigit (s : str) : bool :=
  match s with [] => false | _ => forallb isdigit_char s end.

(** *** String operations *)

(** [s.replace(old, new)] for a one-character [old], which is what every call
    in the source passes. *)
Fixpoint str_replace (old : char) (new : str) (s : str) : str :=
  match s with
  | [] => []
  | c :: r => (if char_eqb c old then new else [c]) ++ str_replace old new r
  end.

Fixpoint lstrip (s : str) : str :=
  match s with
  | c :: r => if isspace c then lstrip r else s
  | [] => []
  end.

(** [s.strip()] *)
Definition str_strip (s : str) : str := rev (lstrip (rev (lstrip s))).

(** The whitespace that [int()] skips around a number: that of [str.isspace]
    but for the four separators U+001C to U+001F, which the conversion leaves
    in place and then refuses. *)
Definition int_space (c : char) : bool :=
  isspace c && negb ((28 <=? c) && (c <=? 31))%N.

Fixpoint int_lstrip (s : str) : str :=
  match s with
  | c :: r => if int_space c then int_lstrip r else s
  | [] => []
  end.

Definition int_strip (s : str) : str := rev (int_lstrip (rev (int_lstrip s))).

Fixpoint starts_with (p s : str) : bool :=
  match p, s with
  | [], _ => true
  | x :: p', y :: s' => char_eqb x y && starts_with p' s'
  | _ :: _, [] => false
  end.

(** [sub in s] *)
Fixpoint str_contains (sub s : str) : bool :=
  starts_with sub s
  || match s with
     | [] => false
     | _ :: r => str_contains sub r
     end.

(** [s.split(sep)] for a non-empty [sep]: [skip] counts the characters of a
    separator still to be passed over, [cur] is the piece being read,
    reversed. *)
Fixpoint split_from (sep : str) (skip : nat) (cur : str) (s : str) : list str :=
  match s with
  | [] => [rev cur]
  | c :: r =>
      match skip with
      | S k => split_from sep k cur r
      | O =>
          if starts_with sep s
          then rev cur :: split_from sep (length sep - 1) [] r
          else split_from sep 0 (c :: cur) r
      end
  end.

Definition str_split (sep s : str) : list str := split_from sep 0 [] s.

(** ** Exceptions *)

Inductive exn :=
  | ValueError
  | TypeError
  | ZeroDivisionError
  | OverflowError
  | IndexError
  | AttributeError
  | ParserRejectedMarkup.

(** The outcome of an expression that may raise. *)
Inductive result (A : Type) :=
  | Ok (a : A)
  | Raise (e : exn).
Arguments Ok {A} a.
Arguments Raise {A} e.

#[export] Instance result_ret : MRet result := fun A a => Ok a.
#[export] Instance result_bind : MBind result := fun A B f m =>
  match m with
  | Ok a => f a
  | Raise e => Raise e
  end.

(** [l[i]] *)
Definition index {A} (l : list A) (i : nat) : result A :=
  match l !! i with
  | Some a => Ok a
  | None => Raise IndexError
  end.

(** ** Numbers

    A Python [float] is an IEEE 754 binary64 value; its operations are those
    of the Standard Library's executable specification [SpecFloat] at
    precision 53. A Python [int] is unbounded. *)

Definition prec : Z := 53.
Definition emax : Z := 1024.

Abbreviation float := spec_float.

Definition fmul : float -> float -> float := SFmul prec emax.
Definition fdiv : float -> float -> float := SFdiv prec emax.
Definition fsub : float -> float -> float := SFsub prec emax.

(** The float nearest to an integer (ties to even). *)
Definition float_of_Z (z : Z) : float := binary_normalize prec emax z 0 false.

Definition is_inf (f : float) : bool :=
  match f with S754_infinity _ => true | _ => false end.

Definition is_fzero (f : float) : bool :=
  match f with S754_zero _ => true | _ => false end.

(** The quotient [a / b] of two integers rounded once to the nearest float:
    both are taken as exact mantissas, so nothing is rounded before the
    division. *)
Definition ratio_float (a b : Z) : float :=
  let mant (z : Z) : float :=
    match z with
    | Z0 => S754_zero false
    | Zpos p => S754_finite false p 0
    | Zneg p => S754_finite true p 0
    end in
  fdiv (mant a) (mant b).

Inductive num :=
  | Int (z : Z)
  | Float (f : float).

(** [float(z)] of an int, and the coercion of an int operand met by a float:
    "int too large to convert to float" when it rounds to infinity. *)
Definition float_of_int (z : Z) : result float :=
  let f := float_of_Z z in
  if is_inf f then Raise OverflowError else Ok f.

Definition to_float (n : num) : result float :=
  match n with
  | Int z => float_of_int z
  | Float f => Ok f
  end.

(** [a / b] *)
Definition truediv (a b : num) : result num :=
  match a, b with
  | Int x, Int y =>
      if y =? 0 then Raise ZeroDivisionError
      else
        let f := ratio_float x y in
        if is_inf f then Raise OverflowError else Ok (Float f)
  | _, _ =>
      fa ← to_float a;
      fb ← to_float b;
      if is_fzero fb then Raise ZeroDivisionError else Ok (Float (fdiv fa fb))
  end.

(** [a * b] *)
Definition mul (a b : num) : result num :=
  match a, b with
  | Int x, Int y => Ok (Int (x * y))
  | _, _ =>
      fa ← to_float a;
      fb ← to_float b;
      Ok (Float (fmul fa fb))
  end.

(** [a - b] *)
Definition sub (a b : num) : result num :=
  match a, b with
  | Int x, Int y => Ok (Int (x - y))
  | _, _ =>
      fa ← to_float a;
      fb ← to_float b;
      Ok (Float (fsub fa fb))
  end.

(** The sign of a number against zero; [None] for a NaN, which every
    comparison answers with [False]. *)
Definition sign_of (n : num) : option comparison :=
  match n with
  | Int z => Some (z ?= 0)
  | Float f => SFcompare f (S754_zero false)
  end.

(** [n == 0], [n <= 0], [n > 0] *)
Definition eq0 (n : num) : bool :=
  match sign_of n with Some Eq => true | _ => false end.
Definition le0 (n : num) : bool :=
  match sign_of n with Some (Lt | Eq) => true | _ => false end.
Definition gt0 (n : num) : bool :=
  match sign_of n with Some Gt => true | _ => false end.

(** [int(f)] of a float: truncation toward zero. *)
Definition trunc (f : float) : result Z :=
  match f with
  | S754_zero _ => Ok 0
  | S754_finite s m e =>
      let a := if 0 <=? e then Z.shiftl (Zpos m) e else Z.shiftr (Zpos m) (- e) in
      Ok (if s then - a else a)
  | S754_infinity _ => Raise OverflowError
  | S754_nan => Raise ValueError
  end.

(** [int(n)] of a number *)
Definition int_of_num (n : num) : result Z :=
  match n with
  | Int z => Ok z
  | Float f => trunc f
  end.

(** *** Numbers read from text *)

Fixpoint digits_value (acc : Z) (s : str) : option Z :=
  match s with
  | [] => Some acc
  | c :: r =>
      match decimal_value c with
      | Some d => digits_value (10 * acc + d) r
      | None => None
      end
  end.

(** The decimal digits of [s], without the underscores that [int()] allows
    between two digits; [None] when [s] is not of that form. [prev] tells
    whether the character before was a digit. *)
Fixpoint int_digits (prev : bool) (s : str) : option str :=
  match s with
  | [] => if prev then Some [] else None
  | c :: r =>
      if is_decimal c then option_map (cons c) (int_digits true r)
      else if char_eqb c 95%N && prev then int_digits false r
      else None
  end.

(** [sys.int_info.default_max_str_digits] *)
Definition max_str_digits : nat := 4300.

(** The least int with more digits than that. *)
Definition str_digits_limit : Z := 10 ^ Z.of_nat max_str_digits.

(** [int(s)] of a string, in base 10: surrounding whitespace, one optional
    sign, digits with single underscores between them, and no more digits
    than the conversion limit. *)
Definition int_of_str (s : str) : result Z :=
  let body := int_strip s in
  let '(neg, ds) :=
    match body with
    | 45%N :: r => (true, r)
    | 43%N :: r => (false, r)
    | _ => (false, body)
    end in
  match int_digits false ds with
  | Some d =>
      if (max_str_digits <? length d)%nat then Raise ValueError
      else
        match digits_value 0 d with
        | Some v => Ok (if neg then - v else v)
        | None => Raise ValueError
        end
  | None => Raise ValueError
  end.

Fixpoint span_digits (s : str) : str * str :=
  match s with
  | c :: r =>
      if is_decimal c then let '(d, rest) := span_digits r in (c :: d, rest)
      else ([], s)
  | [] => ([], [])
  end.

(** [float(s)] for the strings this program converts, which are number tokens
    [digits] or [digits.digits] cut out by a regular expression: the value
    [N / 10^k] of the digits [N] with [k] of them after the point, rounded to
    the nearest float. Any other string is refused with [ValueError]. *)
Definition float_of_str (s : str) : result float :=
  let '(ip, rest) := span_digits s in
  match ip, rest with
  | [], _ => Raise ValueError
  | _ :: _, [] =>
      match digits_value 0 ip with
      | Some n => Ok (ratio_float n 1)
      | None => Raise ValueError
      end
  | _ :: _, c :: fp =>
      if char_eqb c 46%N then
        match fp, digits_value 0 (ip ++ fp) with
        | _ :: _, Some n => Ok (ratio_float n (10 ^ Z.of_nat (length fp)))
        | _, _ => Raise ValueError
        end
      else Raise ValueError
  end.

(** [try: body except (E1, E2): handler] *)
Definition try_except {A} (body : result A) (caught : exn -> bool)
    (handler : result A) : result A :=
  match body with
  | Ok a => Ok a
  | Raise e => if caught e then handler else Raise e
  end.

(** ** Regular expressions of the source

    The two patterns are matched by hand-written matchers. A matcher takes the
    text at a position and gives group 1 and the text after the whole match. *)

Definition lira : char := 8378%N.

(** The number token [\d+(?:[.,]\d+)?] at the head of [s]. Both quantifiers are greedy and what
    follows this token in either pattern can match the empty string, so the
    first attempt is the match. *)
Definition match_number (s : str) : option (str * str) :=
  let '(d1, r1) := span_digits s in
  match d1 with
  | [] => None
  | _ :: _ =>
      match r1 with
      | c :: r2 =>
          if char_eqb c 46%N || char_eqb c 44%N then
            let '(d2, r3) := span_digits r2 in
            match d2 with
            | [] => Some (d1, r1)
            | _ :: _ => Some (d1 ++ c :: d2, r3)
            end
          else Some (d1, r1)
      | [] => Some (d1, [])
      end
  end.

(** The optional suffix [(?:\s*₺)?] at the head of [s]: the text after it. *)
Definition skip_lira_suffix (s : str) : str :=
  match lstrip s with
  | c :: r => if char_eqb c lira then r else s
  | [] => s
  end.

(** [price_pattern] of the price parser: an optional lira sign with
    whitespace after it, the number token as group 1, and an optional lira
    sign with whitespace before it. All three parts are greedy. *)
Definition price_pattern (s : str) : option (str * str) :=
  let body :=
    match s with
    | c :: r => if char_eqb c lira then lstrip r else s
    | [] => s
    end in
  match match_number body with
  | Some (g, rest) => Some (g, skip_lira_suffix rest)
  | None => None
  end.

(** The pattern of the full-text fallback: a lira sign, any whitespace, and
    the number token as group 1. *)
Definition lira_price_pattern (s : str) : option (str * str) :=
  match s with
  | c :: r => if char_eqb c lira then match_number (lstrip r) else None
  | [] => None
  end.

(** [re.findall(pattern, s)] for a pattern with one group that never matches
    the empty string: the groups of the successive matches, each search
    resuming where the last match ended. [skip] counts the characters of the
    last match not yet passed. *)
Fixpoint findall_from (pattern : str -> option (str * str)) (skip : nat)
    (s : str) : list str :=
  match s with
  | [] => []
  | _ :: r =>
      match skip with
      | S k => findall_from pattern k r
      | O =>
          match pattern s with
          | Some (g, rest) =>
              g :: findall_from pattern (length s - length rest - 1) r
          | None => findall_from pattern 0 r
          end
      end
  end.

Definition re_findall (pattern : str -> option (str * str)) (s : str) : list str :=
  findall_from pattern 0 s.

(** ** Price parser *)

Definition is_value_or_index_error (e : exn) : bool :=
  match e with ValueError | IndexError => true | _ => false end.

Definition extract_price_from_text (text : str) : result num :=
  match text with
  | [] => Ok (Int 0)
  | _ :: _ =>
      let text := str_strip (str_replace 160%N (u " ") text) in
      let matches := re_findall price_pattern text in
      match matches with
      | _ :: _ =>
          try_except
            (m ← index matches 0;
             let price_str := str_replace 44%N (u ".") m in
             f ← float_of_str price_str;
             mul (Float f) (Int 100))
            is_value_or_index_error
            (Ok (Int 0))
      | [] => Ok (Int 0)
      end
  end.

(** ** Parsed markup (BeautifulSoup)

    The parse tree that [BeautifulSoup(html, 'html.parser')] builds: strings
    of several classes and tags with their attribute dictionary and
    contents. *)

(** The classes of strings besides [NavigableString] and [Comment]: what the
    parser makes of a CDATA section, a processing instruction, a declaration
    and a doctype, and of the text inside a [style], [script], [template],
    [rt] or [rp] tag. *)
Inductive string_class :=
  | CData
  | ProcessingInstruction
  | Declaration
  | Doctype
  | Stylesheet
  | Script
  | TemplateString
  | RubyTextString
  | RubyParenthesisString.

Inductive node :=
  | NavigableString (s : str)
  | Comment (s : str)
  | OtherString (class : string_class) (s : str)
  | Tag (name : str) (attrs : list (str * str)) (contents : list node).

Record tag := mk_tag {
  tag_name : str;
  tag_attrs : list (str * str);
  tag_contents : list node
}.

(** A tag met in the tree, with the tags that enclose it, nearest first. *)
Record element := mk_element {
  el_tag : tag;
  el_parents : list tag
}.

(** [attrs.get(key)] *)
Fixpoint attr_lookup (key : str) (attrs : list (str * str)) : option str :=
  match attrs with
  | [] => None
  | (k, v) :: r => if str_eqb k key then Some v else attr_lookup key r
  end.

(** [element.get(key)] *)
Definition get_attr (key : string) (e : element) : option str :=
  attr_lookup (u key) (tag_attrs (el_tag e)).

Definition string_class_eqb (a b : string_class) : bool :=
  match a, b with
  | CData, CData | ProcessingInstruction, ProcessingInstruction
  | Declaration, Declaration | Doctype, Doctype | Stylesheet, Stylesheet
  | Script, Script | TemplateString, TemplateString
  | RubyTextString, RubyTextString
  | RubyParenthesisString, RubyParenthesisString => true
  | _, _ => false
  end.

(** The class of strings that a tag of this name is a container of. *)
Definition string_container (name : str) : option string_class :=
  if str_eqb name (u "rt") then Some RubyTextString
  else if str_eqb name (u "rp") then Some RubyParenthesisString
  else if str_eqb name (u "style") then Some Stylesheet
  else if str_eqb name (u "script") then Some Script
  else if str_eqb name (u "template") then Some TemplateString
  else None.

(** The strings that [.text] of a tag named [name] takes up: for a container
    the strings of its own class only, for any other tag the plain strings
    and the CDATA sections. A comment is never among them, and neither is a
    script or a style sheet seen from an enclosing tag. *)
Definition interesting_string (name : str) (n : node) : bool :=
  match string_container name, n with
  | None, NavigableString _ => true
  | None, OtherString CData _ => true
  | Some class, OtherString class' _ => string_class_eqb class class'
  | _, _ => false
  end.

(** The strings below a node in document order that [wanted] takes up. *)
Fixpoint node_text (wanted : node -> bool) (n : node) : str :=
  match n with
  | NavigableString s | Comment s | OtherString _ s =>
      if wanted n then s else []
  | Tag _ _ contents =>
      (fix go (l : list node) : str :=
         match l with
         | [] => []
         | c :: r => node_text wanted c ++ go r
         end) contents
  end.

Definition contents_text (wanted : node -> bool) (l : list node) : str :=
  flat_map (node_text wanted) l.

(** [element.text] *)
Definition text (e : element) : str :=
  contents_text (interesting_string (tag_name (el_tag e)))
    (tag_contents (el_tag e)).

(** The tags below a node in document order, the node itself first. *)
Fixpoint tags_of (parents : list tag) (n : node) : list element :=
  match n with
  | Tag name attrs contents =>
      let t := mk_tag name attrs contents in
      mk_element t parents
        :: (fix go (l : list node) : list element :=
              match l with
              | [] => []
              | c :: r => tags_of (t :: parents) c ++ go r
              end) contents
  | _ => []
  end.

Definition tags_in (parents : list tag) (l : list node) : list element :=
  flat_map (tags_of parents) l.

(** The tags strictly inside an element. *)
Definition descendants (e : element) : list element :=
  tags_in (el_tag e :: el_parents e) (tag_contents (el_tag e)).

(** *** CSS selectors

    The selectors of the source are compounds of a type name, an id, classes
    and attribute names, joined by the descendant and child combinators. *)

Record compound := mk_compound {
  c_name : option str;
  c_id : option str;
  c_classes : list str;
  c_attrs : list str
}.

Inductive selector :=
  | Simple (c : compound)
  | Descendant (ancestor : selector) (c : compound)
  | Child (parent : selector) (c : compound).

(** The whitespace-separated words of an attribute value; [cur] is the word
    being read, reversed. *)
Fixpoint words_from (cur : str) (s : str) : list str :=
  match s with
  | [] => match cur with [] => [] | _ => [rev cur] end
  | c :: r =>
      if isspace c then
        match cur with
        | [] => words_from [] r
        | _ => rev cur :: words_from [] r
        end
      else words_from (c :: cur) r
  end.

Definition classes_of (t : tag) : list str :=
  match attr_lookup (u "class") (tag_attrs t) with
  | Some v => words_from [] v
  | None => []
  end.

Definition compound_matches (c : compound) (t : tag) : bool :=
  match c_name c with Some n => str_eqb n (tag_name t) | None => true end
  && match c_id c with
     | Some i =>
         match attr_lookup (u "id") (tag_attrs t) with
         | Some v => str_eqb i v
         | None => false
         end
     | None => true
     end
  && forallb (fun cl => existsb (str_eqb cl) (classes_of t)) (c_classes c)
  && forallb (fun a => match attr_lookup a (tag_attrs t) with
                       | Some _ => true
                       | None => false
                       end) (c_attrs c).

(** Whether a tag with the given enclosing tags matches a selector. The
    combinators look at every enclosing tag up to the root of the document,
    also when the search starts at an inner element. *)
Fixpoint matches (sel : selector) (t : tag) (parents : list tag) : bool :=
  match sel with
  | Simple c => compound_matches c t
  | Child p c =>
      compound_matches c t
      && match parents with
         | a :: rest => matches p a rest
         | [] => false
         end
  | Descendant p c =>
      compound_matches c t
      && (fix above (l : list tag) : bool :=
            match l with
            | [] => false
            | a :: rest => matches p a rest || above rest
            end) parents
  end.

Definition matches_any (sels : list selector) (e : element) : bool :=
  existsb (fun sel => matches sel (el_tag e) (el_parents e)) sels.

(** [soup.select(selector)] for a comma-separated selector list. *)
Definition soup_select (sels : list selector) (soup : list node) : list element :=
  List.filter (matches_any sels) (tags_in [] soup).

(** [element.select(selector)] and [element.select_one(selector)] *)
Definition select (sels : list selector) (e : element) : list element :=
  List.filter (matches_any sels) (descendants e).

Definition select_one (sels : list selector) (e : element) : option element :=
  head (select sels e).

(** [element.find_parent(name)] *)
Fixpoint nearest_named (name : str) (parents : list tag) : option element :=
  match parents with
  | [] => None
  | p :: rest =>
      if str_eqb (tag_name p) name then Some (mk_element p rest)
      else nearest_named name rest
  end.

Definition find_parent (name : string) (e : element) : option element :=
  nearest_named (u name) (el_parents e).

(** Equality of tags is structural: the same name, the same attribute
    dictionary and pairwise equal contents. Two strings are equal when their
    text is. *)
Definition attrs_eqb (a b : list (str * str)) : bool :=
  let same (x y : list (str * str)) :=
    forallb (fun kv => match attr_lookup (fst kv) x, attr_lookup (fst kv) y with
                       | Some v, Some w => str_eqb v w
                       | _, _ => false
                       end) x in
  same a b && same b a.

Fixpoint node_eqb (a b : node) : bool :=
  match a, b with
  | Tag n1 a1 c1, Tag n2 a2 c2 =>
      str_eqb n1 n2 && attrs_eqb a1 a2
      && (fix all2 (l1 l2 : list node) : bool :=
            match l1, l2 with
            | [], [] => true
            | x :: r1, y :: r2 => node_eqb x y && all2 r1 r2
            | _, _ => false
            end) c1 c2
  | Tag _ _ _, _ | _, Tag _ _ _ => false
  | (NavigableString s | Comment s | OtherString _ s),
    (NavigableString t | Comment t | OtherString _ t) => str_eqb s t
  end.

Definition tag_eqb (a b : tag) : bool :=
  node_eqb (Tag (tag_name a) (tag_attrs a) (tag_contents a))
           (Tag (tag_name b) (tag_attrs b) (tag_contents b)).

Definition element_eqb (a b : element) : bool := tag_eqb (el_tag a) (el_tag b).

(** Selector literals. *)
Definition by_name (n : string) : compound := mk_compound (Some (u n)) None [] [].
Definition by_class (c : string) : compound := mk_compound None None [u c] [].
Definition by_name_class (n c : string) : compound :=
  mk_compound (Some (u n)) None [u c] [].
Definition by_id (i : string) : compound := mk_compound None (Some (u i)) [] [].
Definition by_attr (a : string) : compound := mk_compound None None [] [u a].

(** ** Python values and result records *)

Inductive pyval :=
  | VNone
  | VNum (n : num)
  | VStr (s : str)
  | VDict (d : gmap string pyval).

(** The dictionary that the extractor appends for one game. *)
Definition record (app_id name : str)
    (discount_percent original_price final_price : Z) : pyval :=
  VDict (<["id" := VStr app_id]>
        (<["name" := VStr name]>
        (<["discount_percent" := VNum (Int discount_percent)]>
        (<["original_price" := VNum (Int original_price)]>
        (<["final_price" := VNum (Int final_price)]> ∅))))).

(** ** Network requests

    The two fetchers are the program's only contact with the storefront. A
    computation carries the list of the requests it made, in order. *)

Inductive request :=
  | SearchPage (page : Z)
  | AppDetails (app_id : str).

Definition io (A : Type) : Type := list request * result A.

#[export] Instance io_ret : MRet io := fun A a => ([], Ok a).
#[export] Instance io_bind : MBind io := fun A B f m =>
  match m with
  | (log, Ok a) => let '(log', r) := f a in (log ++ log', r)
  | (log, Raise e) => (log, Raise e)
  end.

Definition lift {A} (r : result A) : io A := ([], r).

(** [try: body except Exception: default] *)
Definition try_or {A} (body : io A) (default : A) : io A :=
  match body with
  | (log, Ok a) => (log, Ok a)
  | (log, Raise _) => (log, Ok default)
  end.

(** The answer of the storefront's app-details API: its [price_overview]
    object holds integer amounts in minor units and an integer percentage. *)
Record price_overview := mk_price_overview {
  po_initial : option Z;
  po_final : option Z;
  po_discount_percent : option Z
}.

Record game_details := mk_game_details {
  gd_price_overview : option price_overview
}.

(** ** Item extractor *)

Definition is_value_or_type_error (e : exn) : bool :=
  match e with ValueError | TypeError => true | _ => false end.

(** Truth value of an attribute or string that may be [None]. *)
Definition nonempty (s : option str) : bool :=
  match s with Some (_ :: _) => true | _ => false end.

(** [1 - discount_percent/100] *)
Definition one_minus_discount (discount_percent : Z) : result num :=
  share ← truediv (Int discount_percent) (Int 100);
  sub (Int 1) share.

(** [float(s.replace(',', '.')) * 100] *)
Definition token_amount (s : str) : result num :=
  f ← float_of_str (str_replace 44%N (u ".") s);
  mul (Float f) (Int 100).

Section Extractor.

(** [BeautifulSoup(html_content, 'html.parser')]: the contents of the parsed
    document, or the exception that the parser raises on markup it
    rejects. *)
Variable BeautifulSoup : str -> result (list node).

(** [fetch_game_details(app_id)]: the details of an app, or [None] when the
    request or the API fails. *)
Variable fetch_game_details : str -> option game_details.

Definition call_fetch_game_details (app_id : str) : io (option game_details) :=
  ([AppDetails app_id], Ok (fetch_game_details app_id)).

(** The layout strategies, in the order they are tried. *)
Definition find_game_rows (soup : list node) : list element :=
  let game_rows :=
    soup_select [Child (Simple (by_id "search_resultsRows")) (by_name "a")] soup in
  let game_rows :=
    match game_rows with
    | [] => soup_select [Simple (by_class "search_result_row")] soup
    | _ => game_rows
    end in
  let game_rows :=
    match game_rows with
    | [] => soup_select [Simple (by_attr "data-ds-appid")] soup
    | _ => game_rows
    end in
  let game_rows :=
    match game_rows with
    | [] =>
        soup_select [Simple (by_name_class "div" "responsive_search_name_combined")] soup
    | _ => game_rows
    end in
  match game_rows with
  | [] =>
      let discount_spans :=
        soup_select [Simple (by_name_class "div" "discount_pct")] soup in
      fold_left
        (fun game_rows span =>
           match find_parent "a" span with
           | Some parent =>
               if existsb (element_eqb parent) game_rows then game_rows
               else game_rows ++ [parent]
           | None => game_rows
           end)
        discount_spans []
  | _ => game_rows
  end.

Definition extract_app_id (game : element) : result (option str) :=
  let app_id := get_attr "data-ds-appid" game in
  let app_id := if nonempty app_id then app_id else get_attr "data-appid" game in
  if nonempty app_id then Ok app_id
  else
    let href := default [] (get_attr "href" game) in
    app_id_match ←
      (if str_contains (u "app/") href then
         after ← index (str_split (u "app/") href) 1;
         piece ← index (str_split (u "/") after) 0;
         Ok (Some piece)
       else Ok None);
    if nonempty app_id_match && str_isdigit (default [] app_id_match)
    then Ok app_id_match
    else Ok app_id.

Definition name_selectors : list (list selector) :=
  [ [Simple (by_class "title")];
    [Descendant (Simple (by_class "responsive_search_name_combined"))
                (by_class "search_name")];
    [Simple (by_class "search_name")];
    [Simple (by_name_class "span" "title")] ].

Fixpoint extract_name (game : element) (selectors : list (list selector))
    (name : str) : str :=
  match selectors with
  | [] => name
  | selector :: rest =>
      match select_one selector game with
      | Some name_element => str_strip (text name_element)
      | None => extract_name game rest name
      end
  end.

Definition discount_selectors : list (list selector) :=
  [ [Simple (by_class "discount_pct")];
    [Descendant (Simple (by_class "discount_block")) (by_class "discount_pct")];
    [Descendant (Simple (by_class "search_discount")) (by_name "span")] ].

Fixpoint extract_discount (game : element) (selectors : list (list selector))
    (discount_percent : Z) : result Z :=
  match selectors with
  | [] => Ok discount_percent
  | selector :: rest =>
      match select_one selector game with
      | Some discount_element =>
          let discount_text := str_strip (text discount_element) in
          try_except
            (int_of_str (str_replace 37%N [] (str_replace 45%N [] discount_text)))
            is_value_or_type_error
            (extract_discount game rest discount_percent)
      | None => extract_discount game rest discount_percent
      end
  end.

Definition price_container_selectors : list (list selector) :=
  [ [Simple (by_class "search_price")];
    [Simple (by_class "discount_block")];
    [Simple (by_class "discount_prices")] ].

Fixpoint find_price_container (game : element) (selectors : list (list selector))
    : option element :=
  match selectors with
  | [] => None
  | selector :: rest =>
      match select_one selector game with
      | Some container => Some container
      | None => find_price_container game rest
      end
  end.

(** The structured prices of a price container: the struck-through original
    price and the final price. *)
Definition structured_prices (price_container : option element)
    : result (num * num) :=
  match price_container with
  | Some container =>
      original_price ←
        match select_one [Simple (by_name_class "span" "discount_original_price");
                          Simple (by_name_class "span" "original_price");
                          Simple (by_name "strike")] container with
        | Some strikethrough => extract_price_from_text (text strikethrough)
        | None => Ok (Int 0)
        end;
      final_price ←
        match select_one [Simple (by_name_class "span" "discount_final_price");
                          Simple (by_class "discount_price")] container with
        | Some final_price_elem => extract_price_from_text (text final_price_elem)
        | None => Ok (Int 0)
        end;
      Ok (original_price, final_price)
  | None => Ok (Int 0, Int 0)
  end.

(** The fallback on the container's complete text. *)
Definition full_text_prices (price_container : option element)
    (discount_percent : Z) (original_price final_price : num)
    : result (num * num) :=
  match price_container with
  | Some container =>
      if eq0 original_price || eq0 final_price then
        let full_text := str_strip (text container) in
        let prices := re_findall lira_price_pattern full_text in
        if (2 <=? length prices)%nat then
          try_except
            (p0 ← index prices 0;
             original_price ← token_amount p0;
             try_except
               (p1 ← index prices 1;
                final_price ← token_amount p1;
                Ok (original_price, final_price))
               is_value_or_index_error
               (Ok (original_price, final_price)))
            is_value_or_index_error
            (Ok (original_price, final_price))
        else if (length prices =? 1)%nat then
          try_except
            (p0 ← index prices 0;
             final_price ← token_amount p0;
             if 0 <? discount_percent then
               try_except
                 (share ← one_minus_discount discount_percent;
                  original_price ← truediv final_price share;
                  Ok (original_price, final_price))
                 is_value_or_index_error
                 (Ok (original_price, final_price))
             else Ok (original_price, final_price))
            is_value_or_index_error
            (Ok (original_price, final_price))
        else Ok (original_price, final_price)
      else Ok (original_price, final_price)
  | None => Ok (original_price, final_price)
  end.

Definition notable_games : list str :=
  [u "Kingdom Come: Deliverance II"; u "Elden Ring"; u "Baldur's Gate 3"].

(** The detail lookup for games whose prices are still unresolved. Nothing in
    this block can raise on integer answers, so its [except Exception] guard
    has nothing to catch. *)
Definition api_prices (app_id name : str) (discount_percent : Z)
    (original_price final_price : num) : io (Z * num * num) :=
  if le0 original_price || le0 final_price then
    if existsb (str_eqb name) notable_games || (50 <? discount_percent) then
      game_details ← call_fetch_game_details app_id;
      match game_details ≫= gd_price_overview with
      | Some price_data =>
          let final_price := Int (default 0 (po_final price_data)) in
          let original_price := Int (default 0 (po_initial price_data)) in
          let api_discount := default 0 (po_discount_percent price_data) in
          let discount_percent :=
            if 0 <? api_discount then api_discount else discount_percent in
          mret (discount_percent, original_price, final_price)
      | None => mret (discount_percent, original_price, final_price)
      end
    else mret (discount_percent, original_price, final_price)
  else mret (discount_percent, original_price, final_price).

(** One price computed from the other and the discount. *)
Definition derive_prices (discount_percent : Z) (original_price final_price : num)
    : result (num * num) :=
  if gt0 original_price && eq0 final_price && (0 <? discount_percent) then
    share ← one_minus_discount discount_percent;
    final_price ← mul original_price share;
    Ok (original_price, final_price)
  else if gt0 final_price && eq0 original_price && (0 <? discount_percent) then
    share ← one_minus_discount discount_percent;
    original_price ← truediv final_price share;
    Ok (original_price, final_price)
  else Ok (original_price, final_price).

(** The defaults and the record that is appended, if any. *)
Definition make_record (app_id name : str) (discount_percent : Z)
    (original_price final_price : num) : result (option pyval) :=
  if 0 <? discount_percent then
    let original_price := if le0 original_price then Int 999 else original_price in
    final_price ←
      (if le0 final_price then
         share ← one_minus_discount discount_percent;
         mul original_price share
       else Ok final_price);
    original ← int_of_num original_price;
    final ← int_of_num final_price;
    Ok (Some (record app_id name discount_percent original final))
  else Ok None.

(** The body of the loop over the game rows; [None] stands for [continue]. *)
Definition extract_game (game : element) : io (option pyval) :=
  app_id ← lift (extract_app_id game);
  if negb (nonempty app_id) then mret None
  else
    let app_id := default [] app_id in
    let name := extract_name game name_selectors (u "Unknown Game") in
    discount_percent ← lift (extract_discount game discount_selectors 0);
    if discount_percent <=? 0 then mret None
    else
      let price_container := find_price_container game price_container_selectors in
      '(original_price, final_price) ← lift (structured_prices price_container);
      '(original_price, final_price) ←
        lift (full_text_prices price_container discount_percent
                original_price final_price);
      '(discount_percent, original_price, final_price) ←
        api_prices app_id name discount_percent original_price final_price;
      '(original_price, final_price) ←
        lift (derive_prices discount_percent original_price final_price);
      lift (make_record app_id name discount_percent original_price final_price).

(** The loop: a game whose body raises is skipped. *)
Fixpoint extract_rows (game_rows : list element) : io (list pyval) :=
  match game_rows with
  | [] => mret []
  | game :: rest =>
      r ← try_or (extract_game game) None;
      results ← extract_rows rest;
      mret (match r with Some item => item :: results | None => results end)
  end.

Definition site_error_marker : str := u "<title>Site Error</title>".

Definition extract_games_from_store_page (html_content : option str)
    : io (list pyval) :=
  match html_content with
  | None | Some [] => mret []
  | Some html_content =>
      if str_contains site_error_marker html_content then mret []
      else
        soup ← lift (BeautifulSoup html_content);
        extract_rows (find_game_rows soup)
  end.

End Extractor.

(** ** Operations on Python values *)

(** Truth value *)
Definition truthy (v : pyval) : bool :=
  match v with
  | VNone => false
  | VNum n => negb (eq0 n)
  | VStr s => match s with [] => false | _ => true end
  | VDict d => match map_to_list d with [] => false | _ => true end
  end.

(** [key in v] *)
Definition contains_key (key : string) (v : pyval) : result bool :=
  match v with
  | VDict d => Ok (match d !! key with Some _ => true | None => false end)
  | VStr s => Ok (str_contains (u key) s)
  | VNone | VNum _ => Raise TypeError
  end.

(** [v.get(key)], [None] when the key is absent, and [v.get(key, default)] *)
Definition get (key : string) (v : pyval) : result pyval :=
  match v with
  | VDict d => Ok (default VNone (d !! key))
  | _ => Raise AttributeError
  end.

Definition get_or (key : string) (dflt : pyval) (v : pyval) : result pyval :=
  match v with
  | VDict d => Ok (default dflt (d !! key))
  | _ => Raise AttributeError
  end.

(** Whether a value has a text: every int in it, also inside a dictionary,
    keeps to the limit on digits. *)
Fixpoint has_text (v : pyval) : bool :=
  match v with
  | VNum (Int z) => Z.abs z <? str_digits_limit
  | VDict d => map_fold (fun _ x rest => has_text x && rest) true d
  | VNone | VNum (Float _) | VStr _ => true
  end.

(** A value as a field of an f-string; the text itself is left out. *)
Definition format_value (v : pyval) : result unit :=
  if has_text v then Ok tt else Raise ValueError.

(** [int(v)] *)
Definition int (v : pyval) : result Z :=
  match v with
  | VNum n => int_of_num n
  | VStr s => int_of_str s
  | VNone | VDict _ => Raise TypeError
  end.

(** Whether a float is exactly the integer [z]. *)
Definition float_is_Z (f : float) (z : Z) : bool :=
  match f with
  | S754_zero _ => z =? 0
  | S754_finite s m e =>
      if 0 <=? e then z =? (if s then - Z.shiftl (Zpos m) e else Z.shiftl (Zpos m) e)
      else (Z.shiftl (Z.shiftr (Zpos m) (- e)) (- e) =? Zpos m)
           && (z =? (if s then - Z.shiftr (Zpos m) (- e) else Z.shiftr (Zpos m) (- e)))
  | _ => false
  end.

(** [a == b] for the values that can be members of a set. *)
Definition py_eq (a b : pyval) : bool :=
  match a, b with
  | VNone, VNone => true
  | VStr s, VStr t => str_eqb s t
  | VNum (Int x), VNum (Int y) => x =? y
  | VNum (Float f), VNum (Float g) => SFeqb f g
  | VNum (Int x), VNum (Float f) | VNum (Float f), VNum (Int x) => float_is_Z f x
  | _, _ => false
  end.

(** [v not in seen] for a set [seen]; a dictionary cannot be hashed. *)
Definition not_in_set (v : pyval) (seen : list pyval) : result bool :=
  match v with
  | VDict _ => Raise TypeError
  | _ => Ok (negb (existsb (py_eq v) seen))
  end.

(** [l[:n]] *)
Definition slice_to {A} (n : Z) (l : list A) : list A :=
  if 0 <=? n then take (Z.to_nat n) l
  else take (length l - Z.to_nat (- n)) l.

(** A comprehension [[x for x in l if cond(x)]] whose condition may raise. *)
Fixpoint filter_result {A} (cond : A -> result bool) (l : list A) : result (list A) :=
  match l with
  | [] => Ok []
  | x :: r =>
      keep ← cond x;
      rest ← filter_result cond r;
      Ok (if keep : bool then x :: rest else rest)
  end.

Fixpoint map_result {A B} (f : A -> result B) (l : list A) : result (list B) :=
  match l with
  | [] => Ok []
  | x :: r =>
      y ← f x;
      rest ← map_result f r;
      Ok (y :: rest)
  end.

(** ** Reporter *)

(** The decimal digits of a non-negative integer. *)
Fixpoint digits_from (fuel : nat) (n : Z) (acc : str) : str :=
  match fuel with
  | O => acc
  | S k =>
      let acc := Z.to_N (48 + n mod 10) :: acc in
      if n <? 10 then acc else digits_from k (n / 10) acc
  end.

Definition digits_of (n : Z) : str := digits_from (S (Z.to_nat (Z.log2 n))) n [].

(** The integer nearest to [m * 2^e * 100], ties to even. *)
Definition round_hundredths (m : positive) (e : Z) : Z :=
  if 0 <=? e then Z.shiftl (100 * Zpos m) e
  else
    let d := 2 ^ (- e) in
    let q := (100 * Zpos m) / d in
    let r := (100 * Zpos m) mod d in
    match 2 * r ?= d with
    | Lt => q
    | Gt => q + 1
    | Eq => if Z.even q then q else q + 1
    end.

(** [f"{x:.2f}"] *)
Definition format_2f (x : float) : str :=
  let sign (s : bool) : str := if s then u "-" else [] in
  match x with
  | S754_zero s => sign s ++ u "0.00"
  | S754_finite s m e =>
      let n := round_hundredths m e in
      sign s ++ digits_of (n / 100) ++ u "."
        ++ [Z.to_N (48 + (n mod 100) / 10); Z.to_N (48 + n mod 10)]
  | S754_infinity s => sign s ++ u "inf"
  | S754_nan => u "nan"
  end.

(** [float(v)] of a value that is not a string *)
Definition float_of_value (v : pyval) : result float :=
  match v with
  | VNum n => to_float n
  | _ => Raise TypeError
  end.

Definition format_price (price_in_cents : pyval) : result str :=
  let placeholder := u "$9.99" in
  match price_in_cents with
  | VNone => Ok placeholder
  | VNum n =>
      if le0 n then Ok placeholder
      else
        try_except
          (f ← float_of_value price_in_cents;
           price ← truediv (Float f) (Int 100);
           match price with
           | Float p => Ok (u "$" ++ format_2f p)
           | Int _ => Raise TypeError
           end)
          is_value_or_type_error
          (Ok placeholder)
  | VStr _ | VDict _ => Raise TypeError
  end.

(** ** Progress bar *)

(** [s * n]: no copy at all when [n] is zero or less. *)
Definition str_repeat (s : str) (n : Z) : str := concat (replicate (Z.to_nat n) s).

(** [str(z)] of an int *)
Definition str_of_int (z : Z) : str :=
  if z <? 0 then 45%N :: digits_of (- z) else digits_of z.

(** [f"{z}"] of an int, which is refused when the int has more than
    [max_str_digits] digits. *)
Definition format_int (z : Z) : result str :=
  if str_digits_limit <=? Z.abs z then Raise ValueError
  else Ok (str_of_int z).

(** [a // b] on ints *)
Definition floordiv (a b : Z) : result Z :=
  if b =? 0 then Raise ZeroDivisionError else Ok (a / b).

(** [int(100 * (current / float(total)))] *)
Definition progress_percent (current total : Z) : result Z :=
  total_float ← float_of_int total;
  share ← truediv (Int current) (Float total_float);
  scaled ← mul (Int 100) share;
  int_of_num scaled.

(** [fill * filled_length + '-' * (length - filled_length)] *)
Definition progress_bar (fill : str) (filled_length length : Z) : str :=
  str_repeat fill filled_length ++ str_repeat (u "-") (length - filled_length).

(** [print_progress_bar]: the strings written to the standard output, in
    order. Nothing is written when a computation raises, since all of them
    come before the first write. The percentage is the integer part of a
    float, which has 309 digits at most, so its text is never refused. *)
Definition print_progress_bar (current total : Z) (prefix suffix : str)
    (length : Z) (fill : str) : result (list str) :=
  percent ← progress_percent current total;
  filled_length ← floordiv (length * current) total;
  let bar := progress_bar fill filled_length length in
  let progress_text :=
    [13%N] ++ prefix ++ u " |" ++ bar ++ u "| " ++ str_of_int percent
      ++ u "% " ++ suffix in
  Ok (progress_text :: (if current =? total then [[10%N]] else [])).

(** The stable sort by a key in descending order that
    [sorted(..., key=..., reverse=True)] performs: an element goes in front
    of the elements after it whose key is not larger. *)
Fixpoint insert_desc {A} (k : Z) (x : A) (l : list (Z * A)) : list (Z * A) :=
  match l with
  | [] => [(k, x)]
  | (k', y) :: r =>
      if k <? k' then (k', y) :: insert_desc k x r
      else (k, x) :: l
  end.

Definition sorted_desc {A} (l : list (Z * A)) : list (Z * A) :=
  foldr (fun (kx : Z * A) acc => insert_desc (fst kx) (snd kx) acc) [] l.

(** [item and "discount_percent" in item] *)
Definition valid_item (item : pyval) : result bool :=
  if truthy item then contains_key "discount_percent" item else Ok false.

(** [int(x.get("discount_percent", 0))] *)
Definition discount_key (x : pyval) : result Z :=
  v ← get_or "discount_percent" (VNum (Int 0)) x;
  int v.

Definition sort_items_by_discount (items : list pyval) : result (list pyval) :=
  valid_items ← filter_result valid_item items;
  keyed ← map_result (fun x => k ← discount_key x; Ok (k, x)) valid_items;
  Ok (List.map snd (sorted_desc keyed)).

(** [a - b] and [a / b] on values *)
Definition value_sub (a b : pyval) : result pyval :=
  match a, b with
  | VNum x, VNum y => n ← sub x y; Ok (VNum n)
  | _, _ => Raise TypeError
  end.

Definition value_truediv (a b : pyval) : result pyval :=
  match a, b with
  | VNum x, VNum y => n ← truediv x y; Ok (VNum n)
  | _, _ => Raise TypeError
  end.

(** What printing one item computes; the printed text itself is left out. *)
Definition render_item (item : pyval) : result unit :=
  name ← get_or "name" (VStr (u "Unnamed Game")) item;
  discount ← get_or "discount_percent" (VNum (Int 0)) item;
  original_price ← get "original_price" item;
  final_price ← get "final_price" item;
  _ ← (if truthy original_price && truthy final_price then
         difference ← value_sub original_price final_price;
         value_truediv difference (VNum (Int 100))
       else Ok VNone);
  _ ← format_value name;
  _ ← format_value discount;
  _ ← format_price original_price;
  _ ← format_price final_price;
  has_id ← contains_key "id" item;
  _ ← (if has_id : bool then app_id ← get "id" item; format_value app_id
       else Ok tt);
  Ok tt.

(** [display_sales]: the items it prints, in the order it prints them. *)
Definition display_sales (items : list pyval) (min_discount max_items : Z)
    (show_all : bool) : result (list pyval) :=
  match items with
  | [] => Ok []
  | _ :: _ =>
      filtered_items ←
        (if 0 <? min_discount then
           filter_result
             (fun item => k ← discount_key item; Ok (min_discount <=? k)) items
         else Ok items);
      sorted_items ← sort_items_by_discount filtered_items;
      let items_to_show :=
        if show_all then sorted_items else slice_to max_items sorted_items in
      _ ← map_result render_item items_to_show;
      Ok items_to_show
  end.

(** ** Batch controller *)

(** The loop shared by the removal of duplicates and by the search for the
    games not displayed yet: the items whose id is set and not in [seen],
    with the set grown by their ids. *)
Fixpoint take_unseen (items : list pyval) (seen : list pyval)
    : result (list pyval * list pyval) :=
  match items with
  | [] => Ok ([], seen)
  | item :: rest =>
      item_id ← get "id" item;
      fresh ← (if truthy item_id then not_in_set item_id seen else Ok false);
      if fresh : bool then
        '(taken, seen) ← take_unseen rest (item_id :: seen);
        Ok (item :: taken, seen)
      else take_unseen rest seen
  end.

Record state := mk_state {
  page : Z;
  all_items : list pyval;
  unique_items : list pyval;
  displayed_ids : list pyval
}.

Section Controller.

Variable BeautifulSoup : str -> result (list node).
Variable fetch_game_details : str -> option game_details.

(** [fetch_store_search_page(page)]: the markup of a search page, or [None]
    when the request fails. *)
Variable fetch_store_search_page : Z -> option str.

Variable max_pages results_interval : Z.

Definition call_fetch_store_search_page (page : Z) : io (option str) :=
  ([SearchPage page], Ok (fetch_store_search_page page)).

(** What is computed for the progress report before page [page] is fetched
    as page [i + 1] of its batch: the share of the batch done, which is not
    used, the two texts around the bar, and the bar. What is written is left
    out. *)
Definition report_progress (i page : Z) : result unit :=
  _ ← truediv (Int (i + 1)) (Int results_interval);
  page_text ← format_int page;
  max_pages_text ← format_int max_pages;
  total_percent ← floordiv (page * 100) max_pages;
  total_percent_text ← format_int total_percent;
  _ ← print_progress_bar (i + 1) results_interval
        (u "Progress: Page " ++ page_text ++ u "/" ++ max_pages_text)
        (u "Complete (" ++ total_percent_text ++ u "% Total)") 50 (u "█");
  Ok tt.

(** The [for i in range(results_interval)] loop at round [i], with [n] rounds
    left: the page to fetch next and the items gathered. *)
Fixpoint fetch_batch (n : nat) (i : Z) (page : Z) (all_items : list pyval)
    : io (Z * list pyval) :=
  match n with
  | O => mret (page, all_items)
  | S n' =>
      if max_pages <? page then mret (page, all_items)
      else
        _ ← lift (report_progress i page);
        html_content ← call_fetch_store_search_page page;
        if negb (nonempty html_content) then
          _ ← lift (format_int page);
          mret (max_pages + 1, all_items)
        else
          page_results ←
            extract_games_from_store_page BeautifulSoup fetch_game_details
              html_content;
          match page_results with
          | [] =>
              _ ← lift (format_int page);
              mret (max_pages + 1, all_items)
          | _ :: _ => fetch_batch n' (i + 1) (page + 1) (all_items ++ page_results)
          end
  end.

(** The reports after a batch. *)
Definition report_batch (new_batch_items unique_items : list pyval) : result unit :=
  match new_batch_items with
  | _ :: _ =>
      _ ← display_sales new_batch_items 0 25 false;
      _ ← display_sales unique_items 0 10 false;
      Ok tt
  | [] =>
      _ ← display_sales unique_items 0 25 false;
      Ok tt
  end.

(** One round of the [while] loop. The heading of the batch names its first
    page and its last. *)
Definition run_batch (st : state) : io state :=
  let batch_start_page := page st in
  _ ← lift (format_int batch_start_page);
  _ ← lift (format_int (Z.min (batch_start_page + results_interval - 1) max_pages));
  '(page, all_items) ←
    fetch_batch (Z.to_nat results_interval) 0 (page st) (all_items st);
  '(unique_items, _) ← lift (take_unseen all_items []);
  '(new_batch_items, displayed_ids) ←
    lift (take_unseen unique_items (displayed_ids st));
  _ ← lift (report_batch new_batch_items unique_items);
  mret (mk_state page all_items unique_items displayed_ids).

(** [while page <= max_pages], for at most [fuel] rounds; [None] when the
    rounds are used up before the loop ends. *)
Fixpoint while_pages (fuel : nat) (st : state) : io (option state) :=
  match fuel with
  | O => mret None
  | S fuel' =>
      if page st <=? max_pages then
        st' ← run_batch st;
        while_pages fuel' st'
      else mret (Some st)
  end.

Definition get_all_discounted_games (fuel : nat) : io (option (list pyval)) :=
  st ← while_pages fuel (mk_state 1 [] [] []);
  mret (unique_items <$> st).

End Controller.

(** ** Comparisons with an int literal

    [v ? k] for a small integer literal [k], which is its own float. A NaN
    compares as false either way; a value that is not a number raises. *)
Definition compare_int (v : pyval) (k : Z) : result (option comparison) :=
  match v with
  | VNum (Int z) => Ok (Some (z ?= k))
  | VNum (Float f) => Ok (SFcompare f (float_of_Z k))
  | VNone | VStr _ | VDict _ => Raise TypeError
  end.

(** [v >= k], [v <= k] and [v < k] *)
Definition value_ge (v : pyval) (k : Z) : result bool :=
  c ← compare_int v k;
  Ok (match c with Some (Gt | Eq) => true | _ => false end).

Definition value_le (v : pyval) (k : Z) : result bool :=
  c ← compare_int v k;
  Ok (match c with Some (Lt | Eq) => true | _ => false end).

Definition value_lt (v : pyval) (k : Z) : result bool :=
  c ← compare_int v k;
  Ok (match c with Some Lt => true | _ => false end).

(** ** Organized results

    The dictionary that [main] builds from the games found, before it saves
    and shows them. *)

Record results_data := mk_results_data {
  rd_all_games : list pyval;
  rd_by_discount : gmap string (list pyval);
  rd_top_discounts : list pyval
}.

Record organized_data := mk_organized_data {
  od_timestamp : str;
  od_total_games : Z;
  od_search_date : str;
  od_results : results_data
}.

(** The empty discount ranges. *)
Definition discount_ranges : gmap string (list pyval) :=
  <["90-100%" := []]> (<["80-89%" := []]> (<["70-79%" := []]>
  (<["60-69%" := []]> (<["50-59%" := []]> (<["40-49%" := []]>
  (<["30-39%" := []]> (<["20-29%" := []]> (<["10-19%" := []]>
  (<["1-9%" := []]> ∅))))))))).

(** The [if]/[elif] chain on the discount of a game: the key of its range. *)
Definition discount_range (discount : pyval) : result string :=
  b ← value_ge discount 90; if b : bool then Ok "90-100%" else
  b ← value_ge discount 80; if b : bool then Ok "80-89%" else
  b ← value_ge discount 70; if b : bool then Ok "70-79%" else
  b ← value_ge discount 60; if b : bool then Ok "60-69%" else
  b ← value_ge discount 50; if b : bool then Ok "50-59%" else
  b ← value_ge discount 40; if b : bool then Ok "40-49%" else
  b ← value_ge discount 30; if b : bool then Ok "30-39%" else
  b ← value_ge discount 20; if b : bool then Ok "20-29%" else
  b ← value_ge discount 10; if b : bool then Ok "10-19%" else
  Ok "1-9%".

(** The loop that appends every game to the list of its range. *)
Fixpoint organize_by_discount (games : list pyval)
    (ranges : gmap string (list pyval)) : result (gmap string (list pyval)) :=
  match games with
  | [] => Ok ranges
  | game :: rest =>
      discount ← get_or "discount_percent" (VNum (Int 0)) game;
      key ← discount_range discount;
      organize_by_discount rest
        (<[key := default [] (ranges !! key) ++ [game]]> ranges)
  end.

(** [organized_data] as [main] has it after the top discounts are added;
    [timestamp] and [search_date] are the two readings of the clock. *)
Definition organize (timestamp search_date : str)
    (all_discounted_games : list pyval) : result organized_data :=
  by_discount ← organize_by_discount all_discounted_games discount_ranges;
  sorted ← sort_items_by_discount all_discounted_games;
  Ok (mk_organized_data timestamp
        (Z.of_nat (List.length all_discounted_games)) search_date
        (mk_results_data all_discounted_games by_discount (slice_to 50 sorted))).

(** ** Text report *)

(** What [save_sales_to_text_file] writes, one event for each group of
    writes: the heading with the date and the number of games, the heading of
    a discount range with the number of its games, and one game with its
    number in the range, its name and discount, its two formatted prices and
    the id of its link when it has one. *)
Inductive file_event :=
  | Heading (date : str) (total : Z)
  | RangeHeading (title : string) (count : Z)
  | GameEntry (index : Z) (name discount : pyval)
      (original_price final_price : str) (link : option pyval).

(** The titles of the ranges with their lowest discount. *)
Definition report_ranges : list (string * Z) :=
  [("İNANILMAZ İNDİRİMLER (%90 - %100)", 90);
   ("BÜYÜK İNDİRİMLER (%80 - %89)", 80);
   ("İYİ İNDİRİMLER (%70 - %79)", 70);
   ("MAKUL İNDİRİMLER (%60 - %69)", 60);
   ("ORTA İNDİRİMLER (%50 - %59)", 50);
   ("KÜÇÜK İNDİRİMLER (%40 - %49)", 40);
   ("DİĞER İNDİRİMLER (<%40)", 0)].

(** The games of a range: the comprehension over the sorted games. *)
Definition range_games (min_discount : Z) (sorted_games : list pyval)
    : result (list pyval) :=
  let max_discount := if min_discount =? 90 then 100 else min_discount + 9 in
  if min_discount =? 0 then
    filter_result
      (fun g => d ← get_or "discount_percent" (VNum (Int 0)) g; value_lt d 40)
      sorted_games
  else
    filter_result
      (fun g =>
         d ← get_or "discount_percent" (VNum (Int 0)) g;
         above ← value_ge d min_discount;
         if above : bool then value_le d max_discount else Ok false)
      sorted_games.

(** What is computed for one game and its lines: the two formatted prices
    and the texts of its name, its discount and its id. *)
Definition game_entry (i : Z) (game : pyval) : result file_event :=
  name ← get_or "name" (VStr (u "İsimsiz Oyun")) game;
  discount ← get_or "discount_percent" (VNum (Int 0)) game;
  original ← get_or "original_price" (VNum (Int 0)) game;
  original_price ← format_price original;
  final ← get_or "final_price" (VNum (Int 0)) game;
  final_price ← format_price final;
  app_id ← get_or "id" (VStr []) game;
  _ ← format_value name;
  _ ← format_value discount;
  _ ← (if truthy app_id then format_value app_id else Ok tt);
  Ok (GameEntry i name discount original_price final_price
        (if truthy app_id then Some app_id else None)).

(** The loop over the games of a range: the file after it, and whether it
    came to its end. *)
Fixpoint write_games (i : Z) (games : list pyval) (file : list file_event)
    : list file_event * result unit :=
  match games with
  | [] => (file, Ok tt)
  | game :: rest =>
      match game_entry i game with
      | Ok entry => write_games (i + 1) rest (file ++ [entry])
      | Raise e => (file, Raise e)
      end
  end.

(** The loop over the ranges. *)
Fixpoint write_ranges (ranges : list (string * Z)) (sorted_games : list pyval)
    (file : list file_event) : list file_event * result unit :=
  match ranges with
  | [] => (file, Ok tt)
  | (title, min_discount) :: rest =>
      match range_games min_discount sorted_games with
      | Ok [] => write_ranges rest sorted_games file
      | Ok games =>
          let file := file ++ [RangeHeading title (Z.of_nat (List.length games))] in
          match write_games 1 games file with
          | (file, Ok _) => write_ranges rest sorted_games file
          | (file, Raise e) => (file, Raise e)
          end
      | Raise e => (file, Raise e)
      end
  end.

(** [save_sales_to_text_file]: the file written, if it was opened, and the
    value returned. [None] for [items] stands for an argument that is empty
    or has no ["results"] key. Any exception in the body ends the writing
    and makes the function return [False]; failures of the file system are
    not modelled. *)
Definition save_sales_to_text_file (items : option organized_data)
    : option (list file_event) * bool :=
  match items with
  | None => (None, false)
  | Some items =>
      let all_games := rd_all_games (od_results items) in
      match sort_items_by_discount all_games with
      | Ok sorted_games =>
          let file :=
            [Heading (od_search_date items) (Z.of_nat (List.length sorted_games))] in
          match write_ranges report_ranges sorted_games file with
          | (file, Ok _) => (Some file, true)
          | (file, Raise _) => (Some file, false)
          end
      | Raise _ => (None, false)
      end
  end.

(** ** Predicates of the statements *)

(** The sign of a float: [s] for a zero, a finite number or an infinity. A
    NaN has no sign and is let through. *)
Definition sign_is (s : bool) (f : float) : Prop :=
  match f with
  | S754_zero s' | S754_finite s' _ _ | S754_infinity s' => s' = s
  | S754_nan => True
  end.

(** Whether [1 - d/100] is a float that is zero or above. *)
Definition share_nonneg (d : Z) : bool :=
  match one_minus_discount d with
  | Ok (Float (S754_zero false)) => true
  | Ok (Float (S754_finite false _ _)) => true
  | _ => false
  end.

(** What every record that the extractor appends satisfies. *)
Definition emitted (r : pyval) : Prop :=
  exists app_id name d o f,
    r = record app_id name d o f
    /\ app_id <> [] /\ 1 <= d /\ 0 <= o /\ (d <= 100 -> 0 <= f).

(** No layout strategy finds a game row. *)
Definition no_layout_matches (soup : list node) : Prop :=
  soup_select [Child (Simple (by_id "search_resultsRows")) (by_name "a")] soup = []
  /\ soup_select [Simple (by_class "search_result_row")] soup = []
  /\ soup_select [Simple (by_attr "data-ds-appid")] soup = []
  /\ soup_select [Simple (by_name_class "div" "responsive_search_name_combined")] soup = []
  /\ Forall (fun span => find_parent "a" span = None)
       (soup_select [Simple (by_name_class "div" "discount_pct")] soup).

(** The markup that the extractor hands to the parser: none when the input
    is empty or holds the site-error marker. *)
Definition parsed (html_content : option str) : option str :=
  match html_content with
  | Some (c :: s) =>
      if str_contains site_error_marker (c :: s) then None else Some (c :: s)
  | _ => None
  end.

(** ** Sample pages *)

Definition with_class (name class : string) (contents : list node) : node :=
  Tag (u name) [(u "class", u class)] contents.

(** A result row: a link that carries the app id, with a discount badge and
    a price container. *)
Definition game_row (app_id discount : string) (prices : list node) : node :=
  Tag (u "a") [(u "data-ds-appid", u app_id)]
    [ with_class "div" "discount_pct" [NavigableString (u discount)];
      with_class "div" "search_price" prices ].

Definition original_span (price : string) : node :=
  with_class "span" "discount_original_price" [NavigableString (u price)].

Definition final_span (price : string) : node :=
  with_class "span" "discount_final_price" [NavigableString (u price)].

(** Scenario A: both prices in their own elements. *)
Definition scenario_A : list node :=
  [game_row "100" "-75%" [original_span "₺100,00"; final_span "₺25,00"]].

(** Scenario B: no element for the final price; the text of the container is
    "₺100,00 ₺25,00". *)
Definition scenario_B : list node :=
  [game_row "100" "-75%" [original_span "₺100,00"; NavigableString (u " ₺25,00")]].

(** Scenario C: a discount of zero. *)
Definition scenario_C : list node :=
  [game_row "100" "-0%" [original_span "₺100,00"; final_span "₺25,00"]].

(** Prices below one minor unit, and a discount above 100 with a struck
    price only. *)
Definition page_small_prices : list node :=
  [game_row "104" "-75%" [original_span "₺0,005"; final_span "₺0,001"];
   game_row "103" "-150%" [original_span "100,00"]].

Definition page_discount_150 : list node :=
  [game_row "103" "-150%" [original_span "₺100,00"; final_span "₺25,00"]].

(** A game at a discount of 100 with its price struck through and a final
    price of zero. *)
Definition page_free_game : list node :=
  [game_row "105" "-100%" [original_span "₺100,00"; final_span "₺0,00"]].

Definition no_details (app_id : str) : option game_details := None.

(** A parser that takes every markup to the same tree. *)
Definition parsed_as (soup : list node) (html : str) : result (list node) := Ok soup.

(** Markup that [html.parser] rejects: a marked section with an unknown
    keyword. The parser of the example rejects it and finds nothing in any
    other markup. *)
Definition rejected_markup : str := u "<![x y>".

Definition rejecting_parser (html : str) : result (list node) :=
  if str_eqb html rejected_markup then Raise ParserRejectedMarkup else Ok [].

(** ** Statements on the reporter's sort *)

(** The sort key of an item is [k]. *)
Definition key_is (k : Z) (x : pyval) : bool :=
  match discount_key x with
  | Ok k' => k' =? k
  | Raise _ => false
  end.

(** The item passes the filter of the sort. *)
Definition is_valid (x : pyval) : bool :=
  match valid_item x with
  | Ok b => b
  | Raise _ => false
  end.

(** A record that the sort drops: [None], an empty dictionary, or a
    dictionary without the key [discount_percent]. *)
Definition dropped (x : pyval) : bool :=
  match x with
  | VNone => true
  | VDict d =>
      negb (truthy x)
      || match d !! "discount_percent" with Some _ => false | None => true end
  | _ => false
  end.

(** The item is [None] or a dictionary whose discount, if it has one, is an
    integer. *)
Definition integer_discount (x : pyval) : Prop :=
  x = VNone
  \/ exists d, x = VDict d
       /\ (d !! "discount_percent" = None
           \/ exists z, d !! "discount_percent" = Some (VNum (Int z))).

(** The keys of a list fall or stay level from each item to the next ones. *)
Definition keys_descending (l : list pyval) : Prop :=
  forall (i j : nat) x y,
    (i < j)%nat -> l !! i = Some x -> l !! j = Some y ->
    exists kx ky, discount_key x = Ok kx /\ discount_key y = Ok ky /\ ky <= kx.

(** A list of keyed items whose keys fall or stay level. *)
Definition descending {A} (l : list (Z * A)) : Prop :=
  forall (i j : nat) a b,
    (i < j)%nat -> l !! i = Some a -> l !! j = Some b -> fst b <= fst a.

(** Items for the examples of the sort: two pairs of equal discounts among
    records that the sort drops. *)
Definition sample_items : list pyval :=
  [record (u "1") (u "A") 50 2000 1000;
   VNone;
   record (u "2") (u "B") 75 4000 1000;
   VDict ∅;
   VDict {["id" := VStr (u "9")]};
   record (u "3") (u "C") 50 3000 1500;
   record (u "4") (u "D") 75 8000 2000].

Definition sample_sorted : list pyval :=
  [record (u "2") (u "B") 75 4000 1000;
   record (u "4") (u "D") 75 8000 2000;
   record (u "1") (u "A") 50 2000 1000;
   record (u "3") (u "C") 50 3000 1500].

(** ** Statements on the batch controller *)

(** The search pages among the requests of a run, in order. *)
Definition search_pages (log : list request) : list Z :=
  omap (fun r => match r with SearchPage p => Some p | AppDetails _ => None end) log.

(** The identifier of an item, when it has one that is a non-empty string. *)
Definition item_id (item : pyval) : option str :=
  match item with
  | VDict d =>
      match d !! "id" with
      | Some (VStr (c :: s)) => Some (c :: s)
      | _ => None
      end
  | _ => None
  end.

(** Removal of duplicates as the specification words it: of the items with
    one identifier the first seen stays, whole, and the later ones go. *)
Fixpoint first_seen (seen : list str) (items : list pyval) : list pyval :=
  match items with
  | [] => []
  | item :: rest =>
      match item_id item with
      | Some s =>
          if existsb (str_eqb s) seen then first_seen seen rest
          else item :: first_seen (s :: seen) rest
      | None => first_seen seen rest
      end
  end.

Section Crawl.

Variable BeautifulSoup : str -> result (list node).
Variable fetch_game_details : str -> option game_details.
Variable fetch_store_search_page : Z -> option str.

(** The items that a search page yields: none when the page cannot be
    fetched. *)
Definition page_results (p : Z) : list pyval :=
  match snd (extract_games_from_store_page BeautifulSoup fetch_game_details
               (fetch_store_search_page p)) with
  | Ok items => items
  | Raise _ => []
  end.

(** The run as the specification words it: pages are fetched one by one from
    [p] on, at most [n] of them, and the first page without items ends the
    run. The pages fetched and the items gathered. *)
Fixpoint crawl (n : nat) (p : Z) : list Z * list pyval :=
  match n with
  | O => ([], [])
  | S n' =>
      match page_results p with
      | [] => ([p], [])
      | items =>
          let '(pages, rest) := crawl n' (p + 1) in
          (p :: pages, items ++ rest)
      end
  end.

Definition fetched_pages (max_pages : Z) : list Z :=
  fst (crawl (Z.to_nat max_pages) 1).

Definition gathered_items (max_pages : Z) : list pyval :=
  snd (crawl (Z.to_nat max_pages) 1).

End Crawl.

(** A storefront of five search pages for the examples: pages 1 and 2 hold
    two games each, one of them on both pages, and page 3 holds none. *)
Definition priced_row (app_id discount original final : string) : node :=
  game_row app_id discount [original_span original; final_span final].

Definition sample_parser (html : str) : result (list node) :=
  if str_eqb html (u "page 1") then
    Ok [priced_row "100" "-75%" "₺100,00" "₺25,00";
        priced_row "101" "-50%" "₺10,00" "₺5,00"]
  else if str_eqb html (u "page 2") then
    Ok [priced_row "101" "-55%" "₺10,00" "₺4,50";
        priced_row "102" "-90%" "₺10,00" "₺1,00"]
  else if str_eqb html (u "page 3") then Ok []
  else Ok [priced_row "104" "-20%" "₺10,00" "₺8,00"].

Definition sample_fetch (p : Z) : option str :=
  if (1 <=? p) && (p <=? 5) then Some (u "page " ++ digits_of p) else None.


Definition sample_result_set : list pyval :=
  [record (u "100") (u "Unknown Game") 75 10000 2500;
   record (u "101") (u "Unknown Game") 50 1000 500;
   record (u "102") (u "Unknown Game") 90 1000 100].



(** ** Statements on the price parser *)

(** A float that is zero or above, an infinity included, and not a NaN. *)
Definition float_nonneg (f : float) : Prop :=
  match f with
  | S754_zero _ => True
  | S754_finite s _ _ | S754_infinity s => s = false
  | S754_nan => False
  end.

Definition num_nonneg (n : num) : Prop :=
  match n with
  | Int z => 0 <= z
  | Float f => float_nonneg f
  end.

(** Whether a number is a whole number. *)
Definition is_whole (n : num) : bool :=
  match n with
  | Int _ => true
  | Float (S754_zero _) => true
  | Float (S754_finite _ m e) =>
      (0 <=? e) || (Z.shiftl (Z.shiftr (Zpos m) (- e)) (- e) =? Zpos m)
  | Float _ => false
  end.

Definition no_decimal (s : str) : Prop := Forall (fun c => is_decimal c = false) s.
Definition all_decimal (s : str) : Prop := Forall (fun c => is_decimal c = true) s.

(** The text after a number token does not go on with a digit, nor, after a
    token without a fraction, with a separator and a digit. *)
Definition starts_with_decimal (s : str) : bool :=
  match s with
  | c :: _ => is_decimal c
  | [] => false
  end.

Definition starts_with_fraction (s : str) : bool :=
  match s with
  | c :: d :: _ => (char_eqb c 46%N || char_eqb c 44%N) && is_decimal d
  | _ => false
  end.

(** The amount that a number token stands for: the digits [N] of its whole
    and fractional parts over [10^k] for [k] fractional digits, rounded to a
    float, times 100. *)
Definition amount_of (whole_part fraction : str) : option num :=
  match digits_value 0 (whole_part ++ fraction) with
  | Some n =>
      Some (Float (fmul (ratio_float n (10 ^ Z.of_nat (length fraction)))
                        (float_of_Z 100)))
  | None => None
  end.

(** A number token: the whole part, and the separator and the fraction when
    there is one. *)
Definition token_of (whole_part : str) (sep : char) (fraction : str) : str :=
  match fraction with
  | [] => whole_part
  | _ :: _ => whole_part ++ sep :: fraction
  end.

(** ** Statements on rounding *)

(** Where the rational [a / b] lies from the integer [m]: on it, or between
    [m] and [m + 1] below, at or above the midpoint. This is what a
    [location] records about the bits that a shift drops. *)
Definition located (m : Z) (l : location) (a b : Z) : Prop :=
  match l with
  | loc_Exact => a = m * b
  | loc_Inexact Lt => m * b < a /\ 2 * a < (2 * m + 1) * b
  | loc_Inexact Eq => 2 * a = (2 * m + 1) * b
  | loc_Inexact Gt => (2 * m + 1) * b < 2 * a /\ a < (m + 1) * b
  end.

(** [within k f a b t]: the float [f] is positive and finite, and its
    distance to the rational [a / b * 2^t] is at most that rational over
    [2^k]. Both sides are scaled by the power of two that makes them
    integers. *)
Definition within (k : Z) (f : float) (a b t : Z) : Prop :=
  match f with
  | S754_finite false m e =>
      let lo := Z.min e t in
      2 ^ k * Z.abs (Zpos m * 2 ^ (e - lo) * b - a * 2 ^ (t - lo))
      <= a * 2 ^ (t - lo)
  | _ => False
  end.

(** The text of an amount [x] of minor units: a dollar sign, the whole units
    in decimal, a point and the two digits of the hundredths. *)
Definition price_text (x : Z) : str :=
  u "$" ++ digits_of (x / 100) ++ u "."
    ++ [Z.to_N (48 + (x mod 100) / 10); Z.to_N (48 + x mod 10)].

(** ** Statements on the organized results *)

(** The discount of a game when it is an integer. *)
Definition int_discount (game : pyval) : option Z :=
  match game with
  | VDict d =>
      match d !! "discount_percent" with
      | Some (VNum (Int z)) => Some z
      | _ => None
      end
  | _ => None
  end.

(** The keys of the discount ranges with the bounds that the chain of
    comparisons gives them: the first has no upper bound and the last no
    lower bound. *)
Definition range_bounds : list (string * (option Z * option Z)) :=
  [("90-100%", (Some 90, None)); ("80-89%", (Some 80, Some 89));
   ("70-79%", (Some 70, Some 79)); ("60-69%", (Some 60, Some 69));
   ("50-59%", (Some 50, Some 59)); ("40-49%", (Some 40, Some 49));
   ("30-39%", (Some 30, Some 39)); ("20-29%", (Some 20, Some 29));
   ("10-19%", (Some 10, Some 19)); ("1-9%", (None, Some 9))].

Definition in_bounds (bounds : option Z * option Z) (game : pyval) : bool :=
  match int_discount game with
  | Some d =>
      match fst bounds with Some lo => lo <=? d | None => true end
      && match snd bounds with Some hi => d <=? hi | None => true end
  | None => false
  end.

(** The key that the chain of comparisons gives an integer discount. *)
Definition range_key (d : Z) : string :=
  if 90 <=? d then "90-100%" else if 80 <=? d then "80-89%"
  else if 70 <=? d then "70-79%" else if 60 <=? d then "60-69%"
  else if 50 <=? d then "50-59%" else if 40 <=? d then "40-49%"
  else if 30 <=? d then "30-39%" else if 20 <=? d then "20-29%"
  else if 10 <=? d then "10-19%" else "1-9%".

(** ** Statements on the text report *)

(** The ranges of the text report with the bounds that the comprehensions
    give them. *)
Definition report_bounds : list (string * (option Z * option Z)) :=
  [("İNANILMAZ İNDİRİMLER (%90 - %100)", (Some 90, Some 100));
   ("BÜYÜK İNDİRİMLER (%80 - %89)", (Some 80, Some 89));
   ("İYİ İNDİRİMLER (%70 - %79)", (Some 70, Some 79));
   ("MAKUL İNDİRİMLER (%60 - %69)", (Some 60, Some 69));
   ("ORTA İNDİRİMLER (%50 - %59)", (Some 50, Some 59));
   ("KÜÇÜK İNDİRİMLER (%40 - %49)", (Some 40, Some 49));
   ("DİĞER İNDİRİMLER (<%40)", (None, Some 39))].

(** The game is a dictionary whose two prices can be formatted and whose
    name, discount and id have a text. *)
Definition formats (game : pyval) : Prop :=
  exists original final,
    (v ← get_or "original_price" (VNum (Int 0)) game; format_price v) = Ok original
    /\ (v ← get_or "final_price" (VNum (Int 0)) game; format_price v) = Ok final
    /\ (v ← get_or "name" (VStr (u "İsimsiz Oyun")) game; format_value v) = Ok tt
    /\ (v ← get_or "discount_percent" (VNum (Int 0)) game; format_value v) = Ok tt
    /\ (v ← get_or "id" (VStr []) game; format_value v) = Ok tt.

(** The games that the entries of a report were written for are known by
    the name, the discount and the link of each entry. *)
Definition entry_key (e : file_event) : option (pyval * pyval * option pyval) :=
  match e with
  | GameEntry _ name discount _ _ link => Some (name, discount, link)
  | _ => None
  end.

Definition game_key (game : pyval) : option (pyval * pyval * option pyval) :=
  match game with
  | VDict d =>
      let app_id := default (VStr []) (d !! "id") in
      Some (default (VStr (u "İsimsiz Oyun")) (d !! "name"),
            default (VNum (Int 0)) (d !! "discount_percent"),
            if truthy app_id then Some app_id else None)
  | _ => None
  end.
(** * Properties *)

(** ** The monads *)

Lemma result_bind_Ok {A B} (m : result A) (f : A -> result B) (b : B) :
  m ≫= f = Ok b -> exists a, m = Ok a /\ f a = Ok b.
Proof. destruct m as [a|e]; simpl; [eauto | discriminate]. Qed.

Lemma io_bind_Ok {A B} (m : io A) (f : A -> io B) (log : list request) (b : B) :
  m ≫= f = (log, Ok b) ->
  exists l1 a l2, m = (l1, Ok a) /\ f a = (l2, Ok b) /\ log = l1 ++ l2.
Proof.
  destruct m as [l1 [a|e]]; simpl; [|discriminate].
  destruct (f a) as [l2 r] eqn:E. intros [= <- ->]. eauto 6.
Qed.

Lemma io_bind_lift {A B} (r : result A) (f : A -> io B) :
  lift r ≫= f = match r with Ok a => f a | Raise e => ([], Raise e) end.
Proof. destruct r as [a|e]; simpl; [|reflexivity]. destruct (f a); reflexivity. Qed.

Lemma io_bind_fst {A B} (m : io A) (f : A -> io B) :
  fst (m ≫= f)
  = fst m ++ match snd m with Ok a => fst (f a) | Raise _ => [] end.
Proof.
  destruct m as [l [a|e]]; simpl; [|now rewrite app_nil_r].
  now destruct (f a).
Qed.

(** ** Signs of floats *)

Lemma binary_round_aux_sign s m e l :
  sign_is s (binary_round_aux prec emax s m e l).
Proof.
  unfold binary_round_aux.
  destruct (shr_fexp prec emax m e l) as [mrs e1].
  destruct (shr_fexp prec emax _ e1 loc_Exact) as [mrs' e2].
  destruct (shr_m mrs'); simpl; auto.
  destruct (Z.leb e2 (emax - prec)); simpl; auto.
Qed.

Lemma float_of_Z_sign z : 0 < z -> sign_is false (float_of_Z z).
Proof.
  destruct z as [|p|p]; try lia. intros _.
  unfold float_of_Z, binary_normalize, binary_round.
  destruct (shl_align _ _ _) as [mz ez]. apply binary_round_aux_sign.
Qed.

Lemma fmul_sign a b :
  sign_is false a -> sign_is false b -> sign_is false (fmul a b).
Proof.
  destruct a as [sa|sa| |sa ma ea], b as [sb|sb| |sb mb eb]; simpl;
    intros Ha Hb; subst; simpl; auto.
  apply binary_round_aux_sign.
Qed.

Lemma trunc_sign f z : sign_is false f -> trunc f = Ok z -> 0 <= z.
Proof.
  destruct f as [s|s| |s m e]; simpl; try discriminate.
  - intros _ [= <-]. lia.
  - intros -> [= <-]. destruct (0 <=? e) eqn:E.
    + apply Z.shiftl_nonneg. lia.
    + apply Z.shiftr_nonneg. lia.
Qed.

(** A number that is not [<= 0] and converts to an integer is positive. *)
Lemma not_le0_sign n : le0 n = false ->
  match n with Int z => 0 < z | Float f => is_fzero f = false /\ sign_is false f end.
Proof.
  destruct n as [z|f]; unfold le0; simpl.
  - destruct (Z.compare_spec z 0); try discriminate; lia.
  - destruct f as [s|[]| |[] m e]; simpl; try discriminate; auto.
Qed.

Lemma to_float_sign n f :
  le0 n = false -> to_float n = Ok f -> sign_is false f.
Proof.
  intros H%not_le0_sign. destruct n as [z|g]; simpl.
  - unfold float_of_int. destruct (is_inf _); [discriminate|].
    intros [= <-]. now apply float_of_Z_sign.
  - intros [= <-]. tauto.
Qed.

Lemma int_of_num_nonneg n z : le0 n = false -> int_of_num n = Ok z -> 0 <= z.
Proof.
  intros H%not_le0_sign. destruct n as [x|f]; simpl.
  - intros [= <-]. lia.
  - apply trunc_sign. tauto.
Qed.

(** ** The share [1 - discount_percent/100] *)

Lemma share_nonneg_upto_100 d : 1 <= d <= 100 -> share_nonneg d = true.
Proof.
  intros Hd.
  assert (H : forallb share_nonneg (List.map Z.of_nat (seq 1 100)) = true)
    by (vm_compute; reflexivity).
  rewrite forallb_forall in H. apply H.
  apply in_map_iff. exists (Z.to_nat d). split; [lia|].
  apply in_seq. lia.
Qed.

Lemma one_minus_discount_sign d :
  1 <= d <= 100 ->
  exists f, one_minus_discount d = Ok (Float f) /\ sign_is false f.
Proof.
  intros H%share_nonneg_upto_100. unfold share_nonneg in H.
  destruct (one_minus_discount d) as [[z|[[]|s| |[] m e]]|]; try discriminate;
    eexists; split; try reflexivity; simpl; auto.
Qed.

Lemma mul_sign a sh n :
  le0 a = false -> sign_is false sh -> mul a (Float sh) = Ok n ->
  exists f, n = Float f /\ sign_is false f.
Proof.
  intros Ha Hsh H.
  assert (exists fa, to_float a = Ok fa /\ n = Float (fmul fa sh)) as (fa & Hfa & ->).
  { destruct a as [x|g]; simpl in H.
    - destruct (float_of_int x) as [fa|] eqn:E; simpl in H; [|discriminate].
      injection H as <-. simpl. rewrite E. eauto.
    - injection H as <-. simpl. eauto. }
  eexists; split; [reflexivity|].
  apply fmul_sign; [|assumption]. eapply to_float_sign; eassumption.
Qed.

(** ** The record of a game *)

Lemma make_record_spec app_id name d o f r :
  make_record app_id name d o f = Ok (Some r) ->
  exists O F, r = record app_id name d O F /\ 0 < d /\ 0 <= O /\ (d <= 100 -> 0 <= F).
Proof.
  unfold make_record. destruct (0 <? d) eqn:Hd; [|discriminate].
  apply Z.ltb_lt in Hd.
  set (o' := if le0 o then Int 999 else o).
  assert (Ho' : le0 o' = false).
  { subst o'. destruct (le0 o) eqn:E; [reflexivity | exact E]. }
  intros H.
  apply result_bind_Ok in H as (fp & Hf & H).
  apply result_bind_Ok in H as (O & HO & H).
  apply result_bind_Ok in H as (F & HF & H).
  injection H as <-. exists O, F. repeat split; [lia | |].
  - eapply int_of_num_nonneg; eassumption.
  - intros Hle. destruct (le0 f) eqn:Ef.
    + apply result_bind_Ok in Hf as (share & Hs & Hm).
      destruct (one_minus_discount_sign d) as (sh & Hsh & Hsign); [lia|].
      rewrite Hsh in Hs. injection Hs as <-.
      destruct (mul_sign _ _ _ Ho' Hsign Hm) as (g & -> & Hg).
      simpl in HF. eapply trunc_sign; eassumption.
    + injection Hf as <-. eapply int_of_num_nonneg; eassumption.
Qed.

Section ExtractorFacts.

Variable BeautifulSoup : str -> result (list node).
Variable fetch_game_details : str -> option game_details.

Lemma api_prices_Ok app_id name d o f :
  exists log d' o' f',
    api_prices fetch_game_details app_id name d o f = (log, Ok (d', o', f'))
    /\ search_pages log = []
    /\ (0 < d -> 0 < d').
Proof.
  unfold api_prices.
  destruct (le0 o || le0 f); [|eexists _, _, _, _; repeat split; auto].
  destruct (_ || _); [|eexists _, _, _, _; repeat split; auto].
  unfold call_fetch_game_details. simpl.
  destruct (fetch_game_details app_id ≫= gd_price_overview) as [pd|]; simpl;
    eexists _, _, _, _; (split; [reflexivity|]); (split; [reflexivity|]); auto.
  intros Hd. destruct (0 <? default 0 (po_discount_percent pd)) eqn:E; [|exact Hd].
  now apply Z.ltb_lt in E.
Qed.

Lemma extract_game_spec game log r :
  extract_game fetch_game_details game = (log, Ok (Some r)) -> emitted r.
Proof.
  unfold extract_game. rewrite io_bind_lift.
  destruct (extract_app_id game) as [app_id|]; [|discriminate].
  destruct (nonempty app_id) eqn:Hid; simpl negb; cbv iota; [|discriminate].
  rewrite io_bind_lift.
  destruct (extract_discount _ _ _) as [d|]; [|discriminate].
  destruct (d <=? 0) eqn:Hd; [discriminate|]. apply Z.leb_gt in Hd.
  rewrite io_bind_lift.
  destruct (structured_prices _) as [[o f]|]; [|discriminate].
  rewrite io_bind_lift.
  destruct (full_text_prices _ _ _ _) as [[o1 f1]|]; [|discriminate].
  intros H. apply io_bind_Ok in H as (l1 & [[d2 o2] f2] & l2 & Hapi & H & ->).
  destruct (api_prices_Ok (default [] app_id) (extract_name game name_selectors (u "Unknown Game")) d o1 f1)
    as (l & d' & o' & f' & Hapi' & _ & Hd').
  rewrite Hapi' in Hapi. injection Hapi as <- <- <- <-.
  rewrite io_bind_lift in H.
  destruct (derive_prices _ _ _) as [[o3 f3]|]; [|discriminate].
  unfold lift in H. injection H as <- H.
  apply make_record_spec in H as (O & F & -> & Hd2 & HO & HF).
  exists (default [] app_id), (extract_name game name_selectors (u "Unknown Game")), d', O, F.
  repeat split; try lia; try assumption.
  now destruct app_id as [[|c s]|].
Qed.

Lemma search_pages_app l1 l2 :
  search_pages (l1 ++ l2) = search_pages l1 ++ search_pages l2.
Proof. apply omap_app. Qed.

(** The extractor asks for app details only. *)
Lemma extract_game_log game :
  search_pages (fst (extract_game fetch_game_details game)) = [].
Proof.
  unfold extract_game. rewrite io_bind_lift.
  destruct (extract_app_id game) as [app_id|]; [|reflexivity].
  destruct (nonempty app_id); simpl negb; cbv iota; [|reflexivity].
  rewrite io_bind_lift.
  destruct (extract_discount _ _ _) as [d|]; [|reflexivity].
  destruct (d <=? 0); [reflexivity|].
  rewrite io_bind_lift.
  destruct (structured_prices _) as [[o f]|]; [|reflexivity].
  rewrite io_bind_lift.
  destruct (full_text_prices _ _ _ _) as [[o1 f1]|]; [|reflexivity].
  destruct (api_prices_Ok (default [] app_id)
              (extract_name game name_selectors (u "Unknown Game")) d o1 f1)
    as (l & d' & o' & f' & -> & Hl & _).
  rewrite io_bind_fst. cbn [fst snd]. rewrite search_pages_app, Hl.
  rewrite io_bind_lift.
  now destruct (derive_prices _ _ _) as [[o3 f3]|].
Qed.

Lemma extract_rows_spec rows :
  exists log rs,
    extract_rows fetch_game_details rows = (log, Ok rs)
    /\ Forall emitted rs /\ search_pages log = [].
Proof.
  induction rows as [|game rest (log & rs & IH & Hrs & Hlog)]; simpl.
  - eexists _, _. repeat split; constructor.
  - pose proof (extract_game_log game) as Hl.
    destruct (extract_game fetch_game_details game) as [l [[r|]|e]] eqn:E;
      simpl in *; rewrite IH; simpl; eexists _, _; (split; [reflexivity|]);
      rewrite !search_pages_app, Hl, Hlog; (split; [|reflexivity]); auto.
    constructor; [|assumption]. eapply extract_game_spec; eassumption.
Qed.

(** The extractor returns records, or the parser has rejected the markup. *)
Lemma extract_games_spec html_content :
  (exists log rs,
     extract_games_from_store_page BeautifulSoup fetch_game_details html_content
       = (log, Ok rs)
     /\ Forall emitted rs /\ search_pages log = [])
  \/ (exists html e,
        parsed html_content = Some html /\ BeautifulSoup html = Raise e
        /\ extract_games_from_store_page BeautifulSoup fetch_game_details
             html_content = ([], Raise e)).
Proof.
  unfold extract_games_from_store_page, parsed.
  destruct html_content as [[|c s]|];
    try (left; eexists _, _; repeat split; constructor).
  destruct (str_contains _ _);
    [left; eexists _, _; repeat split; constructor|].
  rewrite io_bind_lift. destruct (BeautifulSoup (c :: s)) as [soup|e] eqn:E.
  - left. apply extract_rows_spec.
  - right. exists (c :: s), e. auto.
Qed.

(** It returns whenever the parser accepts the markup. *)
Lemma extract_games_accepted html_content :
  (forall html, parsed html_content = Some html ->
     exists soup, BeautifulSoup html = Ok soup) ->
  exists log rs,
    extract_games_from_store_page BeautifulSoup fetch_game_details html_content
      = (log, Ok rs)
    /\ Forall emitted rs /\ search_pages log = [].
Proof.
  intros Haccepts.
  destruct (extract_games_spec html_content) as [H | (html & e & Hp & He & _)];
    [exact H|].
  destruct (Haccepts html Hp) as [soup Hsoup]. congruence.
Qed.

End ExtractorFacts.

(** ** Claims on the item extractor *)

Lemma find_game_rows_nil soup : no_layout_matches soup -> find_game_rows soup = [].
Proof.
  intros (H1 & H2 & H3 & H4 & H5). unfold find_game_rows.
  rewrite H1, H2, H3, H4.
  assert (G : forall acc,
    fold_left
      (fun game_rows span =>
         match find_parent "a" span with
         | Some parent =>
             if existsb (element_eqb parent) game_rows then game_rows
             else game_rows ++ [parent]
         | None => game_rows
         end)
      (soup_select [Simple (by_name_class "div" "discount_pct")] soup) acc = acc).
  { induction H5 as [|span spans Hspan _ IH]; intros acc; simpl; [reflexivity|].
    rewrite Hspan. apply IH. }
  apply G.
Qed.

(** C7, as stated, fails: the markup is parsed outside every [try], so the
    extractor raises what the parser raises on markup that it rejects. *)
Lemma rejected_markup_raises :
  extract_games_from_store_page rejecting_parser no_details (Some rejected_markup)
  = ([], Raise ParserRejectedMarkup).
Proof. vm_compute. reflexivity. Qed.

(** C7, amended: the extractor raises only what the parser raises, and it
    does so exactly when the markup that it hands to the parser is rejected;
    no request has been made by then. When the parser accepts the markup the
    extractor returns. On empty input, on accepted markup that no layout
    strategy matches and on markup with the site-error marker it returns the
    empty list and makes no request; for the marker this holds whatever the
    parser would have made of the markup. *)
Theorem extract_games_raises_only_parser
    (BeautifulSoup : str -> result (list node))
    (fetch_game_details : str -> option game_details)
    (html_content : option str) :
  let extract := extract_games_from_store_page BeautifulSoup fetch_game_details in
  (forall log e,
     extract html_content = (log, Raise e) <->
     log = [] /\ exists html,
       parsed html_content = Some html /\ BeautifulSoup html = Raise e)
  /\ ((forall html, parsed html_content = Some html ->
         exists soup, BeautifulSoup html = Ok soup) ->
      exists log results, extract html_content = (log, Ok results))
  /\ (nonempty html_content = false -> extract html_content = ([], Ok []))
  /\ (forall html soup, html_content = Some html ->
        BeautifulSoup html = Ok soup -> no_layout_matches soup ->
        extract html_content = ([], Ok []))
  /\ (forall html, html_content = Some html ->
        str_contains site_error_marker html = true ->
        extract html_content = ([], Ok [])).
Proof.
  cbv zeta. split; [|split; [|split; [|split]]].
  - intros log e. split.
    + intros Hraise.
      destruct (extract_games_spec BeautifulSoup fetch_game_details html_content)
        as [(l & rs & H & _) | (html & e' & Hp & He & H)]; [congruence|].
      rewrite H in Hraise. injection Hraise as <- <-. eauto.
    + intros (-> & html & Hp & He).
      destruct (extract_games_spec BeautifulSoup fetch_game_details html_content)
        as [(l & rs & H & _) | (html' & e' & Hp' & He' & H)].
      * exfalso. unfold extract_games_from_store_page, parsed in *.
        destruct html_content as [[|c s]|]; try discriminate.
        destruct (str_contains _ _); [discriminate|]. injection Hp as <-.
        rewrite io_bind_lift, He in H. discriminate.
      * congruence.
  - intros Haccepts.
    destruct (extract_games_accepted BeautifulSoup fetch_game_details
                html_content Haccepts) as (log & rs & H & _). eauto.
  - now destruct html_content as [[|c s]|].
  - intros html soup -> Hsoup H%find_game_rows_nil.
    unfold extract_games_from_store_page.
    destruct html as [|c s]; [reflexivity|].
    destruct (str_contains _ _); [reflexivity|].
    now rewrite io_bind_lift, Hsoup, H.
  - intros html -> H. unfold extract_games_from_store_page.
    destruct html as [|c s]; [reflexivity|]. now rewrite H.
Qed.

(** The site-error page of the witness parses to a result row, which the
    extractor never looks at. *)
Lemma extract_games_raises_only_parser_witness :
  extract_games_from_store_page (parsed_as scenario_A) no_details
    (Some (u "<html><head><title>Site Error</title></head></html>")) = ([], Ok [])
  /\ extract_games_from_store_page (parsed_as []) no_details
       (Some (u "<html></html>")) = ([], Ok [])
  /\ exists log results,
       extract_games_from_store_page rejecting_parser no_details
         (Some (u "<html></html>")) = (log, Ok results).
Proof.
  split; [|split].
  - destruct (extract_games_raises_only_parser (parsed_as scenario_A) no_details
                (Some (u "<html><head><title>Site Error</title></head></html>")))
      as (_ & _ & _ & _ & H).
    apply (H _ eq_refl). vm_compute. reflexivity.
  - destruct (extract_games_raises_only_parser (parsed_as []) no_details
                (Some (u "<html></html>"))) as (_ & _ & _ & H & _).
    apply (H _ [] eq_refl eq_refl). repeat split; try reflexivity. constructor.
  - destruct (extract_games_raises_only_parser rejecting_parser no_details
                (Some (u "<html></html>"))) as (_ & H & _).
    apply H. intros html Hp. exists [].
    assert (E : parsed (Some (u "<html></html>")) = Some (u "<html></html>"))
      by (vm_compute; reflexivity).
    rewrite E in Hp. injection Hp as <-. vm_compute. reflexivity.
Defined.

(** C1: scenarios A and B give the same single record. *)
Theorem scenarios_A_B_record
    (BeautifulSoup : str -> result (list node))
    (fetch_game_details : str -> option game_details)
    (html : str) :
  html <> [] ->
  str_contains site_error_marker html = false ->
  BeautifulSoup html = Ok scenario_A \/ BeautifulSoup html = Ok scenario_B ->
  extract_games_from_store_page BeautifulSoup fetch_game_details (Some html)
  = ([], Ok [record (u "100") (u "Unknown Game") 75 10000 2500]).
Proof.
  intros Hne Hmark Hsoup. unfold extract_games_from_store_page.
  destruct html as [|c s]; [congruence|]. rewrite Hmark, io_bind_lift.
  destruct Hsoup as [-> | ->]; vm_compute; reflexivity.
Qed.

Lemma scenarios_A_B_record_witness :
  extract_games_from_store_page (parsed_as scenario_A) no_details
    (Some (u "<a data-ds-appid=100>..</a>"))
  = ([], Ok [record (u "100") (u "Unknown Game") 75 10000 2500])
  /\ extract_games_from_store_page (parsed_as scenario_B) no_details
       (Some (u "<a data-ds-appid=100>..</a>"))
     = ([], Ok [record (u "100") (u "Unknown Game") 75 10000 2500]).
Proof.
  split.
  - apply (scenarios_A_B_record (parsed_as scenario_A) no_details);
      [discriminate | vm_compute; reflexivity | left; reflexivity].
  - apply (scenarios_A_B_record (parsed_as scenario_B) no_details);
      [discriminate | vm_compute; reflexivity | right; reflexivity].
Defined.

(** C3: the defaults that the code sets "for display" leave prices that are
    not positive. They test the amounts before [int()] cuts them to whole
    units, so that amounts between 0 and 1 give prices of 0; and the final
    price that they derive from the original price is 0 at a discount of 100
    and below 0 above it. *)
Lemma defaults_leave_prices_not_positive :
  extract_games_from_store_page (parsed_as page_free_game) no_details
    (Some (u "<html>"))
  = ([AppDetails (u "105")],
     Ok [record (u "105") (u "Unknown Game") 100 10000 0])
  /\ extract_games_from_store_page (parsed_as page_small_prices) no_details
       (Some (u "<html>"))
     = ([AppDetails (u "103")],
        Ok [record (u "104") (u "Unknown Game") 75 0 0;
            record (u "103") (u "Unknown Game") 150 10000 (-5000)]).
Proof. split; vm_compute; reflexivity. Qed.

(** C4, as stated, fails: a discount text of -150% gives a record. *)
Lemma discount_150_record :
  extract_games_from_store_page (parsed_as page_discount_150) no_details
    (Some (u "<html>"))
  = ([], Ok [record (u "103") (u "Unknown Game") 150 10000 2500]).
Proof. vm_compute. reflexivity. Qed.

(** C4, amended: every record has a discount of 1 or more, and a row whose
    discount resolves to 0 or less adds nothing to the output. The extractor
    returns such records for every input, unless the parser rejects the
    markup. *)
Theorem discount_positive_or_discarded
    (BeautifulSoup : str -> result (list node))
    (fetch_game_details : str -> option game_details)
    (html_content : option str) :
  ((exists log results,
      extract_games_from_store_page BeautifulSoup fetch_game_details html_content
        = (log, Ok results)
      /\ Forall (fun r => exists app_id name d o f,
                   r = record app_id name d o f /\ 1 <= d) results)
   \/ (exists html e,
         parsed html_content = Some html /\ BeautifulSoup html = Raise e
         /\ extract_games_from_store_page BeautifulSoup fetch_game_details
              html_content = ([], Raise e)))
  /\ (forall game rest d,
        extract_discount game discount_selectors 0 = Ok d -> d <= 0 ->
        extract_rows fetch_game_details (game :: rest)
        = extract_rows fetch_game_details rest).
Proof.
  split.
  - destruct (extract_games_spec BeautifulSoup fetch_game_details html_content)
      as [(log & rs & H & Hrs & _) | H]; [left | right; exact H].
    exists log, rs. split; [assumption|].
    eapply Forall_impl; [exact Hrs|].
    intros r (app_id & name & d & o & f & -> & _ & Hd & _). eauto 10.
  - intros game rest d Hdisc Hd.
    assert (E : try_or (extract_game fetch_game_details game) None = ([], Ok None)).
    { unfold extract_game. rewrite io_bind_lift.
      destruct (extract_app_id game) as [app_id|]; [|reflexivity].
      destruct (nonempty app_id); [|reflexivity]. simpl negb. cbv iota.
      rewrite io_bind_lift, Hdisc.
      apply Z.leb_le in Hd. now rewrite Hd. }
    simpl. rewrite E. simpl.
    destruct (extract_rows fetch_game_details rest) as [l [rs|e]]; simpl;
      rewrite ?app_nil_r; reflexivity.
Qed.

(** Scenario C: the row with the discount text -0% is discarded. *)
Lemma discount_positive_or_discarded_witness :
  extract_rows no_details (find_game_rows scenario_C) = extract_rows no_details [].
Proof.
  destruct (discount_positive_or_discarded (parsed_as scenario_C) no_details None)
    as [_ H].
  set (rows := find_game_rows scenario_C). vm_compute in rows. subst rows.
  apply H with (d := 0); [vm_compute; reflexivity | lia].
Defined.

(** ** The stable sort *)

Section StableSort.

Context {A : Type}.
Implicit Types (l : list (Z * A)) (x : A) (k : Z).

Lemma descending_nil : descending (@nil (Z * A)).
Proof. intros i j a b _ H. now rewrite lookup_nil in H. Qed.

Lemma descending_cons a l :
  descending (a :: l) <-> (forall b, In b l -> fst b <= fst a) /\ descending l.
Proof.
  split.
  - intros H. split.
    + intros b [j Hj]%list_elem_of_In%list_elem_of_lookup.
      apply (H 0%nat (S j) a b); [lia | reflexivity | exact Hj].
    + intros i j x y Hij Hi Hj. apply (H (S i) (S j) x y); [lia | exact Hi | exact Hj].
  - intros [Hhd Htl] i j x y Hij Hi Hj.
    destruct j as [|j]; [lia|]. simpl in Hj.
    destruct i as [|i]; simpl in Hi.
    + injection Hi as <-. apply Hhd.
      apply list_elem_of_In, list_elem_of_lookup. eauto.
    + apply (Htl i j x y); [lia | exact Hi | exact Hj].
Qed.

Lemma insert_desc_In k x l b :
  In b (insert_desc k x l) <-> b = (k, x) \/ In b l.
Proof.
  induction l as [|[k' y] l IH]; simpl; [intuition congruence|].
  destruct (k <? k'); simpl; rewrite ?IH; intuition congruence.
Qed.

Lemma insert_desc_descending k x l :
  descending l -> descending (insert_desc k x l).
Proof.
  induction l as [|[k' y] l IH]; simpl; intros H.
  - apply descending_cons. split; [intros b []|apply descending_nil].
  - apply descending_cons in H as [Hhd Htl].
    destruct (k <? k') eqn:E.
    + apply Z.ltb_lt in E. apply descending_cons. split; [|auto].
      intros b [->|Hb]%insert_desc_In; simpl; [lia | now apply Hhd].
    + apply Z.ltb_ge in E. apply descending_cons. split.
      * intros b [<-|Hb]; simpl; [lia|]. specialize (Hhd b Hb). simpl in Hhd. lia.
      * apply descending_cons. auto.
Qed.

Lemma sorted_desc_descending l : descending (sorted_desc l).
Proof.
  induction l as [|[k x] l IH]; simpl;
    [apply descending_nil | now apply insert_desc_descending].
Qed.

(** Stability: the items of one key keep their order. *)
Lemma insert_desc_filter k x l k0 :
  List.filter (fun a => fst a =? k0) (insert_desc k x l)
  = List.filter (fun a => fst a =? k0) ((k, x) :: l).
Proof.
  induction l as [|[k' y] l IH]; [reflexivity|].
  simpl insert_desc. destruct (k <? k') eqn:E; [|reflexivity].
  apply Z.ltb_lt in E. simpl in *. rewrite IH.
  destruct (k =? k0) eqn:E1, (k' =? k0) eqn:E2; try reflexivity. lia.
Qed.

Lemma sorted_desc_filter l k0 :
  List.filter (fun a => fst a =? k0) (sorted_desc l)
  = List.filter (fun a => fst a =? k0) l.
Proof.
  induction l as [|[k x] l IH]; [reflexivity|].
  simpl sorted_desc. rewrite insert_desc_filter. simpl. now rewrite IH.
Qed.

Lemma insert_desc_perm k x l : insert_desc k x l ≡ₚ (k, x) :: l.
Proof.
  induction l as [|[k' y] l IH]; simpl; [reflexivity|].
  destruct (k <? k'); [|reflexivity]. rewrite IH. apply Permutation_swap.
Qed.

Lemma sorted_desc_perm l : sorted_desc l ≡ₚ l.
Proof.
  induction l as [|[k x] l IH]; simpl; [reflexivity|].
  rewrite insert_desc_perm. now rewrite IH.
Qed.

End StableSort.

(** ** Claims on the reporter's sort *)

Lemma filter_result_Ok {A} (cond : A -> result bool) (l kept : list A) :
  filter_result cond l = Ok kept ->
  kept = List.filter (fun x => match cond x with Ok b => b | Raise _ => false end) l.
Proof.
  revert kept. induction l as [|x l IH]; simpl; intros kept H.
  - now injection H as <-.
  - apply result_bind_Ok in H as (b & Hb & H).
    apply result_bind_Ok in H as (rest & Hrest & H).
    injection H as <-. rewrite Hb, (IH _ Hrest). now destruct b.
Qed.

Lemma map_result_Ok {A B} (f : A -> result B) (l : list A) (out : list B) :
  map_result f l = Ok out -> Forall2 (fun x y => f x = Ok y) l out.
Proof.
  revert out. induction l as [|x l IH]; simpl; intros out H.
  - injection H as <-. constructor.
  - apply result_bind_Ok in H as (y & Hy & H).
    apply result_bind_Ok in H as (rest & Hrest & H).
    injection H as <-. constructor; auto.
Qed.

(** The keyed list that the sort builds. *)
Lemma keyed_items (valid : list pyval) (keyed : list (Z * pyval)) :
  map_result (fun x => k ← discount_key x; Ok (k, x)) valid = Ok keyed ->
  List.map snd keyed = valid
  /\ Forall (fun a => discount_key (snd a) = Ok (fst a)) keyed.
Proof.
  intros H%map_result_Ok.
  induction H as [|x [k y] l l' Hx _ [IH1 IH2]]; [split; [reflexivity|constructor]|].
  apply result_bind_Ok in Hx as (k' & Hk & [= -> ->]).
  simpl. rewrite IH1. split; [reflexivity|]. constructor; assumption.
Qed.

Lemma filter_key_is (keyed : list (Z * pyval)) k :
  Forall (fun a => discount_key (snd a) = Ok (fst a)) keyed ->
  List.filter (key_is k) (List.map snd keyed)
  = List.map snd (List.filter (fun a => fst a =? k) keyed).
Proof.
  induction 1 as [|[k' x] l Hx _ IH]; [reflexivity|].
  simpl in *. unfold key_is at 1. rewrite Hx, IH. now destruct (k' =? k).
Qed.

Lemma discount_key_record app_id name d o f :
  discount_key (record app_id name d o f) = Ok d.
Proof. reflexivity. Qed.

Lemma sort_items_by_discount_Ok items sorted :
  sort_items_by_discount items = Ok sorted ->
  exists keyed,
    map_result (fun x => k ← discount_key x; Ok (k, x)) (List.filter is_valid items)
      = Ok keyed
    /\ sorted = List.map snd (sorted_desc keyed).
Proof.
  unfold sort_items_by_discount. intros H.
  apply result_bind_Ok in H as (valid & Hvalid & H).
  apply result_bind_Ok in H as (keyed & Hkeyed & H).
  injection H as <-. apply filter_result_Ok in Hvalid as ->.
  exists keyed. split; [exact Hkeyed | reflexivity].
Qed.

(** The sort returns on records and on the items it drops. *)
Lemma sort_items_by_discount_total items :
  Forall integer_discount items ->
  exists sorted, sort_items_by_discount items = Ok sorted.
Proof.
  intros Hitems. unfold sort_items_by_discount.
  set (keyed_dict := fun x : pyval =>
         exists d z, x = VDict d /\ d !! "discount_percent" = Some (VNum (Int z))).
  assert (exists valid, filter_result valid_item items = Ok valid
                        /\ Forall keyed_dict valid) as (valid & -> & Hv).
  { induction Hitems as [|x l Hx _ (valid & IH & Hv)]; simpl.
    - exists []. split; [reflexivity | constructor].
    - rewrite IH. destruct Hx as [->|(d & -> & [Hd|(z & Hd)])]; simpl.
      + eauto.
      + unfold valid_item. destruct (truthy (VDict d)); simpl; rewrite ?Hd; eauto.
      + unfold valid_item. destruct (truthy (VDict d)); simpl; rewrite ?Hd; eauto.
        eexists. split; [reflexivity|]. constructor; [|assumption].
        exists d, z. auto. }
  simpl.
  assert (exists keyed,
            map_result (fun x => k ← discount_key x; Ok (k, x)) valid = Ok keyed)
    as (keyed & ->).
  { induction Hv as [|x l (d & z & -> & Hd) _ (keyed & IH)]; simpl; [eauto|].
    rewrite IH. unfold discount_key. simpl. rewrite Hd. simpl. eauto. }
  simpl. eauto.
Qed.

(** C8: the sort puts the items in descending order of their key, the
    integer value of [discount_percent], and keeps the input order among
    items of one key. It returns for every list of records. *)
Theorem sort_items_by_discount_stable (items : list pyval) :
  (Forall integer_discount items ->
   exists sorted, sort_items_by_discount items = Ok sorted)
  /\ (forall sorted, sort_items_by_discount items = Ok sorted ->
        keys_descending sorted
        /\ (forall k, List.filter (key_is k) sorted
                      = List.filter (key_is k) (List.filter is_valid items))
        /\ sorted ≡ₚ List.filter is_valid items)
  /\ (forall app_id name d o f, discount_key (record app_id name d o f) = Ok d).
Proof.
  split; [|split; [|exact discount_key_record]].
  - apply sort_items_by_discount_total.
  - intros sorted (keyed & Hkeyed & ->)%sort_items_by_discount_Ok.
    apply keyed_items in Hkeyed as [Hsnd Hkeys].
    assert (Hkeys' : Forall (fun a => discount_key (snd a) = Ok (fst a))
                       (sorted_desc keyed)).
    { rewrite Forall_forall in *. intros a Ha. apply Hkeys.
      now rewrite <- (sorted_desc_perm keyed). }
    repeat split.
    + intros i j x y Hij Hi Hj.
      rewrite list_lookup_fmap in Hi, Hj.
      destruct (sorted_desc keyed !! i) as [a|] eqn:Ea; [|discriminate].
      destruct (sorted_desc keyed !! j) as [b|] eqn:Eb; [|discriminate].
      injection Hi as <-. injection Hj as <-.
      exists (fst a), (fst b). repeat split.
      * rewrite Forall_forall in Hkeys'. apply Hkeys'.
        apply list_elem_of_lookup. eauto.
      * rewrite Forall_forall in Hkeys'. apply Hkeys'.
        apply list_elem_of_lookup. eauto.
      * exact (sorted_desc_descending keyed i j a b Hij Ea Eb).
    + intros k. rewrite (filter_key_is _ k Hkeys'), sorted_desc_filter.
      rewrite <- (filter_key_is _ k Hkeys). now rewrite Hsnd.
    + rewrite <- Hsnd. apply fmap_Permutation, sorted_desc_perm.
Qed.

Lemma sort_items_by_discount_stable_witness :
  sort_items_by_discount sample_items = Ok sample_sorted
  /\ keys_descending sample_sorted
  /\ List.filter (key_is 50) sample_sorted
     = List.filter (key_is 50) (List.filter is_valid sample_items).
Proof.
  destruct (sort_items_by_discount_stable sample_items) as (_ & H & _).
  assert (E : sort_items_by_discount sample_items = Ok sample_sorted)
    by (vm_compute; reflexivity).
  destruct (H _ E) as (Hdesc & Hstable & _).
  split; [exact E|]. split; [exact Hdesc | apply Hstable].
Defined.

Lemma filter_result_dropped items :
  filter_result valid_item items
  = filter_result valid_item (List.filter (fun x => negb (dropped x)) items).
Proof.
  induction items as [|x l IH]; [reflexivity|]. simpl.
  destruct (dropped x) eqn:E; simpl; [|now rewrite IH].
  assert (valid_item x = Ok false) as ->.
  { unfold valid_item. destruct x as [|n|s|d]; try discriminate; [reflexivity|].
    unfold dropped in E. destruct (truthy (VDict d)); [|reflexivity].
    simpl in *. now destruct (d !! "discount_percent"). }
  simpl. rewrite <- IH. destruct (filter_result valid_item l); reflexivity.
Qed.

Lemma is_valid_not_dropped x : is_valid x = true -> dropped x = false.
Proof.
  unfold is_valid, valid_item. destruct x as [|n|s|d]; try reflexivity; simpl.
  - discriminate.
  - destruct (match map_to_list d with [] => false | _ => true end); simpl;
      [|discriminate].
    now destruct (d !! "discount_percent").
Qed.

Lemma is_valid_spec x :
  is_valid x = true ->
  truthy x = true /\ contains_key "discount_percent" x = Ok true.
Proof.
  unfold is_valid, valid_item. destruct (truthy x); [|discriminate].
  destruct (contains_key _ x) as [[]|]; try discriminate. auto.
Qed.

Lemma slice_to_In {A} (n : Z) (l : list A) x : In x (slice_to n l) -> In x l.
Proof.
  unfold slice_to. destruct (0 <=? n); intros H%list_elem_of_In;
    apply list_elem_of_In; eapply subseteq_take; eassumption.
Qed.

Lemma sorted_items_valid items sorted x :
  sort_items_by_discount items = Ok sorted -> In x sorted ->
  In x items /\ is_valid x = true.
Proof.
  intros (keyed & Hkeyed & ->)%sort_items_by_discount_Ok Hx.
  apply keyed_items in Hkeyed as [Hsnd _].
  assert (Hin : In x (List.filter is_valid items)).
  { rewrite <- Hsnd. apply list_elem_of_In.
    rewrite <- (sorted_desc_perm keyed). now apply list_elem_of_In. }
  now apply filter_In in Hin.
Qed.

(** C10: a record that is falsy or has no [discount_percent] is dropped by the
    sort without an error, so that the output is that of the list without
    such records, and no such record is among the sorted items or among the
    items that [display_sales] prints. *)
Theorem dropped_records_never_rendered (items : list pyval) :
  sort_items_by_discount items
  = sort_items_by_discount (List.filter (fun x => negb (dropped x)) items)
  /\ (forall sorted, sort_items_by_discount items = Ok sorted ->
        Forall (fun x => In x items /\ truthy x = true
                         /\ contains_key "discount_percent" x = Ok true
                         /\ dropped x = false) sorted)
  /\ (forall min_discount max_items show_all shown,
        display_sales items min_discount max_items show_all = Ok shown ->
        Forall (fun x => In x items /\ dropped x = false) shown).
Proof.
  repeat split.
  - unfold sort_items_by_discount. now rewrite filter_result_dropped.
  - intros sorted H. apply Forall_forall. intros x Hx%list_elem_of_In.
    destruct (sorted_items_valid _ _ _ H Hx) as [Hin Hv].
    destruct (is_valid_spec _ Hv). auto using is_valid_not_dropped.
  - intros min_discount max_items show_all shown H.
    unfold display_sales in H. destruct items as [|x0 l0] eqn:Eitems.
    { injection H as <-. constructor. }
    rewrite <- Eitems in *.
    apply result_bind_Ok in H as (filtered & Hf & H).
    apply result_bind_Ok in H as (sorted & Hs & H).
    apply result_bind_Ok in H as (rendered & _ & H). injection H as <-.
    assert (Hsub : forall x, In x filtered -> In x items).
    { destruct (0 <? min_discount).
      - apply filter_result_Ok in Hf as ->. intros x Hx. now apply filter_In in Hx.
      - now injection Hf as <-. }
    apply Forall_forall. intros x Hx%list_elem_of_In.
    assert (Hx' : In x sorted).
    { destruct show_all; [exact Hx | eapply slice_to_In; eassumption]. }
    destruct (sorted_items_valid _ _ _ Hs Hx') as [Hin Hv].
    auto using is_valid_not_dropped.
Qed.

Lemma dropped_records_never_rendered_witness :
  sort_items_by_discount sample_items = Ok sample_sorted
  /\ Forall (fun x => In x sample_items /\ dropped x = false) sample_sorted.
Proof.
  assert (E : display_sales sample_items 0 25 false = Ok sample_sorted)
    by (vm_compute; reflexivity).
  destruct (dropped_records_never_rendered sample_items) as (_ & _ & H).
  split; [vm_compute; reflexivity | exact (H _ _ _ _ E)].
Defined.

(** ** Floats that are not NaN *)

Lemma iter_pos_invariant {A} (P : A -> Prop) (f : A -> A) :
  (forall x, P x -> P (f x)) -> forall p x, P x -> P (SpecFloat.iter_pos f p x).
Proof.
  intros Hf p. induction p as [p IH|p IH|]; intros x Hx; simpl; auto.
Qed.

Lemma shr_1_nonneg mrs : 0 <= shr_m mrs -> 0 <= shr_m (shr_1 mrs).
Proof.
  destruct mrs as [m r s]. simpl. destruct m as [|[p|p|]|p]; simpl; lia.
Qed.

Lemma shr_fexp_nonneg m e l :
  0 <= m -> 0 <= shr_m (fst (shr_fexp prec emax m e l)).
Proof.
  intros Hm. unfold shr_fexp, shr.
  assert (H0 : 0 <= shr_m (shr_record_of_loc m l)) by now destruct l as [|[]].
  destruct (fexp prec emax (Zdigits2 m + e) - e) as [|p|p]; simpl; auto.
  apply (iter_pos_invariant (fun mrs => 0 <= shr_m mrs)); auto using shr_1_nonneg.
Qed.

Lemma binary_round_aux_nonneg m e l :
  0 <= m -> float_nonneg (binary_round_aux prec emax false m e l).
Proof.
  intros Hm. unfold binary_round_aux.
  pose proof (shr_fexp_nonneg m e l Hm) as H1.
  destruct (shr_fexp prec emax m e l) as [mrs e1]. simpl in H1.
  set (m1 := round_nearest_even (shr_m mrs) (loc_of_shr_record mrs)).
  assert (Hm1 : 0 <= m1).
  { subst m1. unfold round_nearest_even.
    destruct (loc_of_shr_record mrs) as [|[]]; try lia.
    destruct (Z.even (shr_m mrs)); lia. }
  pose proof (shr_fexp_nonneg m1 e1 loc_Exact Hm1) as H2.
  destruct (shr_fexp prec emax m1 e1 loc_Exact) as [mrs' e2]. simpl in H2.
  destruct (shr_m mrs') as [|p|p]; simpl; [exact I | | lia].
  now destruct (Z.leb e2 (emax - prec)).
Qed.

Lemma ratio_float_nonneg n d : 0 <= n -> 0 < d -> float_nonneg (ratio_float n d).
Proof.
  intros Hn Hd. destruct d as [|q|q]; try lia.
  destruct n as [|p|p]; try lia; [exact I|].
  unfold ratio_float, fdiv, SFdiv. cbn [xorb].
  unfold SFdiv_core_binary.
  set (e' := Z.min _ _). set (m' := match 0 - 0 - e' with Z0 => _ | _ => _ end).
  assert (Hm' : 0 <= m').
  { subst m'. destruct (0 - 0 - e'); try lia. apply Z.shiftl_nonneg. lia. }
  pose proof (Z.div_pos m' (Zpos q) Hm' ltac:(lia)) as Hq.
  unfold Z.div in Hq. destruct (Z.div_eucl m' (Zpos q)) as [qu r].
  now apply binary_round_aux_nonneg.
Qed.

Lemma fmul_nonneg a b :
  float_nonneg a -> float_nonneg b -> is_inf b = false -> is_fzero b = false ->
  float_nonneg (fmul a b).
Proof.
  destruct a as [sa|sa| |sa ma ea], b as [sb|sb| |sb mb eb]; simpl;
    try discriminate; try tauto; intros Ha Hb _ _; subst; simpl; auto.
  now apply binary_round_aux_nonneg.
Qed.

Lemma digits_value_nonneg s acc n : 0 <= acc -> digits_value acc s = Some n -> 0 <= n.
Proof.
  revert acc. induction s as [|c s IH]; simpl; intros acc Hacc.
  - now intros [= <-].
  - unfold decimal_value. destruct (decimal_in Nd_zeros c) as [d|] eqn:E; [|discriminate].
    apply IH.
    assert (0 <= d); [|lia].
    revert E. generalize Nd_zeros. intros l. induction l as [|z l IHl]; simpl;
      [discriminate|].
    destruct (_ && _); [intros [= <-]; lia | exact IHl].
Qed.

Lemma float_of_str_nonneg s f : float_of_str s = Ok f -> float_nonneg f.
Proof.
  unfold float_of_str. destruct (span_digits s) as [ip rest].
  destruct ip as [|c ip]; [discriminate|].
  destruct rest as [|c' fp].
  - destruct (digits_value 0 (c :: ip)) as [n|] eqn:E; [|discriminate].
    intros [= <-]. apply ratio_float_nonneg; [|lia].
    eapply digits_value_nonneg; [|exact E]. lia.
  - destruct (char_eqb c' 46%N); [|discriminate].
    destruct fp as [|d fp]; [discriminate|].
    destruct (digits_value 0 _) as [n|] eqn:E; [|discriminate].
    intros [= <-]. apply ratio_float_nonneg; [|lia].
    eapply digits_value_nonneg; [|exact E]. lia.
Qed.

Lemma float_of_str_raises s e : float_of_str s = Raise e -> e = ValueError.
Proof.
  unfold float_of_str. destruct (span_digits s) as [ip rest].
  destruct ip as [|c ip]; [now intros [= <-]|].
  destruct rest as [|c' fp].
  - destruct (digits_value 0 (c :: ip)); [discriminate | now intros [= <-]].
  - destruct (char_eqb c' 46%N); [|now intros [= <-]].
    destruct fp as [|d fp]; [now intros [= <-]|].
    destruct (digits_value 0 _); [discriminate | now intros [= <-]].
Qed.

Lemma mul_by_100 f : mul (Float f) (Int 100) = Ok (Float (fmul f (float_of_Z 100))).
Proof. reflexivity. Qed.

(** The amount of a token: it never raises out of the parser. *)
Lemma token_amount_cases m :
  (exists f, float_of_str (str_replace 44%N (u ".") m) = Ok f
             /\ float_nonneg (fmul f (float_of_Z 100)))
  \/ float_of_str (str_replace 44%N (u ".") m) = Raise ValueError.
Proof.
  destruct (float_of_str _) as [f|e] eqn:E.
  - left. exists f. split; [reflexivity|].
    apply fmul_nonneg; try reflexivity. eapply float_of_str_nonneg; eassumption.
  - right. now rewrite (float_of_str_raises _ _ E).
Qed.

Lemma extract_price_from_matches (c : char) (text : str) :
  extract_price_from_text (c :: text)
  = match re_findall price_pattern (str_strip (str_replace 160%N (u " ") (c :: text))) with
    | m :: _ =>
        match float_of_str (str_replace 44%N (u ".") m) with
        | Ok f => Ok (Float (fmul f (float_of_Z 100)))
        | Raise e => if is_value_or_index_error e then Ok (Int 0) else Raise e
        end
    | [] => Ok (Int 0)
    end.
Proof.
  unfold extract_price_from_text.
  destruct (re_findall _ _) as [|m ms]; [reflexivity|].
  cbn [index lookup list_lookup]. cbn [mbind result_bind].
  destruct (float_of_str _) as [f|e]; reflexivity.
Qed.

Lemma extract_price_total text :
  exists n, extract_price_from_text text = Ok n /\ num_nonneg n.
Proof.
  destruct text as [|c text]; [exists (Int 0); split; [reflexivity | simpl; lia]|].
  rewrite extract_price_from_matches.
  destruct (re_findall _ _) as [|m ms]; [exists (Int 0); split; [reflexivity | simpl; lia]|].
  destruct (token_amount_cases m) as [(f & -> & Hf) | ->].
  - eexists. split; [reflexivity | exact Hf].
  - exists (Int 0). split; [reflexivity | simpl; lia].
Qed.

(** ** Character classes *)

Lemma isspace_not_decimal c : isspace c = true -> is_decimal c = false.
Proof.
  unfold isspace. rewrite existsb_exists. intros (x & Hin & ->%N.eqb_eq).
  simpl in Hin. repeat (destruct Hin as [<-|Hin]; [reflexivity|]). destruct Hin.
Qed.

Lemma decimal_not_space c : is_decimal c = true -> isspace c = false.
Proof.
  intros H. destruct (isspace c) eqn:E; [|reflexivity].
  apply isspace_not_decimal in E. congruence.
Qed.

Lemma decimal_not_lira c : is_decimal c = true -> char_eqb c lira = false.
Proof.
  intros H. destruct (char_eqb c lira) eqn:E; [|reflexivity].
  apply N.eqb_eq in E. subst. discriminate.
Qed.

Lemma decimal_not_separator c :
  is_decimal c = true -> char_eqb c 46%N || char_eqb c 44%N = false.
Proof.
  intros H. destruct (char_eqb c 46%N) eqn:E1.
  { apply N.eqb_eq in E1. subst. discriminate. }
  destruct (char_eqb c 44%N) eqn:E2; [|reflexivity].
  apply N.eqb_eq in E2. subst. discriminate.
Qed.

Lemma decimal_not_160 c : is_decimal c = true -> char_eqb c 160%N = false.
Proof.
  intros H. destruct (char_eqb c 160%N) eqn:E; [|reflexivity].
  apply N.eqb_eq in E. subst. discriminate.
Qed.

(** ** Texts without digits *)

Lemma str_replace_app old new a b :
  str_replace old new (a ++ b) = str_replace old new a ++ str_replace old new b.
Proof.
  induction a as [|c a IH]; [reflexivity|]. simpl. now rewrite IH, <- app_assoc.
Qed.

Lemma str_replace_id old new s :
  Forall (fun c => char_eqb c old = false) s -> str_replace old new s = s.
Proof. induction 1 as [|c s Hc _ IH]; simpl; [reflexivity|]. now rewrite Hc, IH. Qed.

Lemma str_replace_no_decimal old new s :
  no_decimal new -> no_decimal s -> no_decimal (str_replace old new s).
Proof.
  intros Hnew. induction 1 as [|c s Hc _ IH]; simpl; [constructor|].
  apply Forall_app. split; [|exact IH].
  destruct (char_eqb c old); [exact Hnew | now constructor].
Qed.

Lemma lstrip_split s : exists pre, s = pre ++ lstrip s /\ Forall (fun c => isspace c = true) pre.
Proof.
  induction s as [|c s (pre & IH & Hpre)]; simpl.
  - exists []. split; [reflexivity | constructor].
  - destruct (isspace c) eqn:E.
    + exists (c :: pre). split; [simpl; now rewrite <- IH | now constructor].
    + exists []. split; [reflexivity | constructor].
Qed.

Lemma lstrip_no_decimal s : no_decimal s -> no_decimal (lstrip s).
Proof.
  intros H. destruct (lstrip_split s) as (pre & E & _). rewrite E in H.
  unfold no_decimal in H. now apply Forall_app in H.
Qed.

Lemma str_strip_no_decimal s : no_decimal s -> no_decimal (str_strip s).
Proof.
  intros H. unfold str_strip, no_decimal.
  apply Forall_rev, lstrip_no_decimal, Forall_rev, lstrip_no_decimal, H.
Qed.

Lemma match_number_no_decimal s : starts_with_decimal s = false -> match_number s = None.
Proof.
  unfold match_number. destruct s as [|c s]; [reflexivity|]. simpl.
  now intros ->.
Qed.

Lemma no_decimal_start s : no_decimal s -> starts_with_decimal s = false.
Proof. now destruct 1. Qed.

Lemma price_pattern_no_decimal s : no_decimal s -> price_pattern s = None.
Proof.
  intros H. unfold price_pattern.
  assert (Hbody : no_decimal (match s with
                              | c :: r => if char_eqb c lira then lstrip r else s
                              | [] => s
                              end)).
  { destruct s as [|c r]; [exact H|].
    destruct (char_eqb c lira); [|exact H].
    apply lstrip_no_decimal. unfold no_decimal in *. now apply Forall_cons in H. }
  now rewrite match_number_no_decimal by now apply no_decimal_start.
Qed.

Lemma findall_no_decimal s : no_decimal s -> re_findall price_pattern s = [].
Proof.
  unfold re_findall. induction 1 as [|c s Hc Hs IH]; [reflexivity|].
  cbn [findall_from]. rewrite price_pattern_no_decimal by now constructor.
  exact IH.
Qed.

Lemma extract_price_no_decimal text :
  no_decimal text -> extract_price_from_text text = Ok (Int 0).
Proof.
  intros H. destruct text as [|c text]; [reflexivity|].
  rewrite extract_price_from_matches, findall_no_decimal; [reflexivity|].
  apply str_strip_no_decimal, str_replace_no_decimal; [|exact H].
  repeat constructor.
Qed.

(** ** The first number token *)

Lemma span_digits_app ds rest :
  all_decimal ds -> starts_with_decimal rest = false ->
  span_digits (ds ++ rest) = (ds, rest).
Proof.
  intros Hds Hrest. induction Hds as [|c ds Hc _ IH]; cbn [span_digits app].
  - destruct rest as [|c r]; [reflexivity|]. cbn [starts_with_decimal] in Hrest.
    cbn [span_digits]. now rewrite Hrest.
  - now rewrite Hc, IH.
Qed.

Lemma span_digits_all ds : all_decimal ds -> span_digits ds = (ds, []).
Proof.
  intros H. rewrite <- (app_nil_r ds) at 1. now apply span_digits_app.
Qed.

Lemma digits_value_all_decimal s acc :
  all_decimal s -> exists n, digits_value acc s = Some n.
Proof.
  intros H. revert acc. induction H as [|c s Hc _ IH]; intros acc; simpl; [eauto|].
  unfold is_decimal in Hc. destruct (decimal_value c); [apply IH | discriminate].
Qed.

(** The token is what the matcher reads at its start. *)
Lemma match_number_token whole_part sep fraction rest :
  whole_part <> [] -> all_decimal whole_part -> all_decimal fraction ->
  char_eqb sep 46%N || char_eqb sep 44%N = true ->
  starts_with_decimal rest = false ->
  (fraction = [] -> starts_with_fraction rest = false) ->
  match_number (token_of whole_part sep fraction ++ rest)
  = Some (token_of whole_part sep fraction, rest).
Proof.
  intros Hne Hw Hf Hsep Hrest Hfrac. unfold match_number, token_of.
  destruct fraction as [|d fraction].
  - rewrite (span_digits_app _ _ Hw Hrest).
    destruct whole_part as [|c w]; [congruence|].
    destruct rest as [|c1 [|c2 r]]; [reflexivity| |].
    + destruct (char_eqb c1 46%N || char_eqb c1 44%N); reflexivity.
    + specialize (Hfrac eq_refl). cbn [starts_with_fraction] in Hfrac.
      destruct (char_eqb c1 46%N || char_eqb c1 44%N); [|reflexivity].
      cbn [andb] in Hfrac. cbn [span_digits]. now rewrite Hfrac.
  - rewrite <- app_assoc.
    change ((sep :: d :: fraction) ++ rest) with (sep :: (d :: fraction) ++ rest).
    rewrite (span_digits_app whole_part (sep :: (d :: fraction) ++ rest) Hw).
    2:{ simpl. destruct (is_decimal sep) eqn:E; [|reflexivity].
        apply decimal_not_separator in E. congruence. }
    destruct whole_part as [|c w]; [congruence|].
    rewrite Hsep, (span_digits_app _ _ Hf Hrest). reflexivity.
Qed.

Lemma lstrip_app_stop front c back :
  isspace c = false ->
  exists kept, lstrip (front ++ c :: back) = kept ++ c :: back
               /\ exists gone, front = gone ++ kept.
Proof.
  intros Hc. induction front as [|x front (kept & IH & gone & Hgone)]; simpl.
  - rewrite Hc. exists []. split; [reflexivity | now exists []].
  - destruct (isspace x).
    + exists kept. split; [exact IH|]. exists (x :: gone). now rewrite Hgone.
    + exists (x :: front). split; [reflexivity | now exists []].
Qed.

(** In front of the token there is no match, and the token is the first. *)
Lemma findall_first before tok rest d ds :
  no_decimal before -> tok = d :: ds -> is_decimal d = true ->
  match_number (tok ++ rest) = Some (tok, rest) ->
  exists more, re_findall price_pattern (before ++ tok ++ rest) = tok :: more.
Proof.
  intros Hbefore -> Hd Hmatch. unfold re_findall.
  induction Hbefore as [|c before Hc Hbefore IH].
  - cbn [app findall_from] in *. unfold price_pattern.
    rewrite (decimal_not_lira d Hd), Hmatch. eauto.
  - change ((c :: before) ++ (d :: ds) ++ rest)
      with (c :: (before ++ (d :: ds) ++ rest)).
    set (s := before ++ (d :: ds) ++ rest) in *.
    cbn [findall_from].
    assert (price_pattern (c :: s) = None
            \/ exists r, price_pattern (c :: s) = Some (d :: ds, r))
      as [-> | [r ->]]; [|exact IH|eauto].
    unfold price_pattern. destruct (char_eqb c lira).
    + subst s. change (before ++ (d :: ds) ++ rest) with (before ++ d :: ds ++ rest).
      destruct (lstrip_app_stop before d (ds ++ rest) (decimal_not_space d Hd))
        as (kept & -> & gone & Hgone).
      destruct kept as [|k kept].
      * right. cbn [app] in *. rewrite Hmatch. eauto.
      * left. rewrite match_number_no_decimal; [reflexivity|].
        cbn [app starts_with_decimal]. rewrite Hgone in Hbefore.
        unfold no_decimal in Hbefore.
        apply Forall_app in Hbefore as [_ Hk]. now apply Forall_cons in Hk.
    + left. rewrite match_number_no_decimal; [reflexivity | exact Hc].
Qed.

(** ** The text around the token *)

Lemma nonempty_last {A} (l : list A) : l <> [] -> exists init x, l = init ++ [x].
Proof.
  induction l as [|y l IH] using rev_ind; [congruence | eauto].
Qed.

(** Stripping leaves the token in place: it takes whitespace off the text in
    front of it and off the end of the text after it. *)
Lemma str_strip_token front d ds init l back :
  d :: ds = init ++ [l] -> isspace d = false -> isspace l = false ->
  exists front' back',
    str_strip (front ++ (d :: ds) ++ back) = front' ++ (d :: ds) ++ back'
    /\ (exists gone, front = gone ++ front')
    /\ (exists gone, back = back' ++ gone).
Proof.
  intros Htok Hd Hl. unfold str_strip. cbn [app].
  destruct (lstrip_app_stop front d (ds ++ back) Hd) as (front' & -> & Hfront).
  replace (front' ++ d :: ds ++ back) with (front' ++ (init ++ [l]) ++ back)
    by (now rewrite <- Htok).
  rewrite !rev_app_distr. cbn [rev app]. rewrite <- !app_assoc. cbn [app].
  destruct (lstrip_app_stop (rev back) l (rev init ++ rev front') Hl)
    as (kept & -> & gone & Hgone).
  exists front', (rev kept). split; [|split; [exact Hfront|]].
  - rewrite rev_app_distr. cbn [rev]. rewrite rev_app_distr, !rev_involutive.
    rewrite <- !app_assoc. cbn [app]. rewrite app_comm_cons, Htok.
    now rewrite <- !app_assoc.
  - exists (rev gone). rewrite <- rev_app_distr, <- Hgone. now rewrite rev_involutive.
Qed.

Lemma starts_with_decimal_replace s :
  starts_with_decimal (str_replace 160%N (u " ") s) = starts_with_decimal s.
Proof.
  change (u " ") with [32%N].
  destruct s as [|c s]; [reflexivity|]. cbn [str_replace].
  destruct (char_eqb c 160%N) eqn:E; [|reflexivity].
  apply N.eqb_eq in E. now subst.
Qed.

Lemma starts_with_fraction_replace s :
  starts_with_fraction (str_replace 160%N (u " ") s) = starts_with_fraction s.
Proof.
  change (u " ") with [32%N].
  destruct s as [|c [|d s]]; [reflexivity| |]; cbn [str_replace].
  - destruct (char_eqb c 160%N); reflexivity.
  - destruct (char_eqb c 160%N) eqn:E.
    + apply N.eqb_eq in E. subst. destruct (char_eqb d 160%N); reflexivity.
    + destruct (char_eqb d 160%N) eqn:E'; [|reflexivity].
      apply N.eqb_eq in E'. subst. cbn [app starts_with_fraction].
      change (is_decimal 32%N) with false. change (is_decimal 160%N) with false.
      reflexivity.
Qed.

Lemma starts_with_decimal_prefix s gone :
  starts_with_decimal (s ++ gone) = false -> starts_with_decimal s = false.
Proof. now destruct s. Qed.

Lemma starts_with_fraction_prefix s gone :
  starts_with_fraction (s ++ gone) = false -> starts_with_fraction s = false.
Proof. now destruct s as [|c [|d s]]. Qed.

(** ** The token as a number *)

Lemma token_ends whole_part sep fraction :
  whole_part <> [] -> all_decimal whole_part -> all_decimal fraction ->
  (exists d ds, token_of whole_part sep fraction = d :: ds /\ is_decimal d = true)
  /\ (exists init l, token_of whole_part sep fraction = init ++ [l]
                     /\ is_decimal l = true).
Proof.
  intros Hne Hw Hf. split.
  - destruct Hw as [|d ds Hd _]; [congruence|].
    exists d. unfold token_of. destruct fraction; eauto.
  - unfold token_of. destruct fraction as [|x fraction].
    + destruct (nonempty_last whole_part Hne) as (init & l & ->).
      exists init, l. split; [reflexivity|].
      unfold all_decimal in Hw. apply Forall_app in Hw as [_ Hl].
      now apply Forall_cons in Hl.
    + destruct (nonempty_last (x :: fraction)) as (init & l & E); [discriminate|].
      rewrite E in *. exists (whole_part ++ sep :: init), l.
      split; [now rewrite <- app_assoc|].
      unfold all_decimal in Hf. apply Forall_app in Hf as [_ Hl].
      now apply Forall_cons in Hl.
Qed.

Lemma token_not_160 whole_part sep fraction :
  all_decimal whole_part -> all_decimal fraction ->
  char_eqb sep 46%N || char_eqb sep 44%N = true ->
  Forall (fun c => char_eqb c 160%N = false) (token_of whole_part sep fraction).
Proof.
  intros Hw Hf Hsep.
  assert (H : forall s, all_decimal s -> Forall (fun c => char_eqb c 160%N = false) s).
  { intros s Hs. eapply Forall_impl; [exact Hs | exact decimal_not_160]. }
  unfold token_of. destruct fraction as [|x fraction]; [auto|].
  apply Forall_app. split; [auto|]. constructor; [|auto].
  destruct (char_eqb sep 160%N) eqn:E; [|reflexivity].
  apply N.eqb_eq in E. now subst.
Qed.

Lemma float_of_str_token whole_part sep fraction :
  whole_part <> [] -> all_decimal whole_part -> all_decimal fraction ->
  char_eqb sep 46%N || char_eqb sep 44%N = true ->
  exists n,
    digits_value 0 (whole_part ++ fraction) = Some n
    /\ float_of_str (str_replace 44%N (u ".") (token_of whole_part sep fraction))
       = Ok (ratio_float n (10 ^ Z.of_nat (length fraction))).
Proof.
  intros Hne Hw Hf Hsep.
  assert (Hid : forall s, all_decimal s -> str_replace 44%N (u ".") s = s).
  { intros s Hs. apply str_replace_id. eapply Forall_impl; [exact Hs|].
    intros c Hc%decimal_not_separator. now apply orb_false_iff in Hc. }
  destruct (digits_value_all_decimal (whole_part ++ fraction) 0) as [n Hn].
  { now apply Forall_app. }
  exists n. split; [exact Hn|]. unfold token_of, float_of_str.
  destruct fraction as [|x fraction].
  - rewrite (Hid _ Hw), (span_digits_all _ Hw).
    rewrite app_nil_r in Hn. rewrite Hn.
    now destruct whole_part; [congruence|].
  - change (whole_part ++ sep :: x :: fraction)
      with (whole_part ++ [sep] ++ x :: fraction).
    rewrite !str_replace_app, (Hid _ Hw), (Hid _ Hf).
    assert (str_replace 44%N (u ".") [sep] = [46%N]) as ->.
    { cbn [str_replace]. destruct (char_eqb sep 44%N) eqn:E; [reflexivity|].
      rewrite orb_false_r in Hsep. apply N.eqb_eq in Hsep. now subst. }
    cbn [app].
    pose proof (span_digits_app whole_part (46%N :: x :: fraction) Hw eq_refl) as Hs.
    destruct (span_digits _) as [ip rest]. injection Hs as -> ->.
    destruct whole_part as [|c w]; [congruence|].
    change (char_eqb 46%N 46%N) with true. cbv iota. now rewrite Hn.
Qed.

(** The price parser on a text whose first number token is known. *)
Lemma extract_price_first_token before whole_part sep fraction rest :
  no_decimal before ->
  whole_part <> [] -> all_decimal whole_part -> all_decimal fraction ->
  char_eqb sep 46%N || char_eqb sep 44%N = true ->
  starts_with_decimal rest = false ->
  (fraction = [] -> starts_with_fraction rest = false) ->
  exists amount,
    amount_of whole_part fraction = Some amount
    /\ extract_price_from_text (before ++ token_of whole_part sep fraction ++ rest)
       = Ok amount.
Proof.
  intros Hbefore Hne Hw Hf Hsep Hrest Hfrac.
  destruct (token_ends whole_part sep fraction Hne Hw Hf)
    as [(d & ds & Htok & Hd) (init & l & Hlast & Hl)].
  destruct (float_of_str_token whole_part sep fraction Hne Hw Hf Hsep)
    as (n & Hn & Hfloat).
  exists (Float (fmul (ratio_float n (10 ^ Z.of_nat (length fraction)))
                      (float_of_Z 100))).
  split; [unfold amount_of; now rewrite Hn|].
  set (tok := token_of whole_part sep fraction) in *.
  destruct (before ++ tok ++ rest) as [|c text] eqn:E.
  { apply app_eq_nil in E as [_ E]. apply app_eq_nil in E as [E _]. congruence. }
  rewrite extract_price_from_matches, <- E. clear E c text.
  rewrite !str_replace_app.
  rewrite (str_replace_id _ _ tok) by now apply token_not_160.
  rewrite Htok in Hlast.
  destruct (str_strip_token (str_replace 160%N (u " ") before) d ds init l
              (str_replace 160%N (u " ") rest) Hlast
              (decimal_not_space d Hd) (decimal_not_space l Hl))
    as (front' & back' & Hstrip & (g1 & Hg1) & (g2 & Hg2)).
  rewrite Htok, Hstrip, <- Htok.
  assert (Hfront : no_decimal front').
  { assert (H : no_decimal (str_replace 160%N (u " ") before))
      by (apply str_replace_no_decimal; [repeat constructor | exact Hbefore]).
    rewrite Hg1 in H. unfold no_decimal in H. now apply Forall_app in H. }
  assert (Hback : starts_with_decimal back' = false).
  { apply (starts_with_decimal_prefix back' g2).
    now rewrite <- Hg2, starts_with_decimal_replace. }
  assert (Hback' : fraction = [] -> starts_with_fraction back' = false).
  { intros Hnil. apply (starts_with_fraction_prefix back' g2).
    rewrite <- Hg2, starts_with_fraction_replace. auto. }
  destruct (findall_first front' tok back' d ds Hfront Htok Hd) as [more ->].
  { now apply match_number_token. }
  now rewrite Hfloat.
Qed.

(** ** Claims on the price parser *)

(** C2, as stated, fails: the amount of 19,99 is a float just below 1999,
    not an integer. *)
Lemma price_19_99_not_whole :
  extract_price_from_text (u "₺19,99")
  = Ok (Float (S754_finite false 8791694975696895 (-42)))
  /\ is_whole (Float (S754_finite false 8791694975696895 (-42))) = false
  /\ int_of_num (Float (S754_finite false 8791694975696895 (-42))) = Ok 1998.
Proof. vm_compute. repeat split; reflexivity. Qed.

(** C2, amended: for every text the parser returns, without raising, a
    number that is zero or above. It is the integer 0 when the text has no
    digit. When the text has one, it is the float amount of the first number
    token: its digits over the power of ten of its fraction, then times 100. *)
Theorem extract_price_from_text_first_token :
  (forall text, exists n, extract_price_from_text text = Ok n /\ num_nonneg n)
  /\ (forall text, no_decimal text -> extract_price_from_text text = Ok (Int 0))
  /\ (forall before whole_part sep fraction rest,
        no_decimal before ->
        whole_part <> [] -> all_decimal whole_part -> all_decimal fraction ->
        char_eqb sep 46%N || char_eqb sep 44%N = true ->
        starts_with_decimal rest = false ->
        (fraction = [] -> starts_with_fraction rest = false) ->
        exists amount,
          amount_of whole_part fraction = Some amount
          /\ extract_price_from_text
               (before ++ token_of whole_part sep fraction ++ rest)
             = Ok amount).
Proof.
  split; [exact extract_price_total|].
  split; [exact extract_price_no_decimal | exact extract_price_first_token].
Qed.

(** The text "₺100,00 ₺25,00": the first token is 100,00 and its amount
    is the float 10000.0. *)
Lemma extract_price_from_text_first_token_witness :
  extract_price_from_text (u "₺100,00 ₺25,00")
  = Ok (Float (S754_finite false 5497558138880000 (-39)))
  /\ extract_price_from_text (u "Free to Play") = Ok (Int 0).
Proof.
  destruct extract_price_from_text_first_token as (_ & Hnone & Htoken).
  split.
  - destruct (Htoken (u "₺") (u "100") 44%N (u "00") (u " ₺25,00"))
      as (amount & Hamount & Hparse).
    + repeat constructor.
    + discriminate.
    + repeat constructor.
    + repeat constructor.
    + reflexivity.
    + reflexivity.
    + reflexivity.
    + vm_compute in Hamount. injection Hamount as <-. exact Hparse.
  - apply Hnone. repeat constructor.
Defined.

(** * Floating-point rounding *)

(** ** Rounding to the nearest float *)

Lemma Zdigits2_log2 m : 0 < m -> Zdigits2 m = Z.log2 m + 1.
Proof.
  destruct m as [|p|p]; try lia. intros _. cbn [Zdigits2].
  assert (H : forall q, digits2_pos q = Pos.size q)
    by (induction q; cbn; congruence).
  rewrite H. destruct p; cbn; lia.
Qed.

Lemma Zdigits2_bounds m : 0 < m -> 2 ^ (Zdigits2 m - 1) <= m < 2 ^ Zdigits2 m.
Proof.
  intros H. rewrite (Zdigits2_log2 m H).
  replace (Z.log2 m + 1 - 1) with (Z.log2 m) by lia.
  apply (Z.log2_spec m H).
Qed.

Lemma Zdigits2_unique m d : 0 < d -> 2 ^ (d - 1) <= m < 2 ^ d -> Zdigits2 m = d.
Proof.
  intros Hd H. assert (0 < m) by (pose proof (Z.pow_pos_nonneg 2 (d - 1)); lia).
  rewrite (Zdigits2_log2 m) by assumption.
  rewrite (Z.log2_unique m (d - 1)); [lia | lia |].
  now replace (Z.succ (d - 1)) with d by lia.
Qed.

Lemma iter_pos_count {A} (P : Z -> A -> Prop) (f : A -> A) :
  (forall k x, 0 <= k -> P k x -> P (k + 1) (f x)) ->
  forall n k x, 0 <= k -> P k x -> P (k + Zpos n) (SpecFloat.iter_pos f n x).
Proof.
  intros Hf. induction n as [n IH|n IH|]; intros k x Hk Hx; cbn [SpecFloat.iter_pos].
  - replace (k + Zpos n~1) with (k + 1 + Zpos n + Zpos n) by lia.
    apply IH; [lia|]. apply IH; [lia|]. now apply Hf.
  - replace (k + Zpos n~0) with (k + Zpos n + Zpos n) by lia.
    apply IH; [lia|]. now apply IH.
  - now apply Hf.
Qed.

Lemma shr_1_spec m r s :
  0 <= m ->
  shr_1 (Build_shr_record m r s) = Build_shr_record (m / 2) (Z.odd m) (r || s).
Proof.
  intros Hm. destruct m as [|[p|p|]|p]; try lia; cbn [shr_1 Z.odd]; f_equal.
  - rewrite Pos2Z.inj_xI. apply Z.div_unique with (r := 1); lia.
  - rewrite Pos2Z.inj_xO. apply Z.div_unique with (r := 0); lia.
Qed.

Lemma shr_1_located mrs a b :
  0 <= shr_m mrs -> 0 < b ->
  located (shr_m mrs) (loc_of_shr_record mrs) a b ->
  located (shr_m (shr_1 mrs)) (loc_of_shr_record (shr_1 mrs)) a (2 * b)
  /\ shr_m (shr_1 mrs) = shr_m mrs / 2.
Proof.
  destruct mrs as [m r s]. cbn [shr_m]. intros Hm Hb H.
  rewrite (shr_1_spec m r s Hm). cbn [shr_m]. split; [|reflexivity].
  pose proof (Z.div2_odd m) as Hdiv. rewrite Z.div2_div in Hdiv.
  generalize dependent (m / 2). intros q Hdiv.
  destruct (Z.odd m); cbn [Z.b2z] in Hdiv; subst m;
    destruct r, s; cbn [orb loc_of_shr_record located] in *; lia.
Qed.

Lemma loc_of_shr_record_of_loc m l :
  loc_of_shr_record (shr_record_of_loc m l) = l
  /\ shr_m (shr_record_of_loc m l) = m.
Proof. destruct l as [|[]]; split; reflexivity. Qed.

(** Shifting a mantissa right by [n] bits keeps track of where the exact
    value lies between the shifted mantissa and its successor. *)
Lemma shr_located m l a b n ex :
  0 <= m -> 0 < b -> 0 <= n -> located m l a b ->
  exists mrs e,
    shr (shr_record_of_loc m l) ex n = (mrs, e)
    /\ e = ex + n
    /\ shr_m mrs = m / 2 ^ n
    /\ located (shr_m mrs) (loc_of_shr_record mrs) a (b * 2 ^ n).
Proof.
  intros Hm Hb Hn Hloc.
  destruct (loc_of_shr_record_of_loc m l) as [Hl Hsm].
  destruct n as [|p|p]; [| |lia].
  - exists (shr_record_of_loc m l), ex. cbn [shr].
    rewrite Hl, Hsm, Z.pow_0_r, Z.div_1_r, Z.mul_1_r. repeat split; [lia | exact Hloc].
  - exists (SpecFloat.iter_pos shr_1 p (shr_record_of_loc m l)), (ex + Zpos p).
    cbn [shr]. split; [reflexivity|]. split; [reflexivity|].
    pose (P := fun (k : Z) (mrs : shr_record) =>
                 0 <= shr_m mrs /\ shr_m mrs = m / 2 ^ k
                 /\ located (shr_m mrs) (loc_of_shr_record mrs) a (b * 2 ^ k)).
    assert (H : P (0 + Zpos p) (SpecFloat.iter_pos shr_1 p (shr_record_of_loc m l))).
    { apply (iter_pos_count P shr_1); [|lia|].
      - intros k x Hk (Hx & Hxm & Hxl).
        destruct (shr_1_located x a (b * 2 ^ k) Hx) as [Hl' Hm']; [|exact Hxl|].
        { apply Z.mul_pos_pos; [lia | now apply Z.pow_pos_nonneg]. }
        unfold P. rewrite Hm', Hxm.
        rewrite Z.pow_add_r, Z.pow_1_r by lia.
        split; [apply Z.div_pos; [apply Z.div_pos|]; try lia;
                now apply Z.pow_pos_nonneg|].
        split.
        + apply Zdiv.Zdiv_Zdiv; [|lia]. now apply Z.pow_nonneg.
        + rewrite Hm', Hxm in Hl'.
          now replace (b * (2 ^ k * 2)) with (2 * (b * 2 ^ k)) by ring.
      - unfold P. rewrite Hl, Hsm, Z.pow_0_r, Z.div_1_r, Z.mul_1_r. auto. }
    destruct H as (_ & H1 & H2). now rewrite Z.add_0_l in *.
Qed.

Lemma round_nearest_even_located m l a B :
  0 < B -> located m l a B ->
  (round_nearest_even m l = m \/ round_nearest_even m l = m + 1)
  /\ 2 * Z.abs (round_nearest_even m l * B - a) <= B.
Proof.
  intros HB H. destruct l as [|[]]; cbn [round_nearest_even located] in *.
  - split; [now left | lia].
  - destruct (Z.even m); split; auto; lia.
  - split; [now left | lia].
  - split; [now right | lia].
Qed.

(** A mantissa of at most 53 bits after rounding up needs one more shift
    only when it has reached [2^53]. *)
Lemma shr_fexp_rounded m1 e1 :
  2 ^ 52 <= m1 <= 2 ^ 53 -> -1074 <= e1 ->
  exists m e,
    shr_fexp prec emax m1 e1 loc_Exact
    = (Build_shr_record (Zpos m) false false, e)
    /\ 2 ^ 52 <= Zpos m < 2 ^ 53
    /\ e1 <= e <= e1 + 1
    /\ Zpos m * 2 ^ (e - e1) = m1.
Proof.
  intros Hm He. unfold shr_fexp.
  destruct (Z.eq_dec m1 (2 ^ 53)) as [->|Hne].
  - exists (Z.to_pos (2 ^ 52)), (e1 + 1).
    assert (Zdigits2 (2 ^ 53) = 54) as -> by reflexivity.
    assert (fexp prec emax (54 + e1) - e1 = 1) as ->
      by (unfold fexp, SpecFloat.emin, prec, emax; lia).
    split; [reflexivity|].
    replace (e1 + 1 - e1) with 1 by lia.
    split; [split; [reflexivity | reflexivity]|]. split; [lia | reflexivity].
  - assert (0 < m1) by lia. destruct m1 as [|m|m]; try lia.
    exists m, e1.
    assert (Zdigits2 (Zpos m) = 53) as ->
      by (apply Zdigits2_unique; [lia | split; [apply Hm | lia]]).
    assert (fexp prec emax (53 + e1) - e1 = 0) as ->
      by (unfold fexp, SpecFloat.emin, prec, emax; lia).
    split; [reflexivity|]. rewrite Z.sub_diag, Z.pow_0_r. lia.
Qed.

(** Rounding a located value whose mantissa has 53 bits or more and is not
    below the normal numbers: the rounded mantissa is full and at most half a
    unit of the shifted mantissa away; the result is that float, or an
    infinity when its exponent is above the largest one. *)
Lemma binary_round_aux_cases mx ex lx a b :
  0 < mx -> 0 < b -> located mx lx a b ->
  53 <= Zdigits2 mx ->
  -1074 <= Zdigits2 mx + ex - 53 ->
  exists m e,
    binary_round_aux prec emax false mx ex lx
    = (if e <=? 971 then S754_finite false m e else S754_infinity false)
    /\ 2 ^ 52 <= Zpos m < 2 ^ 53
    /\ ex + Zdigits2 mx - 53 <= e <= ex + Zdigits2 mx - 52
    /\ 2 * Z.abs (Zpos m * 2 ^ (e - ex) * b - a) <= 2 ^ (Zdigits2 mx - 53) * b.
Proof.
  intros Hmx Hb Hloc Hd Hlo.
  pose proof (Zdigits2_bounds mx Hmx) as Hbounds.
  set (d := Zdigits2 mx) in *. set (n := d - 53).
  assert (Hn : 0 <= n) by (unfold n; lia).
  unfold binary_round_aux, shr_fexp at 1. fold d.
  assert (fexp prec emax (d + ex) - ex = n) as ->
    by (unfold fexp, SpecFloat.emin, prec, emax, n; lia).
  destruct (shr_located mx lx a b n ex ltac:(lia) Hb Hn Hloc)
    as (mrs & e1 & -> & -> & Hm1 & Hloc1).
  assert (Hpow : 0 < 2 ^ n) by now apply Z.pow_pos_nonneg.
  assert (Hsplit : 2 ^ (d - 1) = 2 ^ 52 * 2 ^ n).
  { rewrite <- Z.pow_add_r by lia. f_equal. unfold n. lia. }
  assert (Hsplit' : 2 ^ d = 2 ^ 53 * 2 ^ n).
  { rewrite <- Z.pow_add_r by lia. f_equal. unfold n. lia. }
  assert (Hm1b : 2 ^ 52 <= shr_m mrs < 2 ^ 53).
  { rewrite Hm1. split.
    - apply Z.div_le_lower_bound; lia.
    - apply Z.div_lt_upper_bound; lia. }
  destruct (round_nearest_even_located _ _ a (b * 2 ^ n) ltac:(nia) Hloc1)
    as [Hcases Herr].
  set (m1 := round_nearest_even (shr_m mrs) (loc_of_shr_record mrs)) in *.
  destruct (shr_fexp_rounded m1 (ex + n) ltac:(lia) ltac:(unfold n; lia))
    as (m & e & -> & Hmb & He & Hval).
  exists m, e. cbn [shr_m].
  change (emax - prec) with 971.
  split; [reflexivity|]. split; [exact Hmb|]. split; [unfold n in He; lia|].
  replace (e - ex) with ((e - (ex + n)) + n) by lia.
  rewrite Z.pow_add_r by lia. fold n.
  replace (Z.pos m * (2 ^ (e - (ex + n)) * 2 ^ n) * b) with (m1 * (b * 2 ^ n))
    by (rewrite <- Hval; ring).
  lia.
Qed.

Lemma binary_round_aux_located mx ex lx a b :
  0 < mx -> 0 < b -> located mx lx a b ->
  53 <= Zdigits2 mx ->
  -1074 <= Zdigits2 mx + ex - 53 ->
  Zdigits2 mx + ex <= 1023 ->
  exists m e,
    binary_round_aux prec emax false mx ex lx = S754_finite false m e
    /\ 2 ^ 52 <= Zpos m < 2 ^ 53
    /\ ex + Zdigits2 mx - 53 <= e <= ex + Zdigits2 mx - 52
    /\ 2 * Z.abs (Zpos m * 2 ^ (e - ex) * b - a) <= 2 ^ (Zdigits2 mx - 53) * b.
Proof.
  intros Hmx Hb Hloc Hd Hlo Hhi.
  destruct (binary_round_aux_cases mx ex lx a b Hmx Hb Hloc Hd Hlo)
    as (m & e & Hr & Hm & He & Herr).
  exists m, e. assert (e <=? 971 = true) as E by lia. rewrite E in Hr. auto.
Qed.

(** ** Distance of a float to a rational *)

(** The distance can be measured in any unit below both exponents. *)
Lemma within_units k m e a b t unit :
  unit <= e -> unit <= t ->
  within k (S754_finite false m e) a b t
  <-> 2 ^ k * Z.abs (Zpos m * 2 ^ (e - unit) * b - a * 2 ^ (t - unit))
      <= a * 2 ^ (t - unit).
Proof.
  intros He Ht. unfold within. cbv zeta.
  set (lo := Z.min e t).
  assert (Hc : 0 < 2 ^ (lo - unit)) by (apply Z.pow_pos_nonneg; lia).
  replace (e - unit) with ((e - lo) + (lo - unit)) by lia.
  replace (t - unit) with ((t - lo) + (lo - unit)) by lia.
  rewrite !Z.pow_add_r by lia.
  set (c := 2 ^ (lo - unit)) in *.
  replace (Z.pos m * (2 ^ (e - lo) * c) * b - a * (2 ^ (t - lo) * c))
    with ((Z.pos m * 2 ^ (e - lo) * b - a * 2 ^ (t - lo)) * c) by ring.
  rewrite Z.abs_mul, (Z.abs_eq c) by lia.
  rewrite !Z.mul_assoc. apply (Z.mul_le_mono_pos_r _ _ c Hc).
Qed.

(** The same rational written with other numbers. *)
Lemma within_same k f a b t a' b' t' unit :
  unit <= t -> unit <= t' -> 0 < b -> 0 < b' ->
  a * 2 ^ (t - unit) * b' = a' * 2 ^ (t' - unit) * b ->
  within k f a b t -> within k f a' b' t'.
Proof.
  intros Ht Ht' Hb Hb' Heq. destruct f as [| | |[] m e]; try exact id.
  set (w := Z.min unit e).
  rewrite (within_units k m e a b t w), (within_units k m e a' b' t' w) by lia.
  replace (t - w) with ((t - unit) + (unit - w)) by lia.
  replace (t' - w) with ((t' - unit) + (unit - w)) by lia.
  rewrite !Z.pow_add_r by lia.
  assert (Hc : 0 < 2 ^ (unit - w)) by (apply Z.pow_pos_nonneg; lia).
  set (c := 2 ^ (unit - w)) in *. set (M := Z.pos m * 2 ^ (e - w)).
  set (A := a * 2 ^ (t - unit)) in *. set (A' := a' * 2 ^ (t' - unit)) in *.
  replace (a * (2 ^ (t - unit) * c)) with (A * c) by (unfold A; ring).
  replace (a' * (2 ^ (t' - unit) * c)) with (A' * c) by (unfold A'; ring).
  intros H.
  apply (Z.mul_le_mono_pos_r _ _ b Hb).
  replace (2 ^ k * Z.abs (M * b' - A' * c) * b)
    with (2 ^ k * Z.abs ((M * b' - A' * c) * b)) by (rewrite Z.abs_mul, (Z.abs_eq b); lia).
  replace ((M * b' - A' * c) * b) with ((M * b - A * c) * b') by (ring_simplify; nia).
  rewrite Z.abs_mul, (Z.abs_eq b') by lia.
  replace (A' * c * b) with (A * c * b') by nia.
  rewrite Z.mul_assoc. apply Z.mul_le_mono_pos_r; assumption.
Qed.

Lemma located_lower m l a b : 0 < b -> located m l a b -> m * b <= a.
Proof. intros Hb. destruct l as [|[]]; cbn [located]; lia. Qed.

Lemma binary_round_aux_within mx ex lx a b :
  0 < mx -> 0 < b -> located mx lx a b ->
  53 <= Zdigits2 mx ->
  -1074 <= Zdigits2 mx + ex - 53 ->
  Zdigits2 mx + ex <= 1023 ->
  exists m e,
    binary_round_aux prec emax false mx ex lx = S754_finite false m e
    /\ 2 ^ 52 <= Zpos m < 2 ^ 53
    /\ ex + Zdigits2 mx - 53 <= e <= ex + Zdigits2 mx - 52
    /\ within 53 (S754_finite false m e) a b ex.
Proof.
  intros Hmx Hb Hloc Hd Hlo Hhi.
  destruct (binary_round_aux_located mx ex lx a b Hmx Hb Hloc Hd Hlo Hhi)
    as (m & e & Hr & Hm & He & Herr).
  exists m, e. repeat split; try assumption; try lia.
  apply (within_units 53 m e a b ex ex); [lia | lia |].
  rewrite Z.sub_diag, Z.pow_0_r, Z.mul_1_r.
  pose proof (Zdigits2_bounds mx Hmx) as [Hlow _].
  replace (Zdigits2 mx - 1) with (52 + (Zdigits2 mx - 53)) in Hlow by lia.
  rewrite Z.pow_add_r in Hlow by lia.
  pose proof (located_lower mx lx a b Hb Hloc) as Ha.
  set (N := 2 ^ (Zdigits2 mx - 53)) in *.
  assert (0 < N) by (apply Z.pow_pos_nonneg; lia).
  assert (2 ^ 52 * N * b <= mx * b) by (apply Z.mul_le_mono_nonneg_r; lia).
  set (E := Z.abs (Z.pos m * 2 ^ (e - ex) * b - a)) in *.
  change (2 ^ 53) with (2 ^ 52 * 2). lia.
Qed.

Lemma new_location_located m2 q r :
  0 <= r < m2 -> located q (new_location m2 r) (m2 * q + r) m2.
Proof.
  intros Hr. unfold new_location.
  destruct (Z.even m2) eqn:Eeven.
  - unfold new_location_even. destruct (Z.eqb_spec r 0); cbn [located]; [lia|].
    destruct (Z.compare_spec (2 * r) m2); cbn [located]; nia.
  - unfold new_location_odd. destruct (Z.eqb_spec r 0); cbn [located]; [lia|].
    assert (Hodd : Z.odd m2 = true) by (rewrite <- Z.negb_even, Eeven; reflexivity).
    apply Z.odd_spec in Hodd as [h Hh].
    destruct (Z.compare_spec (2 * r + 1) m2); cbn [located]; nia.
Qed.

(** The quotient of two positive finite floats in the range of the normal
    numbers. *)
Lemma fdiv_within m1 e1 m2 e2 :
  Zdigits2 (Zpos m1) <= Zdigits2 (Zpos m2) + 53 ->
  -1021 <= Zdigits2 (Zpos m1) + e1 - (Zdigits2 (Zpos m2) + e2) <= 1022 ->
  exists m e,
    fdiv (S754_finite false m1 e1) (S754_finite false m2 e2)
    = S754_finite false m e
    /\ 2 ^ 52 <= Zpos m < 2 ^ 53
    /\ Zdigits2 (Zpos m1) + e1 - (Zdigits2 (Zpos m2) + e2) - 53 <= e
       <= Zdigits2 (Zpos m1) + e1 - (Zdigits2 (Zpos m2) + e2) - 51
    /\ within 53 (S754_finite false m e) (Zpos m1) (Zpos m2) (e1 - e2).
Proof.
  intros Hd HD.
  pose proof (Zdigits2_bounds (Zpos m1) ltac:(lia)) as Hb1.
  pose proof (Zdigits2_bounds (Zpos m2) ltac:(lia)) as Hb2.
  assert (Hd1 : 1 <= Zdigits2 (Zpos m1)) by (cbn; lia).
  assert (Hd2 : 1 <= Zdigits2 (Zpos m2)) by (cbn; lia).
  set (d1 := Zdigits2 (Zpos m1)) in *. set (d2 := Zdigits2 (Zpos m2)) in *.
  unfold fdiv, SFdiv. cbn [xorb]. unfold SFdiv_core_binary. fold d1 d2.
  set (e' := Z.min (fexp prec emax (d1 + e1 - (d2 + e2))) (e1 - e2)).
  assert (He' : e' = d1 + e1 - (d2 + e2) - 53)
    by (unfold e', fexp, SpecFloat.emin, prec, emax; lia).
  set (s := e1 - e2 - e').
  assert (Hs : s = 53 - d1 + d2) by (unfold s; lia).
  set (m' := match s with Z0 => Zpos m1 | Zpos _ => Z.shiftl (Zpos m1) s | Zneg _ => 0 end).
  assert (Hm' : m' = Zpos m1 * 2 ^ s).
  { unfold m'. destruct s as [|p|p] eqn:Es; [now rewrite Z.mul_1_r| |lia].
    apply Z.shiftl_mul_pow2. lia. }
  pose proof (Z_div_mod m' (Zpos m2) ltac:(lia)) as Hdiv.
  destruct (Z.div_eucl m' (Zpos m2)) as [q r]. destruct Hdiv as [Hq Hr].
  assert (Hp1 : 2 ^ (d1 - 1) * 2 ^ s = 2 ^ 52 * 2 ^ d2).
  { rewrite <- !Z.pow_add_r by lia. f_equal. lia. }
  assert (Hp2 : 2 ^ d1 * 2 ^ s = 2 ^ 54 * 2 ^ (d2 - 1)).
  { rewrite <- !Z.pow_add_r by lia. f_equal. lia. }
  assert (Hps : 0 < 2 ^ s) by (apply Z.pow_pos_nonneg; lia).
  assert (Hqb : 2 ^ 52 <= q < 2 ^ 54).
  { assert (2 ^ 52 * 2 ^ d2 <= m') by (rewrite Hm', <- Hp1; nia).
    assert (m' < 2 ^ 54 * 2 ^ (d2 - 1)) by (rewrite Hm', <- Hp2; nia).
    split; nia. }
  assert (Hdq : Zdigits2 q = 53 \/ Zdigits2 q = 54).
  { destruct (Z_lt_le_dec q (2 ^ 53)).
    - left. apply Zdigits2_unique; lia.
    - right. apply Zdigits2_unique; lia. }
  destruct (binary_round_aux_within q e' (new_location (Zpos m2) r) m' (Zpos m2))
    as (m & e & Hround & Hm & He & Hw); try lia.
  { rewrite Hq. now apply new_location_located. }
  exists m, e. split; [exact Hround|]. split; [exact Hm|]. split; [lia|].
  apply (within_units 53 m e (Zpos m1) (Zpos m2) (e1 - e2) e'); [lia | lia |].
  apply (within_units 53 m e m' (Zpos m2) e' e') in Hw; [|lia|lia].
  rewrite Z.sub_diag, Z.pow_0_r, Z.mul_1_r in Hw.
  fold s. now rewrite <- Hm'.
Qed.

(** The product of two positive finite floats in the range of the normal
    numbers. *)
Lemma fmul_within m1 e1 m2 e2 :
  53 <= Zdigits2 (Zpos (m1 * m2)) ->
  -1074 <= Zdigits2 (Zpos (m1 * m2)) + (e1 + e2) - 53 ->
  Zdigits2 (Zpos (m1 * m2)) + (e1 + e2) <= 1023 ->
  exists m e,
    fmul (S754_finite false m1 e1) (S754_finite false m2 e2)
    = S754_finite false m e
    /\ 2 ^ 52 <= Zpos m < 2 ^ 53
    /\ e1 + e2 + Zdigits2 (Zpos (m1 * m2)) - 53 <= e
       <= e1 + e2 + Zdigits2 (Zpos (m1 * m2)) - 52
    /\ within 53 (S754_finite false m e) (Zpos m1 * Zpos m2) 1 (e1 + e2).
Proof.
  intros Hd Hlo Hhi. unfold fmul, SFmul. cbn [xorb].
  apply binary_round_aux_within; try assumption; try lia.
  cbn [located]. lia.
Qed.

(** * Prices as floats and as text *)

(** ** Integers as floats *)

Lemma binary_round_aux_exact mx ex :
  2 ^ 52 <= mx < 2 ^ 53 -> -1074 <= ex <= 970 ->
  binary_round_aux prec emax false mx ex loc_Exact
  = S754_finite false (Z.to_pos mx) ex.
Proof.
  intros Hm He.
  assert (Hd : Zdigits2 mx = 53) by (apply Zdigits2_unique; lia).
  destruct (binary_round_aux_located mx ex loc_Exact mx 1)
    as (m & e & -> & Hmb & Hex & Herr); try lia.
  { cbn [located]. lia. }
  rewrite Hd, Z.sub_diag, Z.pow_0_r in Herr.
  rewrite Hd in Hex.
  assert (e = ex \/ e = ex + 1) as [->| ->] by lia.
  - rewrite Z.sub_diag, Z.pow_0_r in Herr.
    f_equal. apply Pos2Z.inj. rewrite Z2Pos.id; lia.
  - replace (ex + 1 - ex) with 1 in Herr by lia. lia.
Qed.

(** An integer below [2^53] is its own float. *)
Lemma float_of_Z_exact x :
  0 < x < 2 ^ 53 ->
  exists m e,
    float_of_Z x = S754_finite false m e
    /\ 2 ^ 52 <= Zpos m < 2 ^ 53
    /\ e = Zdigits2 x - 53
    /\ Zpos m = x * 2 ^ (- e).
Proof.
  intros Hx. destruct x as [|p|p]; try lia.
  pose proof (Zdigits2_bounds (Zpos p) ltac:(lia)) as Hb.
  assert (Hd1 : 1 <= Zdigits2 (Zpos p)) by (cbn; lia).
  assert (Hd : Zdigits2 (Zpos p) <= 53).
  { destruct (Z_le_gt_dec (Zdigits2 (Zpos p)) 53) as [|Hgt]; [assumption|].
    assert (2 ^ 53 <= 2 ^ (Zdigits2 (Zpos p) - 1))
      by (apply Z.pow_le_mono_r; lia). lia. }
  unfold float_of_Z, binary_normalize, binary_round.
  change (Zpos (digits2_pos p)) with (Zdigits2 (Zpos p)).
  set (d := Zdigits2 (Zpos p)) in *.
  assert (fexp prec emax (d + 0) = d - 53) as ->
    by (unfold fexp, SpecFloat.emin, prec, emax; lia).
  unfold shl_align.
  assert (Hpow : 2 ^ (d - 1) * 2 ^ (53 - d) = 2 ^ 52)
    by (rewrite <- Z.pow_add_r by lia; f_equal; lia).
  assert (Hpow' : 2 ^ d * 2 ^ (53 - d) = 2 ^ 53)
    by (rewrite <- Z.pow_add_r by lia; f_equal; lia).
  assert (Hs : 0 < 2 ^ (53 - d)) by (apply Z.pow_pos_nonneg; lia).
  destruct (d - 53 - 0) as [|k|k] eqn:Ek; [|lia|].
  - assert (d = 53) as Hd53 by lia. rewrite Hd53 in *.
    change (2 ^ (53 - 53)) with 1 in *.
    rewrite binary_round_aux_exact by lia.
    exists p, 0. repeat split; lia.
  - change (Pos.iter xO p k) with (shift_pos k p).
    assert (Hk : Zpos k = 53 - d) by lia.
    assert (Hmz : Zpos (shift_pos k p) = Zpos p * 2 ^ (53 - d)).
    { rewrite shift_pos_correct, Z.pow_pos_fold, Hk. ring. }
    rewrite binary_round_aux_exact by (rewrite ?Hmz; nia).
    exists (shift_pos k p), (d - 53). rewrite Pos2Z.id.
    split; [reflexivity|]. split; [rewrite Hmz; nia|]. split; [reflexivity|].
    rewrite Hmz. f_equal. f_equal. lia.
Qed.

Lemma float_of_100 :
  float_of_Z 100 = S754_finite false 7036874417766400 (-46).
Proof. reflexivity. Qed.

(** ** Two decimal places *)

Lemma round_hundredths_within m e x :
  0 < x < 2 ^ 52 ->
  within 53 (S754_finite false m e) x 100 0 -> round_hundredths m e = x.
Proof.
  intros Hx H. unfold round_hundredths. destruct (Z.leb_spec 0 e) as [He|He].
  - apply (within_units 53 m e x 100 0 0) in H; [|lia|lia].
    rewrite Z.sub_0_r, Z.pow_0_r, Z.mul_1_r in H.
    rewrite Z.shiftl_mul_pow2 by lia. lia.
  - apply (within_units 53 m e x 100 0 e) in H; [|lia|lia].
    rewrite Z.sub_diag, Z.pow_0_r, Z.mul_1_r, Z.sub_0_l in H.
    assert (HD : 0 < 2 ^ (- e)) by (apply Z.pow_pos_nonneg; lia).
    set (D := 2 ^ (- e)) in *. cbv zeta.
    set (N := 100 * Zpos m).
    replace (Zpos m * 100) with N in H by (unfold N; ring).
    assert (Hhalf : 2 * Z.abs (N - x * D) < D) by nia.
    pose proof (Z.div_mod N D ltac:(lia)) as Hdiv.
    pose proof (Z.mod_pos_bound N D HD) as Hmod.
    set (q := N / D) in *. set (r := N mod D) in *.
    assert (Hq : q = x \/ q = x - 1) by nia.
    destruct Hq as [Hq|Hq].
    + assert (2 * r < D) by nia.
      destruct (Z.compare_spec (2 * r) D); lia.
    + assert (D < 2 * r) by nia.
      destruct (Z.compare_spec (2 * r) D); lia.
Qed.

Lemma decimal_value_digit k :
  0 <= k < 10 -> decimal_value (Z.to_N (48 + k)) = Some k.
Proof.
  intros Hk.
  assert (k = 0 \/ k = 1 \/ k = 2 \/ k = 3 \/ k = 4 \/ k = 5 \/ k = 6 \/ k = 7
          \/ k = 8 \/ k = 9) as H by lia.
  repeat destruct H as [->|H]; try subst k; reflexivity.
Qed.

Lemma digits_from_app fuel n a1 a2 :
  digits_from fuel n (a1 ++ a2) = digits_from fuel n a1 ++ a2.
Proof.
  revert n a1. induction fuel as [|fuel IH]; intros n a1; cbn [digits_from].
  - reflexivity.
  - destruct (n <? 10); [reflexivity|]. apply (IH _ (_ :: a1)).
Qed.

Lemma digits_from_value fuel n acc :
  0 <= n < 2 ^ Z.of_nat fuel ->
  digits_value 0 (digits_from fuel n acc) = digits_value n acc.
Proof.
  revert n acc. induction fuel as [|fuel IH]; intros n acc Hn.
  - cbn [digits_from]. change (2 ^ Z.of_nat 0) with 1 in Hn.
    now replace n with 0 by lia.
  - cbn [digits_from].
    rewrite Nat2Z.inj_succ, Z.pow_succ_r in Hn by lia.
    pose proof (Z.div_mod n 10 ltac:(lia)) as Hdiv.
    pose proof (Z.mod_pos_bound n 10 ltac:(lia)) as Hmod.
    destruct (Z.ltb_spec n 10) as [Hlt|Hge].
    + cbn [digits_value]. rewrite decimal_value_digit by lia.
      f_equal. rewrite Z.mod_small by lia. lia.
    + rewrite IH.
      * cbn [digits_value]. rewrite decimal_value_digit by lia. f_equal. lia.
      * split; [apply Z.div_pos; lia|].
        apply Z.div_lt_upper_bound; lia.
Qed.

Lemma digits_from_decimal fuel n acc :
  0 <= n -> all_decimal acc -> all_decimal (digits_from fuel n acc).
Proof.
  revert n acc. induction fuel as [|fuel IH]; intros n acc Hn Hacc;
    cbn [digits_from]; [exact Hacc|].
  assert (Hc : is_decimal (Z.to_N (48 + n mod 10)) = true).
  { unfold is_decimal. rewrite decimal_value_digit; [reflexivity|].
    apply Z.mod_pos_bound. lia. }
  destruct (n <? 10); [now constructor|].
  apply IH; [apply Z.div_pos; lia | now constructor].
Qed.

Lemma digits_from_nonempty fuel n acc : acc <> [] -> digits_from fuel n acc <> [].
Proof.
  revert n acc. induction fuel as [|fuel IH]; intros n acc Hacc;
    cbn [digits_from]; [exact Hacc|].
  destruct (n <? 10); [discriminate|]. now apply IH.
Qed.

Lemma digits_of_spec n :
  0 <= n ->
  digits_of n <> [] /\ all_decimal (digits_of n)
  /\ forall rest, digits_value 0 (digits_of n ++ rest) = digits_value n rest.
Proof.
  intros Hn. unfold digits_of. repeat split.
  - cbn [digits_from]. destruct (n <? 10); [discriminate|].
    now apply digits_from_nonempty.
  - apply digits_from_decimal; [exact Hn | constructor].
  - intros rest. rewrite <- digits_from_app. cbn [app].
    apply digits_from_value. split; [exact Hn|].
    destruct (Z.eq_dec n 0) as [->|Hne]; [reflexivity|].
    rewrite Nat2Z.inj_succ, Z2Nat.id by apply Z.log2_nonneg.
    apply Z.log2_spec. lia.
Qed.

(** ** Integers beyond the floats *)

Lemma float_of_Z_large x :
  2 ^ 53 <= x ->
  exists m e,
    float_of_Z x
    = (if e <=? 971 then S754_finite false m e else S754_infinity false)
    /\ Zdigits2 x - 53 <= e.
Proof.
  intros Hx. destruct x as [|p|p]; try lia.
  pose proof (Zdigits2_bounds (Zpos p) ltac:(lia)) as Hb.
  assert (Hd : 54 <= Zdigits2 (Zpos p)).
  { destruct (Z_le_gt_dec 54 (Zdigits2 (Zpos p))) as [|Hgt]; [assumption|].
    assert (2 ^ Zdigits2 (Zpos p) <= 2 ^ 53) by (apply Z.pow_le_mono_r; lia).
    lia. }
  unfold float_of_Z, binary_normalize, binary_round.
  change (Zpos (digits2_pos p)) with (Zdigits2 (Zpos p)).
  set (d := Zdigits2 (Zpos p)) in *.
  assert (fexp prec emax (d + 0) = d - 53) as ->
    by (unfold fexp, SpecFloat.emin, prec, emax; lia).
  unfold shl_align. destruct (d - 53 - 0) as [|k|k] eqn:Ek; try lia.
  destruct (binary_round_aux_cases (Zpos p) 0 loc_Exact (Zpos p) 1)
    as (m & e & Hr & _ & He & _); try (fold d; lia).
  { cbn [located]. lia. }
  exists m, e. split; [exact Hr | fold d in He; lia].
Qed.

Lemma float_of_Z_finite x :
  0 < x < 2 ^ 1023 -> exists m e, float_of_Z x = S754_finite false m e.
Proof.
  intros Hx. destruct (Z_lt_le_dec x (2 ^ 53)) as [Hlt|Hge].
  - destruct (float_of_Z_exact x ltac:(lia)) as (m & e & H & _). eauto.
  - destruct x as [|p|p]; try lia.
    pose proof (Zdigits2_bounds (Zpos p) ltac:(lia)) as Hb.
    assert (Hd : 54 <= Zdigits2 (Zpos p) <= 1023).
    { split.
      - destruct (Z_le_gt_dec 54 (Zdigits2 (Zpos p))) as [|Hgt]; [assumption|].
        assert (2 ^ Zdigits2 (Zpos p) <= 2 ^ 53) by (apply Z.pow_le_mono_r; lia).
        lia.
      - destruct (Z_le_gt_dec (Zdigits2 (Zpos p)) 1023) as [|Hgt]; [assumption|].
        assert (2 ^ 1023 <= 2 ^ (Zdigits2 (Zpos p) - 1))
          by (apply Z.pow_le_mono_r; lia).
        lia. }
    unfold float_of_Z, binary_normalize, binary_round.
    change (Zpos (digits2_pos p)) with (Zdigits2 (Zpos p)).
    set (d := Zdigits2 (Zpos p)) in *.
    assert (fexp prec emax (d + 0) = d - 53) as ->
      by (unfold fexp, SpecFloat.emin, prec, emax; lia).
    unfold shl_align. destruct (d - 53 - 0) as [|k|k] eqn:Ek; try lia.
    destruct (binary_round_aux_located (Zpos p) 0 loc_Exact (Zpos p) 1)
      as (m & e & Hr & _); try (fold d; lia).
    { cbn [located]. lia. }
    eauto.
Qed.

Lemma float_of_Z_overflow x : 2 ^ 1024 <= x -> float_of_Z x = S754_infinity false.
Proof.
  intros Hx.
  destruct (float_of_Z_large x) as (m & e & -> & He).
  { assert (2 ^ 53 <= 2 ^ 1024) by (apply Z.pow_le_mono_r; lia). lia. }
  assert (0 < x) by (pose proof (Z.pow_pos_nonneg 2 1024); lia).
  pose proof (Zdigits2_bounds x ltac:(lia)) as Hb.
  assert (1025 <= Zdigits2 x).
  { destruct (Z_le_gt_dec 1025 (Zdigits2 x)) as [|Hgt]; [assumption|].
    assert (2 ^ Zdigits2 x <= 2 ^ 1024) by (apply Z.pow_le_mono_r; lia).
    lia. }
  assert (e <=? 971 = false) as -> by lia. reflexivity.
Qed.

(** ** Prices as text and back *)

Lemma le0_positive x : 0 < x -> le0 (Int x) = false.
Proof.
  intros Hx. unfold le0, sign_of. now destruct (Z.compare_spec x 0); try lia.
Qed.

(** What [format_price] computes for a positive integer whose float is
    finite. *)
Lemma format_price_finite x m e :
  0 < x -> float_of_Z x = S754_finite false m e ->
  format_price (VNum (Int x))
  = Ok (u "$" ++ format_2f (fdiv (S754_finite false m e) (float_of_Z 100))).
Proof.
  intros Hx Hf. unfold format_price. rewrite (le0_positive x Hx).
  cbn [float_of_value to_float]. unfold float_of_int. rewrite Hf.
  cbn [is_inf mbind result_bind]. unfold truediv.
  cbn [to_float mbind result_bind]. unfold float_of_int. rewrite float_of_100.
  cbn [is_inf is_fzero mbind result_bind]. reflexivity.
Qed.

Lemma price_quotient_within x m e :
  0 < x < 2 ^ 53 -> float_of_Z x = S754_finite false m e ->
  exists mp ep,
    fdiv (S754_finite false m e) (float_of_Z 100) = S754_finite false mp ep
    /\ within 53 (S754_finite false mp ep) x 100 0.
Proof.
  intros Hx Hf.
  destruct (float_of_Z_exact x Hx) as (m' & e' & Hf' & Hm & He & Hval).
  rewrite Hf in Hf'. injection Hf' as <- <-.
  pose proof (Zdigits2_bounds x ltac:(lia)) as Hb.
  assert (Hdx : 1 <= Zdigits2 x <= 53).
  { split; [destruct x; cbn; lia|].
    destruct (Z_le_gt_dec (Zdigits2 x) 53) as [|Hgt]; [assumption|].
    assert (2 ^ 53 <= 2 ^ (Zdigits2 x - 1)) by (apply Z.pow_le_mono_r; lia).
    lia. }
  assert (Hd1 : Zdigits2 (Zpos m) = 53) by (apply Zdigits2_unique; lia).
  rewrite float_of_100.
  destruct (fdiv_within m e 7036874417766400 (-46)) as (mp & ep & Hdiv & _ & _ & Hw).
  { rewrite Hd1. change (Zdigits2 (Zpos 7036874417766400)) with 53. lia. }
  { rewrite Hd1. change (Zdigits2 (Zpos 7036874417766400)) with 53. lia. }
  exists mp, ep. split; [exact Hdiv|].
  apply (within_same 53 _ (Zpos m) (Zpos 7036874417766400) (e - -46) x 100 0 (-53));
    try lia; [|exact Hw].
  rewrite Hval, He.
  replace (Zdigits2 x - 53 - -46 - -53) with ((Zdigits2 x - 53) + 99) by lia.
  replace (- (Zdigits2 x - 53)) with (53 - Zdigits2 x) by lia.
  change (0 - -53) with 53.
  change (Zpos 7036874417766400) with (100 * 2 ^ 46).
  assert (Hpow : 2 ^ (53 - Zdigits2 x) * 2 ^ (Zdigits2 x - 53 + 99) = 2 ^ 99)
    by (rewrite <- Z.pow_add_r by lia; f_equal; lia).
  replace (x * 2 ^ (53 - Zdigits2 x) * 2 ^ (Zdigits2 x - 53 + 99) * 100)
    with (x * (2 ^ (53 - Zdigits2 x) * 2 ^ (Zdigits2 x - 53 + 99)) * 100) by ring.
  rewrite Hpow. change (2 ^ 99) with (2 ^ 53 * 2 ^ 46). ring.
Qed.

Lemma format_2f_within m e x :
  0 < x < 2 ^ 52 ->
  within 53 (S754_finite false m e) x 100 0 ->
  u "$" ++ format_2f (S754_finite false m e) = price_text x.
Proof.
  intros Hx Hw. unfold format_2f, price_text. cbv zeta.
  now rewrite (round_hundredths_within m e x Hx Hw).
Qed.

Lemma format_price_exact x :
  0 < x < 2 ^ 52 -> format_price (VNum (Int x)) = Ok (price_text x).
Proof.
  intros Hx.
  destruct (float_of_Z_exact x ltac:(lia)) as (m & e & Hf & _).
  destruct (price_quotient_within x m e ltac:(lia) Hf) as (mp & ep & Hdiv & Hw).
  rewrite (format_price_finite x m e ltac:(lia) Hf), Hdiv.
  now rewrite (format_2f_within mp ep x Hx Hw).
Qed.

(** The product with 100 of a float that is near [a / b]. *)
Lemma fmul_100_within mP eP a b t :
  0 < b ->
  2 ^ 52 <= Zpos mP < 2 ^ 53 -> -1080 <= eP <= 963 ->
  within 53 (S754_finite false mP eP) a b t ->
  exists mr er,
    fmul (S754_finite false mP eP) (float_of_Z 100) = S754_finite false mr er
    /\ 2 ^ 52 <= Zpos mr < 2 ^ 53
    /\ within 51 (S754_finite false mr er) (100 * a) b t.
Proof.
  intros Hb HmP HeP Hw. rewrite float_of_100.
  assert (Hprod : Zpos (mP * 7036874417766400) = Zpos mP * (100 * 2 ^ 46))
    by (rewrite Pos2Z.inj_mul; reflexivity).
  assert (Hd : Zdigits2 (Zpos (mP * 7036874417766400)) = 105
               \/ Zdigits2 (Zpos (mP * 7036874417766400)) = 106).
  { rewrite Hprod.
    destruct (Z_lt_le_dec (Zpos mP * (100 * 2 ^ 46)) (2 ^ 105)).
    - left. apply Zdigits2_unique; lia.
    - right. apply Zdigits2_unique; lia. }
  destruct (fmul_within mP eP 7036874417766400 (-46))
    as (mr & er & Hmul & Hmr & Her & Hw2); try lia.
  exists mr, er. split; [exact Hmul|]. split; [exact Hmr|].
  set (unit := Z.min (eP + -46) t).
  apply (within_units 53 mP eP a b t unit) in Hw; [|lia|lia].
  apply (within_units 53 mr er _ 1 (eP + -46) unit) in Hw2; [|lia|lia].
  apply (within_units 51 mr er (100 * a) b t unit); [lia | lia |].
  change (Zpos 7036874417766400) with (100 * 2 ^ 46) in Hw2.
  assert (Hpow : 2 ^ 46 * 2 ^ (eP + -46 - unit) = 2 ^ (eP - unit))
    by (rewrite <- Z.pow_add_r by lia; f_equal; lia).
  replace (Zpos mP * (100 * 2 ^ 46) * 2 ^ (eP + -46 - unit))
    with (100 * (Zpos mP * 2 ^ (eP - unit))) in Hw2 by (rewrite <- Hpow; ring).
  rewrite Z.mul_1_r in Hw2.
  set (MP := Zpos mP * 2 ^ (eP - unit)) in *.
  set (A := a * 2 ^ (t - unit)) in *.
  set (R := Zpos mr * 2 ^ (er - unit)) in *.
  replace (100 * a * 2 ^ (t - unit)) with (100 * A) by (unfold A; ring).
  set (E1 := MP * b - A) in *. set (E2 := R - 100 * MP) in *.
  replace (R * b - 100 * A) with (E2 * b + 100 * E1) by (unfold E1, E2; ring).
  assert (H1 : Z.abs (E2 * b) = Z.abs E2 * b)
    by (rewrite Z.abs_mul, (Z.abs_eq b); lia).
  assert (H2 : 2 ^ 53 * (Z.abs E2 * b) <= 100 * (MP * b)).
  { replace (2 ^ 53 * (Z.abs E2 * b)) with (2 ^ 53 * Z.abs E2 * b) by ring.
    replace (100 * (MP * b)) with (100 * MP * b) by ring.
    apply Z.mul_le_mono_nonneg_r; lia. }
  replace (MP * b) with (A + E1) in H2 by (unfold E1; ring).
  change (2 ^ 53) with (4 * 2 ^ 51) in *. lia.
Qed.

(** The amount read from the digits [n] with [k] of them after the point. *)
Lemma amount_within n k :
  0 < n < 2 ^ 53 -> 0 <= k <= 250 ->
  exists r,
    fmul (ratio_float n (10 ^ k)) (float_of_Z 100) = S754_finite false (fst r) (snd r)
    /\ within 51 (S754_finite false (fst r) (snd r)) (100 * n) (10 ^ k) 0.
Proof.
  intros Hn Hk.
  assert (Hten : 0 < 10 ^ k) by (apply Z.pow_pos_nonneg; lia).
  pose proof (Zdigits2_bounds n ltac:(lia)) as Hbn.
  pose proof (Zdigits2_bounds (10 ^ k) Hten) as Hbt.
  assert (Hdn : 1 <= Zdigits2 n <= 53).
  { split; [destruct n; cbn; lia|].
    destruct (Z_le_gt_dec (Zdigits2 n) 53) as [|Hgt]; [assumption|].
    assert (2 ^ 53 <= 2 ^ (Zdigits2 n - 1)) by (apply Z.pow_le_mono_r; lia).
    lia. }
  assert (Hdt : 1 <= Zdigits2 (10 ^ k) <= 1001).
  { split; [destruct (10 ^ k); cbn; lia|].
    destruct (Z_le_gt_dec (Zdigits2 (10 ^ k)) 1001) as [|Hgt]; [assumption|].
    assert (2 ^ 1000 <= 2 ^ (Zdigits2 (10 ^ k) - 1))
      by (apply Z.pow_le_mono_r; lia).
    assert (10 ^ k <= 10 ^ 250) by (apply Z.pow_le_mono_r; lia).
    assert (10 ^ 250 < 2 ^ 1000) by reflexivity.
    lia. }
  destruct n as [|p|p]; try lia. destruct (10 ^ k) as [|q|q] eqn:Eten; try lia.
  unfold ratio_float.
  destruct (fdiv_within p 0 q 0) as (mP & eP & Hdiv & HmP & HeP & Hw); try lia.
  rewrite Hdiv.
  destruct (fmul_100_within mP eP (Zpos p) (Zpos q) (0 - 0))
    as (mr & er & Hmul & _ & Hw'); try lia; [exact Hw|].
  exists (mr, er). split; [exact Hmul | exact Hw'].
Qed.

Lemma price_text_token x :
  price_text x
  = u "$" ++ token_of (digits_of (x / 100)) 46%N
               [Z.to_N (48 + (x mod 100) / 10); Z.to_N (48 + x mod 10)] ++ [].
Proof. unfold price_text, token_of. now rewrite app_nil_r. Qed.

Lemma price_text_amount x :
  0 <= x ->
  exists amount,
    amount_of (digits_of (x / 100))
      [Z.to_N (48 + (x mod 100) / 10); Z.to_N (48 + x mod 10)]
    = Some amount
    /\ extract_price_from_text (price_text x) = Ok amount
    /\ amount = Float (fmul (ratio_float x (10 ^ 2)) (float_of_Z 100)).
Proof.
  intros Hx.
  destruct (digits_of_spec (x / 100) ltac:(apply Z.div_pos; lia))
    as (Hne & Hdec & Hval).
  assert (Hd1 : 0 <= (x mod 100) / 10 < 10).
  { pose proof (Z.mod_pos_bound x 100 ltac:(lia)).
    split; [apply Z.div_pos; lia | apply Z.div_lt_upper_bound; lia]. }
  assert (Hd2 : 0 <= x mod 10 < 10) by (apply Z.mod_pos_bound; lia).
  assert (Hfrac : all_decimal [Z.to_N (48 + (x mod 100) / 10); Z.to_N (48 + x mod 10)]).
  { repeat constructor; unfold is_decimal; now rewrite decimal_value_digit. }
  destruct (extract_price_first_token (u "$") (digits_of (x / 100)) 46%N
              [Z.to_N (48 + (x mod 100) / 10); Z.to_N (48 + x mod 10)] [])
    as (amount & Hamount & Hparse);
    try assumption; try reflexivity; try discriminate.
  { repeat constructor. }
  exists amount. rewrite price_text_token. split; [exact Hamount|].
  split; [exact Hparse|].
  unfold amount_of in Hamount. rewrite Hval in Hamount.
  cbn [digits_value] in Hamount. rewrite !decimal_value_digit in Hamount by lia.
  assert (Hx10 : x mod 10 = (x mod 100) mod 10)
    by (symmetry; apply Z.mod_mod_divide; now exists 10).
  pose proof (Z.div_mod x 100 ltac:(lia)) as Hx100.
  pose proof (Z.div_mod (x mod 100) 10 ltac:(lia)) as Hx1.
  replace (10 * (10 * (x / 100) + x mod 100 / 10) + x mod 10) with x in Hamount by lia.
  now injection Hamount as <-.
Qed.

(** X5: an integer amount of minor units below [2^52] is formatted exactly:
    a dollar sign, the whole units [x div 100] in decimal, a point, and the
    two digits of [x mod 100]. An amount of zero or less is shown as the
    placeholder ["$9.99"]. *)
Theorem format_price_exact_cents (x : Z) :
  x < 2 ^ 52 ->
  format_price (VNum (Int x))
  = Ok (if 0 <? x then price_text x else u "$9.99").
Proof.
  intros Hx. destruct (Z.ltb_spec 0 x) as [Hpos|Hneg].
  - apply format_price_exact. lia.
  - unfold format_price.
    assert (le0 (Int x) = true) as ->; [|reflexivity].
    unfold le0, sign_of. destruct (Z.compare_spec x 0); (reflexivity || lia).
Qed.

Lemma format_price_exact_cents_witness :
  format_price (VNum (Int 123456)) = Ok (u "$1234.56")
  /\ format_price (VNum (Int 0)) = Ok (u "$9.99").
Proof.
  split.
  - apply (format_price_exact_cents 123456). lia.
  - apply (format_price_exact_cents 0). lia.
Defined.

(** X6: formatting an amount of minor units below [2^52] and parsing the text
    back gives a float within [x / 2^51] of the amount [x]. *)
Theorem format_then_parse_price (x : Z) :
  0 < x < 2 ^ 52 ->
  exists s r,
    format_price (VNum (Int x)) = Ok s
    /\ extract_price_from_text s = Ok (Float r)
    /\ within 51 r x 1 0.
Proof.
  intros Hx. exists (price_text x).
  destruct (price_text_amount x ltac:(lia)) as (amount & _ & Hparse & ->).
  destruct (amount_within x 2 ltac:(lia) ltac:(lia)) as ([mr er] & Hr & Hw).
  cbn [fst snd] in Hr, Hw. exists (S754_finite false mr er).
  split; [now apply format_price_exact|]. split; [now rewrite Hparse, Hr|].
  apply (within_same 51 _ (100 * x) (10 ^ 2) 0 x 1 0 0);
    [lia | lia | reflexivity | lia | | exact Hw].
  change (10 ^ 2) with 100. lia.
Qed.

Lemma format_then_parse_price_witness :
  exists s r,
    format_price (VNum (Int 1999)) = Ok s
    /\ extract_price_from_text s = Ok (Float r)
    /\ within 51 r 1999 1 0.
Proof. apply (format_then_parse_price 1999). lia. Defined.

(** X7: the amount that the price parser reads from a number token with
    digits [n] below [2^53], at most 250 of them after the separator, is a
    float within one part in [2^51] of [100 * n / 10^k], [k] being the number
    of digits after the separator. *)
Theorem parsed_amount_accuracy
    (before whole_part : str) (sep : char) (fraction rest : str) (n : Z) :
  no_decimal before ->
  whole_part <> [] -> all_decimal whole_part -> all_decimal fraction ->
  char_eqb sep 46%N || char_eqb sep 44%N = true ->
  starts_with_decimal rest = false ->
  (fraction = [] -> starts_with_fraction rest = false) ->
  digits_value 0 (whole_part ++ fraction) = Some n ->
  0 < n < 2 ^ 53 -> (length fraction <= 250)%nat ->
  exists r,
    extract_price_from_text (before ++ token_of whole_part sep fraction ++ rest)
    = Ok (Float r)
    /\ within 51 r (100 * n) (10 ^ Z.of_nat (length fraction)) 0.
Proof.
  intros Hbefore Hne Hw Hf Hsep Hrest Hfrac Hn Hbound Hlen.
  destruct (extract_price_first_token before whole_part sep fraction rest)
    as (amount & Hamount & Hparse); try assumption.
  assert (Ha : amount
               = Float (fmul (ratio_float n (10 ^ Z.of_nat (length fraction)))
                             (float_of_Z 100)))
    by (unfold amount_of in Hamount; rewrite Hn in Hamount; congruence).
  subst amount.
  destruct (amount_within n (Z.of_nat (length fraction)) Hbound ltac:(lia))
    as ([mr er] & Hr & Hwithin).
  cbn [fst snd] in Hr, Hwithin. exists (S754_finite false mr er).
  split; [now rewrite Hparse, Hr | exact Hwithin].
Qed.

Lemma parsed_amount_accuracy_witness :
  exists r,
    extract_price_from_text (u "₺19,99 TL") = Ok (Float r)
    /\ within 51 r (100 * 1999) (10 ^ 2) 0.
Proof.
  apply (parsed_amount_accuracy (u "₺") (u "19") 44%N (u "99") (u " TL") 1999);
    try reflexivity; try lia; try discriminate;
    repeat constructor.
Defined.

(** X8: [format_price] returns a text for every positive integer below
    [2^1023] and raises [OverflowError], which it does not catch, for every
    integer from [2^1024] on. *)
Theorem format_price_float_range :
  (forall x, 0 < x < 2 ^ 1023 -> exists s, format_price (VNum (Int x)) = Ok s)
  /\ (forall x, 2 ^ 1024 <= x -> format_price (VNum (Int x)) = Raise OverflowError).
Proof.
  split; intros x Hx.
  - destruct (float_of_Z_finite x Hx) as (m & e & Hf).
    rewrite (format_price_finite x m e ltac:(lia) Hf). eauto.
  - assert (0 < x) by (pose proof (Z.pow_pos_nonneg 2 1024); lia).
    unfold format_price. rewrite (le0_positive x) by assumption.
    cbn [float_of_value to_float]. unfold float_of_int.
    now rewrite (float_of_Z_overflow x Hx).
Qed.

Lemma format_price_float_range_witness :
  (exists s, format_price (VNum (Int (10 ^ 300))) = Ok s)
  /\ format_price (VNum (Int (10 ^ 400))) = Raise OverflowError.
Proof.
  destruct format_price_float_range as [Hok Hraise]. split.
  - apply Hok.
    split; [apply Z.pow_pos_nonneg; lia|].
    apply Z.ltb_lt. vm_compute. reflexivity.
  - apply Hraise. apply Z.leb_le. vm_compute. reflexivity.
Defined.

(** * The round trip of a price *)




(** * The progress bar *)

Lemma fmul_comm_finite m1 e1 m2 e2 :
  fmul (S754_finite false m1 e1) (S754_finite false m2 e2)
  = fmul (S754_finite false m2 e2) (S754_finite false m1 e1).
Proof. unfold fmul, SFmul. now rewrite Pos.mul_comm, Z.add_comm. Qed.

(** Truncation of a float that is near a rational of at most 100. *)
Lemma trunc_within_100 m e a b :
  0 < a <= 100 * b -> 0 < b ->
  within 51 (S754_finite false m e) a b 0 ->
  2 ^ 52 <= Zpos m ->
  exists percent,
    trunc (S754_finite false m e) = Ok percent /\ 0 <= percent <= 100.
Proof.
  intros Ha Hb Hw Hm. cbn [trunc].
  destruct (Z.leb_spec 0 e) as [He|He].
  - apply (within_units 51 m e a b 0 0) in Hw; [|lia|lia].
    rewrite Z.sub_0_r, Z.pow_0_r, Z.mul_1_r in Hw.
    assert (1 <= 2 ^ e) by (pose proof (Z.pow_pos_nonneg 2 e); lia).
    assert (Zpos m * 1 <= Zpos m * 2 ^ e) by (apply Z.mul_le_mono_nonneg_l; lia).
    assert (2 ^ 52 * b <= Zpos m * 2 ^ e * b)
      by (apply Z.mul_le_mono_nonneg_r; lia).
    change (2 ^ 52) with 4503599627370496 in *.
    change (2 ^ 51) with 2251799813685248 in *. lia.
  - apply (within_units 51 m e a b 0 e) in Hw; [|lia|lia].
    rewrite Z.sub_diag, Z.pow_0_r, Z.mul_1_r, Z.sub_0_l in Hw.
    assert (HD : 0 < 2 ^ (- e)) by (apply Z.pow_pos_nonneg; lia).
    set (D := 2 ^ (- e)) in *.
    exists (Z.shiftr (Zpos m) (- e)). split; [reflexivity|].
    rewrite Z.shiftr_div_pow2 by lia. fold D.
    split; [apply Z.div_pos; lia|].
    assert (Hle : a * D <= 100 * b * D) by (apply Z.mul_le_mono_nonneg_r; lia).
    assert (Hlt : Zpos m * b < 101 * D * b).
    { change (2 ^ 51) with 2251799813685248 in Hw.
      assert (0 < b * D) by nia. nia. }
    assert (Zpos m < 101 * D) by nia.
    assert (Zpos m / D < 101) by (apply Z.div_lt_upper_bound; lia). lia.
Qed.

Lemma progress_percent_bounds current total :
  1 <= current <= total -> total < 2 ^ 53 ->
  exists percent,
    progress_percent current total = Ok percent /\ 0 <= percent <= 100.
Proof.
  intros Hc Ht. unfold progress_percent, float_of_int.
  destruct (float_of_Z_exact total ltac:(lia)) as (mt & et & Hft & Hmt & Het & Hvt).
  destruct (float_of_Z_exact current ltac:(lia)) as (mc & ec & Hfc & Hmc & Hec & Hvc).
  rewrite Hft. cbn [is_inf mbind result_bind]. unfold truediv.
  cbn [to_float]. unfold float_of_int. rewrite Hfc.
  cbn [is_inf is_fzero mbind result_bind].
  assert (Hdc : Zdigits2 (Zpos mc) = 53) by (apply Zdigits2_unique; lia).
  assert (Hdt : Zdigits2 (Zpos mt) = 53) by (apply Zdigits2_unique; lia).
  pose proof (Zdigits2_bounds current ltac:(lia)) as Hbc.
  pose proof (Zdigits2_bounds total ltac:(lia)) as Hbt.
  assert (Hrange : 1 <= Zdigits2 current <= 53 /\ 1 <= Zdigits2 total <= 53).
  { repeat split.
    - destruct current; cbn; lia.
    - destruct (Z_le_gt_dec (Zdigits2 current) 53) as [|Hgt]; [assumption|].
      assert (2 ^ 53 <= 2 ^ (Zdigits2 current - 1)) by (apply Z.pow_le_mono_r; lia).
      lia.
    - destruct total; cbn; lia.
    - destruct (Z_le_gt_dec (Zdigits2 total) 53) as [|Hgt]; [assumption|].
      assert (2 ^ 53 <= 2 ^ (Zdigits2 total - 1)) by (apply Z.pow_le_mono_r; lia).
      lia. }
  destruct (fdiv_within mc ec mt et) as (ms & es & Hdiv & Hms & Hes & Hw);
    [rewrite Hdc, Hdt; lia | rewrite Hdc, Hdt; lia |].
  rewrite Hdiv. unfold mul. cbn [to_float]. unfold float_of_int.
  rewrite float_of_100. cbn [is_inf mbind result_bind].
  rewrite fmul_comm_finite, <- float_of_100.
  rewrite Hdc, Hdt in Hes.
  assert (Hshare : within 53 (S754_finite false ms es) current total 0).
  { apply (within_same 53 _ (Zpos mc) (Zpos mt) (ec - et) current total 0 (-53));
      try lia; [|exact Hw].
    rewrite Hvc, Hvt, Hec, Het.
    replace (Zdigits2 current - 53 - (Zdigits2 total - 53) - -53)
      with (Zdigits2 current + (53 - Zdigits2 total)) by lia.
    replace (- (Zdigits2 current - 53)) with (53 - Zdigits2 current) by lia.
    replace (- (Zdigits2 total - 53)) with (53 - Zdigits2 total) by lia.
    change (0 - -53) with 53.
    rewrite Z.pow_add_r by lia.
    assert (Hp : 2 ^ (53 - Zdigits2 current) * 2 ^ Zdigits2 current = 2 ^ 53)
      by (rewrite <- Z.pow_add_r by lia; f_equal; lia).
    replace (current * 2 ^ (53 - Zdigits2 current)
             * (2 ^ Zdigits2 current * 2 ^ (53 - Zdigits2 total)) * total)
      with (current * (2 ^ (53 - Zdigits2 current) * 2 ^ Zdigits2 current)
            * 2 ^ (53 - Zdigits2 total) * total) by ring.
    rewrite Hp. ring. }
  destruct (fmul_100_within ms es current total 0)
    as (mr & er & Hmul & Hmr & Hw'); try lia; [exact Hshare|].
  rewrite Hmul. cbn [int_of_num].
  apply (trunc_within_100 mr er (100 * current) total); try lia. exact Hw'.
Qed.

Lemma fdiv_self m e :
  2 ^ 52 <= Zpos m < 2 ^ 53 ->
  fdiv (S754_finite false m e) (S754_finite false m e)
  = S754_finite false 4503599627370496 (-52).
Proof.
  intros Hm. assert (Hd : Zdigits2 (Zpos m) = 53) by (apply Zdigits2_unique; lia).
  unfold fdiv, SFdiv. cbn [xorb]. unfold SFdiv_core_binary. rewrite Hd.
  replace (53 + e - (53 + e)) with 0 by lia. rewrite Z.sub_diag.
  change (Z.min (fexp prec emax 0) 0) with (-53). change (0 - -53) with 53.
  cbv iota. rewrite Z.shiftl_mul_pow2 by lia.
  assert (Z.div_eucl (Zpos m * 2 ^ 53) (Zpos m) = (2 ^ 53, 0)) as ->.
  { pose proof (Z.div_mul (2 ^ 53) (Zpos m) ltac:(lia)) as Hq.
    pose proof (Z.mod_mul (2 ^ 53) (Zpos m) ltac:(lia)) as Hr.
    rewrite (Z.mul_comm (2 ^ 53)) in Hq, Hr. unfold Z.div, Z.modulo in Hq, Hr.
    destruct (Z.div_eucl (Zpos m * 2 ^ 53) (Zpos m)) as [q r]. now subst. }
  assert (new_location (Zpos m) 0 = loc_Exact) as ->
    by (unfold new_location; destruct (Z.even (Zpos m)); reflexivity).
  reflexivity.
Qed.

Lemma progress_percent_full total :
  1 <= total < 2 ^ 53 -> progress_percent total total = Ok 100.
Proof.
  intros Ht. unfold progress_percent, float_of_int.
  destruct (float_of_Z_exact total ltac:(lia)) as (mt & et & Hft & Hmt & _).
  rewrite Hft. cbn [is_inf mbind result_bind]. unfold truediv.
  cbn [to_float]. unfold float_of_int. rewrite Hft.
  cbn [is_inf is_fzero mbind result_bind].
  rewrite (fdiv_self mt et Hmt). reflexivity.
Qed.

Lemma str_repeat_char c n : str_repeat [c] n = replicate (Z.to_nat n) c.
Proof.
  unfold str_repeat. induction (Z.to_nat n) as [|k IH]; [reflexivity|].
  cbn [replicate concat app]. now rewrite IH.
Qed.

Lemma filled_length_bounds current total length :
  0 <= current <= total -> 0 < total -> 0 <= length ->
  0 <= length * current / total <= length.
Proof.
  intros Hc Ht Hl. split.
  - apply Z.div_pos; [nia | lia].
  - apply Z.div_le_upper_bound; [lia|]. rewrite Z.mul_comm. nia.
Qed.

(** X9: for a position [current] from 1 to [total], a [total] below [2^53]
    and a bar of [length] cells with a one-character fill,
    [print_progress_bar] raises nothing and writes one line of text, followed
    by a newline exactly when [current = total]. The bar in it has exactly
    [length] cells, the first [length * current // total] of them filled;
    the percentage lies between 0 and 100, and at [current = total] the bar
    is full and the percentage is 100. *)
Theorem progress_bar_cells
    (current total length : Z) (prefix suffix : str) (c : char) :
  1 <= current <= total -> total < 2 ^ 53 -> 0 <= length ->
  exists percent filled_length,
    print_progress_bar current total prefix suffix length [c]
    = Ok (([13%N] ++ prefix ++ u " |" ++ progress_bar [c] filled_length length
             ++ u "| " ++ str_of_int percent ++ u "% " ++ suffix)
          :: (if current =? total then [[10%N]] else []))
    /\ 0 <= percent <= 100
    /\ filled_length = length * current / total
    /\ progress_bar [c] filled_length length
       = replicate (Z.to_nat filled_length) c
           ++ replicate (Z.to_nat (length - filled_length)) 45%N
    /\ 0 <= filled_length <= length
    /\ (current = total -> percent = 100 /\ filled_length = length).
Proof.
  intros Hc Ht Hl.
  destruct (progress_percent_bounds current total Hc Ht) as (percent & Hp & Hpb).
  exists percent, (length * current / total).
  unfold print_progress_bar. rewrite Hp. cbn [mbind result_bind].
  unfold floordiv. assert (total =? 0 = false) as -> by lia.
  cbn [mbind result_bind].
  split; [reflexivity|]. split; [exact Hpb|]. split; [reflexivity|].
  split; [unfold progress_bar; change (u "-") with [45%N];
          now rewrite !str_repeat_char|].
  split; [apply filled_length_bounds; lia|].
  intros ->. rewrite progress_percent_full in Hp by lia.
  split; [congruence|]. apply Z.div_mul. lia.
Qed.

Lemma progress_bar_cells_witness :
  exists percent filled_length,
    print_progress_bar 3 5 (u "Progress: Page 3/50") (u "Complete (6% Total)") 50
      (u "█")
    = Ok (([13%N] ++ u "Progress: Page 3/50" ++ u " |"
             ++ progress_bar (u "█") filled_length 50
             ++ u "| " ++ str_of_int percent ++ u "% " ++ u "Complete (6% Total)")
          :: [])
    /\ 0 <= percent <= 100 /\ filled_length = 30.
Proof.
  destruct (progress_bar_cells 3 5 50 (u "Progress: Page 3/50")
              (u "Complete (6% Total)") 9608%N
              ltac:(lia) ltac:(lia) ltac:(lia))
    as (percent & filled_length & Hprint & Hpercent & Hfilled & _).
  exists percent, filled_length. split; [exact Hprint|].
  split; [exact Hpercent | exact Hfilled].
Defined.

(** ** First-seen removal of duplicates *)

Lemma str_eqb_eq (a b : str) : str_eqb a b = true <-> a = b.
Proof.
  revert b. induction a as [|x a IH]; intros [|y b]; simpl; try easy.
  unfold char_eqb. rewrite andb_true_iff, N.eqb_eq, IH. split.
  - now intros [-> ->].
  - now intros [= -> ->].
Qed.

Lemma existsb_str_eqb (s : str) (seen : list str) :
  existsb (str_eqb s) seen = true <-> In s seen.
Proof.
  rewrite existsb_exists. split.
  - now intros (x & Hx & ->%str_eqb_eq).
  - intros H. exists s. split; [assumption | now apply str_eqb_eq].
Qed.

Lemma first_seen_sublist seen items : first_seen seen items `sublist_of` items.
Proof.
  revert seen. induction items as [|x l IH]; intros seen; simpl; [constructor|].
  destruct (item_id x) as [s|]; [|now constructor].
  destruct (existsb _ _); now constructor.
Qed.

(** The identifiers kept are new, set and pairwise distinct. *)
Lemma first_seen_ids seen items :
  exists ids,
    List.map item_id (first_seen seen items) = List.map Some ids
    /\ NoDup ids /\ (forall s, In s ids -> ~ In s seen).
Proof.
  revert seen. induction items as [|x l IH]; intros seen; simpl.
  - exists []. repeat split; [constructor | intros s []].
  - destruct (item_id x) as [s|] eqn:Es; [|apply IH].
    destruct (existsb _ _) eqn:E; [apply IH|].
    destruct (IH (s :: seen)) as (ids & Hids & Hnd & Hnew).
    exists (s :: ids). simpl. rewrite Es, Hids. repeat split.
    + constructor; [|assumption]. rewrite list_elem_of_In.
      intros H%Hnew. apply H. now left.
    + intros s' [<-|H] Hin.
      * apply existsb_str_eqb in Hin. congruence.
      * apply (Hnew _ H). now right.
Qed.

(** A kept item is the first of the gathered items with its identifier. *)
Lemma first_seen_first seen items r :
  In r (first_seen seen items) ->
  exists s before after,
    item_id r = Some s /\ ~ In s seen
    /\ items = before ++ r :: after
    /\ Forall (fun x => item_id x <> Some s) before.
Proof.
  revert seen. induction items as [|x l IH]; intros seen; simpl; [intros []|].
  destruct (item_id x) as [s|] eqn:Es.
  - destruct (existsb _ _) eqn:E.
    + intros (s' & before & after & H1 & H2 & -> & H4)%IH.
      exists s', (x :: before), after. repeat split; try assumption.
      constructor; [|assumption]. rewrite Es. intros [= ->].
      apply H2. now apply existsb_str_eqb.
    + intros [<-|H].
      * exists s, [], l. repeat split; [assumption | | constructor].
        intros Hin%existsb_str_eqb. congruence.
      * apply IH in H as (s' & before & after & H1 & H2 & -> & H4).
        exists s', (x :: before), after. repeat split; try assumption.
        -- intros Hin. apply H2. now right.
        -- constructor; [|assumption]. rewrite Es. intros [= ->].
           apply H2. now left.
  - intros (s' & before & after & H1 & H2 & -> & H4)%IH.
    exists s', (x :: before), after. repeat split; try assumption.
    constructor; [|assumption]. rewrite Es. discriminate.
Qed.

(** Every identifier among the items is kept or was seen before. *)
Lemma first_seen_covers seen items x s :
  In x items -> item_id x = Some s ->
  In s seen \/ exists r, In r (first_seen seen items) /\ item_id r = Some s.
Proof.
  revert seen. induction items as [|y l IH]; intros seen; simpl; [intros []|].
  intros [->|Hx] Hs.
  - rewrite Hs. destruct (existsb _ _) eqn:E.
    + left. now apply existsb_str_eqb.
    + right. exists x. split; [now left | assumption].
  - destruct (item_id y) as [t|] eqn:Et; [|now apply IH].
    destruct (existsb _ _) eqn:E; [now apply IH|].
    destruct (IH (t :: seen) Hx Hs) as [[<-|H]|(r & Hr & Hid)].
    + right. exists y. split; [now left | assumption].
    + now left.
    + right. exists r. split; [now right | assumption].
Qed.

(** ** Records in the controller *)

Lemma emitted_id r :
  emitted r ->
  exists s, s <> [] /\ get "id" r = Ok (VStr s) /\ item_id r = Some s.
Proof.
  intros (app_id & name & d & o & f & -> & Hid & _).
  exists app_id. repeat split; [assumption|].
  destruct app_id; [congruence | reflexivity].
Qed.


Lemma existsb_py_eq_str s (seen : list str) :
  existsb (py_eq (VStr s)) (List.map VStr seen) = existsb (str_eqb s) seen.
Proof. induction seen as [|t l IH]; simpl; [reflexivity | now rewrite IH]. Qed.

(** On records the loop over the items is the first-seen removal. *)
Lemma take_unseen_emitted items (seen : list str) :
  Forall emitted items ->
  exists seen',
    take_unseen items (List.map VStr seen)
    = Ok (first_seen seen items, List.map VStr seen').
Proof.
  intros H. revert seen.
  induction H as [|x l Hx _ IH]; intros seen; [simpl; eauto|].
  destruct (emitted_id _ Hx) as (s & Hs & Hget & Hid).
  assert (Htrue : truthy (VStr s) = true) by (destruct s; [congruence | reflexivity]).
  cbn [take_unseen first_seen]. rewrite Hget, Hid. cbn [mbind result_bind].
  rewrite Htrue. unfold not_in_set. cbn [mbind result_bind].
  rewrite existsb_py_eq_str.
  destruct (existsb (str_eqb s) seen); cbn [negb].
  - apply IH.
  - destruct (IH (s :: seen)) as (seen' & IH'). cbn [List.map] in IH'.
    rewrite IH'. cbn [mbind result_bind]. eauto.
Qed.

Lemma map_result_total {A B} (f : A -> result B) (l : list A) :
  Forall (fun x => exists y, f x = Ok y) l -> exists out, map_result f l = Ok out.
Proof.
  induction 1 as [|x l [y Hy] _ [out IH]]; simpl; [eauto|].
  rewrite Hy, IH. simpl. eauto.
Qed.


Lemma Forall_sublist {A} (P : A -> Prop) (l1 l2 : list A) :
  l1 `sublist_of` l2 -> Forall P l2 -> Forall P l1.
Proof.
  intros Hsub H. rewrite Forall_forall in *. intros x Hx. apply H.
  eapply sublist_subseteq; eassumption.
Qed.


(** ** The progress report *)

Lemma io_bind_pair {A B} (log : list request) (a : A) (f : A -> io B) :
  (log, Ok a) ≫= f = (log ++ fst (f a), snd (f a)).
Proof. simpl. now destruct (f a). Qed.

Lemma io_bind_lift_Ok {A B} (r : result A) (f : A -> io B) log b :
  lift r ≫= f = (log, Ok b) -> exists a, r = Ok a /\ f a = (log, Ok b).
Proof. rewrite io_bind_lift. destruct r as [a|e]; [eauto | discriminate]. Qed.

Lemma str_digits_limit_value : str_digits_limit = 10 ^ 4300.
Proof. reflexivity. Qed.

Lemma format_int_Ok z : Z.abs z < str_digits_limit -> format_int z = Ok (str_of_int z).
Proof.
  intros H. unfold format_int.
  destruct (Z.leb_spec str_digits_limit (Z.abs z)); [lia | reflexivity].
Qed.

Lemma hundred_below_limit : 100 < str_digits_limit.
Proof.
  rewrite str_digits_limit_value. change 100 with (10 ^ 2).
  apply Z.pow_lt_mono_r; lia.
Qed.



Section ControllerFacts.

Variable BeautifulSoup : str -> result (list node).
Variable fetch_game_details : str -> option game_details.
Variable fetch_store_search_page : Z -> option str.
Variable max_pages results_interval : Z.

Let extract :=
  extract_games_from_store_page BeautifulSoup fetch_game_details.
Let results :=
  page_results BeautifulSoup fetch_game_details fetch_store_search_page.
Let crawl_from :=
  crawl BeautifulSoup fetch_game_details fetch_store_search_page.

(** What the specification has left to do from page [p] on. *)
Let remaining (p : Z) : list Z * list pyval :=
  crawl_from (Z.to_nat (max_pages + 1 - p)) p.

Lemma remaining_done p : max_pages < p -> remaining p = ([], []).
Proof.
  intros H. unfold remaining. now replace (Z.to_nat (max_pages + 1 - p)) with O by lia.
Qed.

Lemma remaining_step p :
  p <= max_pages ->
  remaining p
  = match results p with
    | [] => ([p], [])
    | items => (p :: fst (remaining (p + 1)), items ++ snd (remaining (p + 1)))
    end.
Proof.
  intros H. unfold remaining.
  replace (Z.to_nat (max_pages + 1 - p))
    with (S (Z.to_nat (max_pages + 1 - (p + 1)))) by lia.
  simpl. fold results. destruct (results p); [reflexivity|].
  now destruct (crawl_from _ _).
Qed.

Lemma results_emitted p : Forall emitted (results p).
Proof.
  unfold results, page_results.
  destruct (extract_games_spec BeautifulSoup fetch_game_details
              (fetch_store_search_page p))
    as [(log & rs & -> & H & _) | (html & e & _ & _ & ->)]; [exact H | constructor].
Qed.


Lemma search_pages_cons p l :
  search_pages (SearchPage p :: l) = p :: search_pages l.
Proof. reflexivity. Qed.

(** A page that cannot be fetched has no items. *)
Lemma results_unfetched p : nonempty (fetch_store_search_page p) = false -> results p = [].
Proof.
  unfold results, page_results.
  now destruct (fetch_store_search_page p) as [[|c s]|].
Qed.

(** A batch that comes to its end has done what the specification does from
    its first page to the page that it stops at. *)
Lemma fetch_batch_spec n i p items log p' items' :
  fetch_batch BeautifulSoup fetch_game_details fetch_store_search_page
    max_pages results_interval n i p items = (log, Ok (p', items')) ->
  search_pages log ++ fst (remaining p') = fst (remaining p)
  /\ items' ++ snd (remaining p') = items ++ snd (remaining p)
  /\ (Forall emitted items -> Forall emitted items')
  /\ p <= p'
  /\ (n <> O -> p <= max_pages -> p < p').
Proof.
  revert i p items log. induction n as [|n IH]; intros i p items log.
  - cbn [fetch_batch]. intros [= <- <- <-]. repeat split; auto; try lia; congruence.
  - cbn [fetch_batch]. destruct (max_pages <? p) eqn:Hp.
    + apply Z.ltb_lt in Hp. intros [= <- <- <-]. repeat split; auto; lia.
    + apply Z.ltb_ge in Hp. intros (_ & _ & H)%io_bind_lift_Ok.
      unfold call_fetch_store_search_page in H.
      rewrite io_bind_pair in H. cbv beta in H.
      rewrite (remaining_step p Hp).
      destruct (nonempty (fetch_store_search_page p)) eqn:Hne; cbn [negb] in H.
      * destruct (extract_games_spec BeautifulSoup fetch_game_details
                    (fetch_store_search_page p))
          as [(l & rs & Hex & Hrs & Hl) | (html & e & _ & _ & Hex)];
          rewrite Hex in H; [|cbn in H; now injection H].
        assert (Hres : results p = rs)
          by (unfold results, page_results; now rewrite Hex).
        rewrite Hres. rewrite io_bind_pair in H. cbv beta in H.
        destruct rs as [|r rs].
        -- destruct (format_int p) as [t|e]; [|cbn in H; now injection H].
           cbn in H. injection H as <- <- <-.
           rewrite remaining_done by lia.
           repeat split; auto; try lia.
           rewrite search_pages_cons, search_pages_app, Hl. reflexivity.
        -- destruct (fetch_batch _ _ _ _ _ n (i + 1) (p + 1) (items ++ r :: rs))
             as [lb rb] eqn:Eb.
           cbn [fst snd] in H. injection H as <- ->.
           destruct (IH _ _ _ _ Eb) as (H1 & H2 & H3 & H4 & H5).
           repeat split; try lia.
           ++ rewrite search_pages_cons, search_pages_app, Hl. cbn [fst app].
              now rewrite <- H1.
           ++ cbn [snd]. rewrite H2. now rewrite <- app_assoc.
           ++ intros Hitems. apply H3, Forall_app. auto.
      * rewrite (results_unfetched p Hne).
        destruct (format_int p) as [t|e]; [|cbn in H; now injection H].
        cbn in H. injection H as <- <- <-.
        rewrite remaining_done by lia. repeat split; auto; lia.
Qed.



(** The state after some rounds of the loop: the pages fetched so far and
    the items gathered so far, followed by what the specification still has
    to do, make up the whole run. *)
Let inv (fetched : list Z) (st : state) : Prop :=
  fetched ++ fst (remaining (page st)) = fst (remaining 1)
  /\ all_items st ++ snd (remaining (page st)) = snd (remaining 1)
  /\ Forall emitted (all_items st)
  /\ unique_items st = first_seen [] (all_items st)
  /\ (exists ids, displayed_ids st = List.map VStr ids)
  /\ 1 <= page st.

Lemma inv_initial : inv [] (mk_state 1 [] [] []).
Proof.
  unfold inv. cbn [page all_items unique_items displayed_ids].
  repeat split; try constructor; try lia. now exists [].
Qed.

(** A round of the loop that comes to its end keeps the invariant. The round
    is the heading, the batch, the removal of duplicates and the reports. *)
Lemma run_batch_spec st fetched log st' :
  inv fetched st ->
  run_batch BeautifulSoup fetch_game_details fetch_store_search_page
    max_pages results_interval st = (log, Ok st') ->
  inv (fetched ++ search_pages log) st'
  /\ page st <= page st'
  /\ (1 <= results_interval -> page st <= max_pages -> page st < page st').
Proof.
  intros (H1 & H2 & H3 & H4 & (ids & H5) & H6). unfold run_batch. cbv zeta.
  intros (_ & _ & H)%io_bind_lift_Ok. apply io_bind_lift_Ok in H as (_ & _ & H).
  apply io_bind_Ok in H as (lb & [p' items'] & l2 & Hb & H & ->).
  apply fetch_batch_spec in Hb as (F1 & F2 & F3 & F4 & F5).
  specialize (F3 H3).
  destruct (take_unseen_emitted items' [] F3) as (seen' & Hu). cbn in Hu.
  rewrite Hu, io_bind_lift in H. cbv beta iota in H.
  assert (Hunique : Forall emitted (first_seen [] items')).
  { eapply Forall_sublist; [apply first_seen_sublist | exact F3]. }
  destruct (take_unseen_emitted (first_seen [] items') ids Hunique) as (ids' & Hn).
  rewrite H5, Hn, io_bind_lift in H. cbv beta iota in H.
  apply io_bind_lift_Ok in H as (_ & _ & H).
  cbn in H. injection H as <- <-.
  unfold inv. cbn [unique_items page all_items displayed_ids].
  rewrite app_nil_r. repeat split; auto; try lia.
  - rewrite <- app_assoc, F1. exact H1.
  - rewrite F2. exact H2.
  - now exists ids'.
Qed.

Lemma inv_renders fetched st :
  inv fetched st ->
  Forall (fun x => render_item x = Ok tt) (snd (remaining 1)) ->
  Forall (fun x => render_item x = Ok tt) (all_items st).
Proof.
  intros (_ & H & _) Hr. rewrite <- H in Hr. now apply Forall_app in Hr.
Qed.


Lemma while_pages_spec fuel st fetched log st' :
  inv fetched st ->
  while_pages BeautifulSoup fetch_game_details fetch_store_search_page
    max_pages results_interval fuel st = (log, Ok (Some st')) ->
  inv (fetched ++ search_pages log) st' /\ max_pages < page st'.
Proof.
  revert st fetched log. induction fuel as [|fuel IH]; intros st fetched log Hinv;
    cbn [while_pages]; [discriminate|].
  destruct (page st <=? max_pages) eqn:Hp.
  - intros (l1 & st1 & l2 & Hrun & Hrest & ->)%io_bind_Ok.
    destruct (run_batch_spec st fetched l1 st1 Hinv Hrun) as (Hinv1 & _).
    destruct (IH _ _ _ Hinv1 Hrest) as [Hinv2 Hdone].
    split; [|exact Hdone]. now rewrite search_pages_app, app_assoc.
  - apply Z.leb_gt in Hp. intros [= <- <-]. cbn. rewrite app_nil_r. auto.
Qed.


End ControllerFacts.

(** ** The run as the specification words it *)

Section CrawlFacts.

Variable BeautifulSoup : str -> result (list node).
Variable fetch_game_details : str -> option game_details.
Variable fetch_store_search_page : Z -> option str.

Let results :=
  page_results BeautifulSoup fetch_game_details fetch_store_search_page.
Let crawl_from :=
  crawl BeautifulSoup fetch_game_details fetch_store_search_page.



End CrawlFacts.


(** ** Claims on the batch controller *)

Lemma get_all_discounted_games_Some
    BeautifulSoup fetch_game_details fetch_store_search_page
    max_pages results_interval fuel log results :
  get_all_discounted_games BeautifulSoup fetch_game_details
    fetch_store_search_page max_pages results_interval fuel
  = (log, Ok (Some results)) ->
  exists st,
    while_pages BeautifulSoup fetch_game_details fetch_store_search_page
      max_pages results_interval fuel (mk_state 1 [] [] []) = (log, Ok (Some st))
    /\ results = unique_items st.
Proof.
  unfold get_all_discounted_games.
  destruct (while_pages _ _ _ _ _ _ _) as [l [[st|]|e]]; cbn; try discriminate.
  rewrite app_nil_r. intros [= <- <-]. eauto.
Qed.

Lemma run_end
    BeautifulSoup fetch_game_details fetch_store_search_page
    max_pages results_interval fuel log st :
  while_pages BeautifulSoup fetch_game_details fetch_store_search_page
    max_pages results_interval fuel (mk_state 1 [] [] []) = (log, Ok (Some st)) ->
  search_pages log
  = fetched_pages BeautifulSoup fetch_game_details fetch_store_search_page max_pages
  /\ all_items st
     = gathered_items BeautifulSoup fetch_game_details fetch_store_search_page
         max_pages
  /\ Forall emitted (all_items st)
  /\ unique_items st = first_seen [] (all_items st).
Proof.
  intros H.
  destruct (while_pages_spec _ _ _ _ _ _ _ _ _ _ (inv_initial _ _ _ _) H)
    as ((H1 & H2 & H3 & H4 & _) & Hdone).
  rewrite remaining_done in H1, H2 by exact Hdone.
  cbn [fst snd] in H1, H2. rewrite app_nil_r in H1, H2. cbn in H1.
  unfold fetched_pages, gathered_items.
  replace (Z.to_nat max_pages) with (Z.to_nat (max_pages + 1 - 1)) by lia.
  auto.
Qed.

(** C5: the result set is the first-seen removal of duplicates from the items
    gathered in fetch order. Its identifiers are pairwise distinct, each of
    its records is, unchanged, the first gathered item with its identifier,
    and every identifier gathered is in it. *)
Theorem result_set_first_seen_unique
    (BeautifulSoup : str -> result (list node))
    (fetch_game_details : str -> option game_details)
    (fetch_store_search_page : Z -> option str)
    (max_pages results_interval : Z) (fuel : nat)
    (log : list request) (results : list pyval) :
  get_all_discounted_games BeautifulSoup fetch_game_details
    fetch_store_search_page max_pages results_interval fuel
  = (log, Ok (Some results)) ->
  let gathered :=
    gathered_items BeautifulSoup fetch_game_details fetch_store_search_page
      max_pages in
  results = first_seen [] gathered
  /\ results `sublist_of` gathered
  /\ (exists ids, List.map item_id results = List.map Some ids /\ NoDup ids)
  /\ (forall r, In r results ->
        exists s before after,
          item_id r = Some s
          /\ gathered = before ++ r :: after
          /\ Forall (fun x => item_id x <> Some s) before)
  /\ (forall x, In x gathered ->
        exists r, In r results /\ item_id r = item_id x).
Proof.
  intros (st & Hrun & ->)%get_all_discounted_games_Some gathered.
  destruct (run_end _ _ _ _ _ _ _ _ Hrun) as (_ & Hall & Hemitted & Hunique).
  fold gathered in Hall. rewrite Hunique, Hall in *. clear Hunique Hall.
  repeat split.
  - apply first_seen_sublist.
  - destruct (first_seen_ids [] gathered) as (ids & H1 & H2 & _). eauto.
  - intros r (s & before & after & H1 & _ & H2 & H3)%first_seen_first. eauto 6.
  - intros x Hx.
    assert (exists s, item_id x = Some s) as [s Hs].
    { rewrite Forall_forall in Hemitted.
      destruct (emitted_id x) as (s & _ & _ & Hs); [|eauto].
      apply Hemitted. now apply list_elem_of_In. }
    rewrite Hs.
    destruct (first_seen_covers [] gathered x s Hx Hs) as [[]|H]. exact H.
Qed.

Lemma result_set_first_seen_unique_witness :
  sample_result_set
  = first_seen []
      (gathered_items sample_parser no_details sample_fetch 5)
  /\ exists ids, List.map item_id sample_result_set = List.map Some ids /\ NoDup ids.
Proof.
  assert (E : get_all_discounted_games sample_parser no_details sample_fetch 5 5 6
              = ([SearchPage 1; SearchPage 2; SearchPage 3],
                 Ok (Some sample_result_set)))
    by (vm_compute; reflexivity).
  destruct (result_set_first_seen_unique _ _ _ _ _ _ _ _ E) as (H1 & _ & H3 & _).
  split; assumption.
Defined.




(** * Further properties of the reporter *)

Lemma sort_items_by_discount_spec items sorted :
  sort_items_by_discount items = Ok sorted ->
  keys_descending sorted /\ sorted ≡ₚ List.filter is_valid items.
Proof.
  intros (keyed & Hkeyed & ->)%sort_items_by_discount_Ok.
  apply keyed_items in Hkeyed as [Hsnd Hkeys].
  assert (Hkeys' : Forall (fun a => discount_key (snd a) = Ok (fst a))
                     (sorted_desc keyed)).
  { rewrite Forall_forall in *. intros a Ha. apply Hkeys.
    now rewrite <- (sorted_desc_perm keyed). }
  split.
  - intros i j x y Hij Hi Hj.
    rewrite list_lookup_fmap in Hi, Hj.
    destruct (sorted_desc keyed !! i) as [a|] eqn:Ea; [|discriminate].
    destruct (sorted_desc keyed !! j) as [b|] eqn:Eb; [|discriminate].
    injection Hi as <-. injection Hj as <-.
    rewrite Forall_forall in Hkeys'.
    exists (fst a), (fst b). repeat split.
    + apply Hkeys', list_elem_of_lookup. eauto.
    + apply Hkeys', list_elem_of_lookup. eauto.
    + exact (sorted_desc_descending keyed i j a b Hij Ea Eb).
  - rewrite <- Hsnd. apply fmap_Permutation, sorted_desc_perm.
Qed.

(** What [display_sales] prints when it has something to print. *)
Lemma display_sales_Ok items min_discount max_items show_all shown :
  display_sales items min_discount max_items show_all = Ok shown ->
  exists filtered sorted,
    (if 0 <? min_discount then
       filter_result
         (fun item => k ← discount_key item; Ok (min_discount <=? k)) items
     else Ok items) = Ok filtered
    /\ sort_items_by_discount filtered = Ok sorted
    /\ shown = (if show_all then sorted else slice_to max_items sorted).
Proof.
  unfold display_sales. destruct items as [|x0 l0] eqn:Eitems.
  - intros H. injection H as <-. exists [], [].
    destruct (0 <? min_discount), show_all; repeat split; try reflexivity;
      unfold slice_to; destruct (0 <=? max_items); now rewrite take_nil.
  - rewrite <- Eitems. intros H.
    apply result_bind_Ok in H as (filtered & Hf & H).
    apply result_bind_Ok in H as (sorted & Hs & H).
    apply result_bind_Ok in H as (rendered & _ & H). injection H as <-.
    now exists filtered, sorted.
Qed.

(** X1: without a minimum discount, [display_sales] shows the first
    [max_items] of the sorted valid items: as many as there are, at most
    [max_items], and no item left out has a higher discount than an item
    shown. *)
Theorem display_sales_shows_top (items : list pyval) (min_discount max_items : Z)
    (shown : list pyval) :
  min_discount <= 0 -> 0 <= max_items ->
  display_sales items min_discount max_items false = Ok shown ->
  exists rest,
    sort_items_by_discount items = Ok (shown ++ rest)
    /\ length shown
       = Nat.min (Z.to_nat max_items) (length (List.filter is_valid items))
    /\ (forall x y, In x shown -> In y rest ->
          exists kx ky,
            discount_key x = Ok kx /\ discount_key y = Ok ky /\ ky <= kx).
Proof.
  intros Hmin Hmax (filtered & sorted & Hf & Hs & ->)%display_sales_Ok.
  assert (0 <? min_discount = false) as E by lia. rewrite E in Hf.
  injection Hf as <-.
  destruct (sort_items_by_discount_spec _ _ Hs) as [Hdesc Hperm].
  unfold slice_to. assert (0 <=? max_items = true) as -> by lia.
  exists (drop (Z.to_nat max_items) sorted). rewrite take_drop.
  split; [exact Hs|]. split.
  - now rewrite length_take, Hperm.
  - intros x y Hx%list_elem_of_In Hy%list_elem_of_In.
    apply list_elem_of_lookup in Hx as [i Hi], Hy as [j Hj].
    apply lookup_take_Some in Hi as [Hi Hlt].
    rewrite lookup_drop in Hj.
    apply (Hdesc i (Z.to_nat max_items + j)%nat x y); [lia | exact Hi | exact Hj].
Qed.

Lemma display_sales_shows_top_witness :
  exists rest,
    sort_items_by_discount sample_items
    = Ok ([record (u "2") (u "B") 75 4000 1000;
           record (u "4") (u "D") 75 8000 2000;
           record (u "1") (u "A") 50 2000 1000] ++ rest).
Proof.
  assert (H : display_sales sample_items 0 3 false
              = Ok [record (u "2") (u "B") 75 4000 1000;
                    record (u "4") (u "D") 75 8000 2000;
                    record (u "1") (u "A") 50 2000 1000])
    by (vm_compute; reflexivity).
  destruct (display_sales_shows_top sample_items 0 3 _ ltac:(lia) ltac:(lia) H)
    as (rest & Hsort & _).
  exists rest. exact Hsort.
Defined.

Lemma filter_result_Raise {A} (cond : A -> result bool) (l : list A) x :
  In x l -> (exists e, cond x = Raise e) -> exists e, filter_result cond l = Raise e.
Proof.
  intros Hin [e He]. induction l as [|y l IH]; [destruct Hin|].
  cbn [filter_result]. destruct (cond y) as [b|e'] eqn:Ey; [|simpl; eauto].
  destruct Hin as [->|Hin]; [congruence|].
  destruct (IH Hin) as [e'' ->]. simpl. eauto.
Qed.

(** X2: with a positive minimum discount every item that [display_sales]
    shows has a discount of at least that minimum, and an entry that is not a
    dictionary, [None] included, makes the call raise. *)
Theorem display_sales_min_discount (items : list pyval) (min_discount max_items : Z)
    (show_all : bool) :
  0 < min_discount ->
  (forall shown,
     display_sales items min_discount max_items show_all = Ok shown ->
     Forall (fun x => exists k, discount_key x = Ok k /\ min_discount <= k) shown)
  /\ (forall x, In x items -> (forall d, x <> VDict d) ->
        exists e, display_sales items min_discount max_items show_all = Raise e).
Proof.
  intros Hmin. assert (0 <? min_discount = true) as E by lia. split.
  - intros shown (filtered & sorted & Hf & Hs & ->)%display_sales_Ok.
    rewrite E in Hf. apply filter_result_Ok in Hf as ->.
    apply Forall_forall. intros x Hx%list_elem_of_In.
    assert (Hx' : In x sorted).
    { destruct show_all; [exact Hx | eapply slice_to_In; eassumption]. }
    destruct (sorted_items_valid _ _ _ Hs Hx') as [Hin _].
    apply filter_In in Hin as [_ Hin].
    destruct (discount_key x) as [k|e]; [|discriminate]. simpl in Hin.
    exists k. split; [reflexivity | lia].
  - intros x Hin Hx. unfold display_sales.
    destruct items as [|x0 l0] eqn:Eitems; [destruct Hin|]. rewrite <- Eitems in *.
    rewrite E.
    destruct (filter_result_Raise
                (fun item => k ← discount_key item; Ok (min_discount <=? k))
                items x Hin) as [e ->]; [|simpl; eauto].
    destruct x as [|n|s|d]; try (now exists AttributeError).
    now destruct (Hx d).
Qed.

Lemma display_sales_min_discount_witness :
  Forall (fun x => exists k, discount_key x = Ok k /\ 60 <= k)
    [record (u "2") (u "B") 75 4000 1000]
  /\ exists e, display_sales sample_items 60 25 false = Raise e.
Proof.
  destruct (display_sales_min_discount sample_items 60 25 false ltac:(lia))
    as [_ Hraise].
  destruct (display_sales_min_discount
              [record (u "1") (u "A") 50 2000 1000;
               record (u "2") (u "B") 75 4000 1000] 60 25 false ltac:(lia))
    as [Hshown _].
  split.
  - apply Hshown. vm_compute. reflexivity.
  - apply (Hraise VNone); [right; left; reflexivity | discriminate].
Defined.

(** * Further properties of the batch controller and the extractor *)

(** X3: with a batch size of zero or less, which the heading of a batch can
    still put into text, the inner loop fetches nothing and the page counter
    never moves, so the [while] loop never ends: however many rounds are
    allowed, the run makes no request and does not return. *)
Theorem empty_batches_never_end
    (BeautifulSoup : str -> result (list node))
    (fetch_game_details : str -> option game_details)
    (fetch_store_search_page : Z -> option str)
    (max_pages results_interval : Z) (fuel : nat) :
  1 <= max_pages -> - 10 ^ 4300 < results_interval <= 0 ->
  get_all_discounted_games BeautifulSoup fetch_game_details
    fetch_store_search_page max_pages results_interval fuel
  = ([], Ok None).
Proof.
  intros Hpages Hinterval. change (10 ^ 4300) with str_digits_limit in Hinterval.
  unfold get_all_discounted_games.
  assert (H : while_pages BeautifulSoup fetch_game_details fetch_store_search_page
                max_pages results_interval fuel (mk_state 1 [] [] [])
              = ([], Ok None)); [|now rewrite H].
  induction fuel as [|fuel IH]; [reflexivity|].
  cbn [while_pages page].
  assert (1 <=? max_pages = true) as -> by lia.
  unfold run_batch. cbn [page all_items displayed_ids]. cbv zeta.
  pose proof hundred_below_limit.
  rewrite io_bind_lift, (format_int_Ok 1) by lia.
  rewrite io_bind_lift, format_int_Ok by lia.
  assert (Z.to_nat results_interval = 0%nat) as -> by lia.
  cbn. now rewrite IH.
Qed.

Lemma empty_batches_never_end_witness :
  get_all_discounted_games sample_parser no_details sample_fetch 5 0 100
  = ([], Ok None).
Proof.
  apply (empty_batches_never_end sample_parser no_details sample_fetch 5 0 100);
    [lia|].
  split; [|lia]. apply Z.opp_neg_pos. apply Z.pow_pos_nonneg; lia.
Defined.

Section RequestFacts.

Variable fetch_game_details : str -> option game_details.

Lemma api_prices_log app_id name d o f :
  fst (api_prices fetch_game_details app_id name d o f) = []
  \/ (fst (api_prices fetch_game_details app_id name d o f) = [AppDetails app_id]
      /\ (50 < d \/ In name notable_games)).
Proof.
  unfold api_prices. destruct (le0 o || le0 f); [|now left].
  destruct (existsb (str_eqb name) notable_games) eqn:En; cbn [orb].
  - right. split.
    + unfold call_fetch_game_details. cbn.
      now destruct (fetch_game_details app_id ≫= gd_price_overview).
    + right. apply existsb_exists in En as (x & Hx & ->%str_eqb_eq). exact Hx.
  - destruct (50 <? d) eqn:Ed; [|now left]. right. split; [|left; lia].
    unfold call_fetch_game_details. cbn.
    now destruct (fetch_game_details app_id ≫= gd_price_overview).
Qed.

Lemma extract_game_requests game :
  fst (extract_game fetch_game_details game) = []
  \/ exists app_id d,
       fst (extract_game fetch_game_details game) = [AppDetails app_id]
       /\ extract_app_id game = Ok (Some app_id)
       /\ extract_discount game discount_selectors 0 = Ok d
       /\ (50 < d
           \/ In (extract_name game name_selectors (u "Unknown Game"))
                notable_games).
Proof.
  unfold extract_game. rewrite io_bind_lift.
  destruct (extract_app_id game) as [app_id|e]; [|now left].
  destruct (nonempty app_id) eqn:Eid; cbn [negb]; [|now left].
  destruct app_id as [app_id|]; [|discriminate].
  change (default [] (Some app_id)) with app_id.
  rewrite io_bind_lift.
  destruct (extract_discount game discount_selectors 0) as [d|e]; [|now left].
  destruct (d <=? 0); [now left|].
  rewrite io_bind_lift.
  destruct (structured_prices _) as [[o f]|e]; [|now left].
  rewrite io_bind_lift.
  destruct (full_text_prices _ d o f) as [[o' f']|e]; [|now left].
  set (name := extract_name game name_selectors (u "Unknown Game")).
  rewrite io_bind_fst.
  destruct (api_prices_Ok fetch_game_details app_id name d o' f')
    as (log & d' & o'' & f'' & Hapi & _).
  assert (Hrest : forall x : Z * num * num,
            fst (let '(dp, op, fp) := x in
                 '(op, fp) ← lift (derive_prices dp op fp);
                 lift (make_record app_id name dp op fp)) = []).
  { intros [[dp op] fp]. rewrite io_bind_lift.
    destruct (derive_prices dp op fp) as [[a b]|e]; reflexivity. }
  destruct (api_prices_log app_id name d o' f') as [Hlog | [Hlog Hwhy]].
  - left. rewrite Hlog, Hapi. cbn [snd app]. exact (Hrest (d', o'', f'')).
  - right. exists app_id, d. repeat split; try assumption.
    rewrite Hlog, Hapi. cbn [snd]. now rewrite (Hrest (d', o'', f'')).
Qed.

(** X4: for one game row the extractor asks the details API at most once, for
    the id it read from the row, and only when the discount read from the row
    is above 50 or the name is one of the three notable games; over a page it
    makes at most one request per row. *)
Theorem detail_requests_at_most_one_per_row :
  (forall game,
     fst (extract_game fetch_game_details game) = []
     \/ exists app_id d,
          fst (extract_game fetch_game_details game) = [AppDetails app_id]
          /\ extract_app_id game = Ok (Some app_id)
          /\ extract_discount game discount_selectors 0 = Ok d
          /\ (50 < d
              \/ In (extract_name game name_selectors (u "Unknown Game"))
                   notable_games))
  /\ (forall game_rows,
        (length (fst (extract_rows fetch_game_details game_rows))
         <= length game_rows)%nat).
Proof.
  split; [exact extract_game_requests|].
  induction game_rows as [|game rest IH]; [cbn; lia|].
  cbn [extract_rows]. rewrite io_bind_fst.
  assert (Hone : (length (fst (try_or (extract_game fetch_game_details game) None))
                  <= 1)%nat).
  { unfold try_or.
    destruct (extract_game_requests game) as [H | (id & d & H & _)];
      destruct (extract_game fetch_game_details game) as [log [r|e]];
      cbn [fst] in *; subst; cbn; lia. }
  rewrite length_app.
  assert (Hrest : forall r : option pyval,
            fst (results ← extract_rows fetch_game_details rest;
                 mret (match r with Some item => item :: results | None => results end))
            = fst (extract_rows fetch_game_details rest)).
  { intros r. rewrite io_bind_fst.
    destruct (extract_rows fetch_game_details rest) as [log [rs|e]];
      cbn; now rewrite app_nil_r. }
  destruct (snd (try_or (extract_game fetch_game_details game) None)) as [r|e].
  - rewrite Hrest. cbn [length]. lia.
  - cbn [length]. lia.
Qed.

End RequestFacts.

(** * The organized results *)

Lemma discount_range_int d :
  discount_range (VNum (Int d))
  = Ok (range_key d).
Proof.
  assert (Hge : forall k, value_ge (VNum (Int d)) k = Ok (k <=? d)).
  { intros k. unfold value_ge, compare_int. cbn [mbind result_bind]. f_equal.
    destruct (Z.compare_spec d k); lia. }
  unfold discount_range, range_key. rewrite !Hge. cbn [mbind result_bind].
  repeat (match goal with |- context [?k <=? d] => destruct (k <=? d) end;
          try reflexivity).
Qed.

Lemma range_of_discount key bounds d game :
  In (key, bounds) range_bounds -> int_discount game = Some d ->
  in_bounds bounds game
  = bool_decide (key = range_key d).
Proof.
  intros Hin Hd. unfold in_bounds, range_key. rewrite Hd.
  unfold range_bounds in Hin. cbn [In] in Hin.
  repeat (destruct Hin as [Hin|Hin]; [injection Hin as <- <-; cbn [fst snd];
    repeat (let E := fresh in
            match goal with
            | |- context [if ?k <=? d then _ else _] =>
                destruct (Z.leb_spec k d) as [E|E]
            end);
    try lia; rewrite ?andb_true_r;
    try (rewrite bool_decide_eq_true_2 by reflexivity);
    try (rewrite bool_decide_eq_false_2 by discriminate);
    lia|]).
  destruct Hin.
Qed.

Lemma organize_by_discount_spec games ranges :
  Forall (fun g => exists d, int_discount g = Some d) games ->
  exists out,
    organize_by_discount games ranges = Ok out
    /\ (forall key, is_Some (ranges !! key) -> is_Some (out !! key))
    /\ (forall key bounds, In (key, bounds) range_bounds ->
          default [] (out !! key)
          = default [] (ranges !! key) ++ List.filter (in_bounds bounds) games).
Proof.
  intros Hgames. revert ranges.
  induction Hgames as [|game games [d Hd] _ IH]; intros ranges.
  - exists ranges. split; [reflexivity|]. split; [auto|].
    intros key bounds _. cbn [List.filter]. now rewrite app_nil_r.
  - cbn [organize_by_discount].
    assert (Hget : get_or "discount_percent" (VNum (Int 0)) game = Ok (VNum (Int d))).
    { unfold int_discount in Hd. destruct game as [| | |m]; try discriminate.
      cbn [get_or]. destruct (m !! "discount_percent") as [[|[z|]| |]|];
        try discriminate. now injection Hd as ->. }
    rewrite Hget. cbn [mbind result_bind]. rewrite discount_range_int.
    cbn [mbind result_bind].
    set (key0 := range_key d).
    destruct (IH (<[key0 := default [] (ranges !! key0) ++ [game]]> ranges))
      as (out & Hout & Hkeys & Hlists).
    exists out. split; [exact Hout|]. split.
    + intros key Hkey. apply Hkeys.
      destruct (decide (key = key0)) as [->|Hne].
      * rewrite lookup_insert_eq. eauto.
      * now rewrite lookup_insert_ne by done.
    + intros key bounds Hin. rewrite (Hlists key bounds Hin).
      cbn [List.filter]. rewrite (range_of_discount key bounds d game Hin Hd).
      destruct (decide (key = key0)) as [->|Hne].
      * rewrite lookup_insert_eq, bool_decide_eq_true_2 by reflexivity.
        cbn [default from_option id]. now rewrite <- app_assoc.
      * rewrite lookup_insert_ne, bool_decide_eq_false_2 by done.
        reflexivity.
Qed.

Lemma discount_ranges_lookup key bounds :
  In (key, bounds) range_bounds -> discount_ranges !! key = Some [].
Proof.
  unfold range_bounds. cbn [In]. intros Hin.
  repeat (destruct Hin as [Hin|Hin]; [injection Hin as <- <-; reflexivity|]).
  destruct Hin.
Qed.

(** X10: [main] files every game under one discount range, in the order
    the games were found: the range ["a-b%"] holds the games whose discount
    is at least [a] and at most [b], except that ["90-100%"] has no upper
    bound and ["1-9%"] no lower bound. The total counts all the games, and
    the top discounts are the first 50 of the sorted games. *)
Theorem games_grouped_by_discount
    (timestamp search_date : str) (games : list pyval) :
  Forall (fun g => exists d, int_discount g = Some d) games ->
  exists data sorted,
    organize timestamp search_date games = Ok data
    /\ od_total_games data = Z.of_nat (List.length games)
    /\ (forall key bounds, In (key, bounds) range_bounds ->
          rd_by_discount (od_results data) !! key
          = Some (List.filter (in_bounds bounds) games))
    /\ sort_items_by_discount games = Ok sorted
    /\ rd_top_discounts (od_results data) = take 50 sorted.
Proof.
  intros Hgames.
  destruct (organize_by_discount_spec games discount_ranges Hgames)
    as (out & Hout & Hkeys & Hlists).
  destruct (sort_items_by_discount_total games) as [sorted Hsorted].
  { eapply Forall_impl; [exact Hgames|]. intros g [d Hd]. right.
    unfold int_discount in Hd. destruct g as [| | |m]; try discriminate.
    exists m. split; [reflexivity|]. right.
    destruct (m !! "discount_percent") as [[|[z|]| |]|]; try discriminate. eauto. }
  unfold organize. rewrite Hout, Hsorted. cbn [mbind result_bind].
  eexists _, sorted. split; [reflexivity|]. cbn [od_total_games od_results
    rd_by_discount rd_top_discounts]. split; [reflexivity|].
  split; [|split; reflexivity].
  intros key bounds Hin.
  pose proof (Hlists key bounds Hin) as Hl.
  rewrite (discount_ranges_lookup key bounds Hin) in Hl.
  cbn [default from_option id app] in Hl.
  destruct (Hkeys key) as [l Hlk].
  { rewrite (discount_ranges_lookup key bounds Hin). eauto. }
  rewrite Hlk in Hl |- *. cbn [default from_option id] in Hl. now rewrite Hl.
Qed.

Lemma games_grouped_by_discount_witness :
  exists data,
    organize (u "20240101_000000") (u "2024-01-01 00:00:00")
      [record (u "1") (u "A") 150 1000 0; record (u "2") (u "B") 95 1000 50;
       record (u "3") (u "C") 50 1000 500]
    = Ok data
    /\ rd_by_discount (od_results data) !! "90-100%"
       = Some [record (u "1") (u "A") 150 1000 0; record (u "2") (u "B") 95 1000 50].
Proof.
  destruct (games_grouped_by_discount (u "20240101_000000")
              (u "2024-01-01 00:00:00")
              [record (u "1") (u "A") 150 1000 0; record (u "2") (u "B") 95 1000 50;
               record (u "3") (u "C") 50 1000 500])
    as (data & sorted & Hdata & _ & Hranges & _).
  { repeat constructor; eexists; reflexivity. }
  exists data. split; [exact Hdata|].
  apply (Hranges "90-100%" (Some 90, None)). left. reflexivity.
Defined.

(** * The text report *)

Lemma filter_result_total {A} (cond : A -> result bool) (p : A -> bool) (l : list A) :
  Forall (fun x => cond x = Ok (p x)) l ->
  filter_result cond l = Ok (List.filter p l).
Proof.
  induction 1 as [|x l Hx _ IH]; [reflexivity|].
  cbn [filter_result List.filter]. rewrite Hx, IH. cbn [mbind result_bind].
  now destruct (p x).
Qed.

Lemma get_discount_int game d :
  int_discount game = Some d ->
  get_or "discount_percent" (VNum (Int 0)) game = Ok (VNum (Int d)).
Proof.
  unfold int_discount. destruct game as [| | |m]; try discriminate.
  cbn [get_or]. destruct (m !! "discount_percent") as [[|[z|]| |]|];
    try discriminate. now intros [= ->].
Qed.

Lemma compare_int_spec d k :
  value_ge (VNum (Int d)) k = Ok (k <=? d)
  /\ value_le (VNum (Int d)) k = Ok (d <=? k)
  /\ value_lt (VNum (Int d)) k = Ok (d <? k).
Proof.
  unfold value_ge, value_le, value_lt, compare_int. cbn [mbind result_bind].
  repeat split; f_equal; destruct (Z.compare_spec d k); lia.
Qed.

(** The comprehension of a range keeps the games within its bounds. *)
Lemma range_games_spec min_discount bounds sorted_games :
  Forall (fun g => exists d, int_discount g = Some d) sorted_games ->
  (min_discount = 0 /\ bounds = (None, Some 39)
   \/ min_discount = 90 /\ bounds = (Some 90, Some 100)
   \/ min_discount <> 0 /\ min_discount <> 90
      /\ bounds = (Some min_discount, Some (min_discount + 9))) ->
  range_games min_discount sorted_games
  = Ok (List.filter (in_bounds bounds) sorted_games).
Proof.
  intros Hgames Hbounds. unfold range_games. cbv zeta.
  destruct Hbounds as [[-> ->] | [[-> ->] | (H0 & H90 & ->)]].
  - cbn [Z.eqb]. apply filter_result_total.
    eapply Forall_impl; [exact Hgames|]. intros g [d Hd].
    rewrite (get_discount_int g d Hd). cbn [mbind result_bind].
    destruct (compare_int_spec d 40) as (_ & _ & ->).
    unfold in_bounds. rewrite Hd. cbn [fst snd andb]. f_equal. lia.
  - change (90 =? 0) with false. change (90 =? 90) with true. cbv iota.
    apply filter_result_total.
    eapply Forall_impl; [exact Hgames|]. intros g [d Hd].
    rewrite (get_discount_int g d Hd). cbn [mbind result_bind].
    destruct (compare_int_spec d 90) as (-> & _ & _). cbn [mbind result_bind].
    destruct (compare_int_spec d 100) as (_ & -> & _).
    unfold in_bounds. rewrite Hd. cbn [fst snd]. now destruct (90 <=? d).
  - assert (min_discount =? 0 = false) as -> by lia.
    assert (min_discount =? 90 = false) as -> by lia.
    apply filter_result_total.
    eapply Forall_impl; [exact Hgames|]. intros g [d Hd].
    rewrite (get_discount_int g d Hd). cbn [mbind result_bind].
    destruct (compare_int_spec d min_discount) as (-> & _ & _).
    cbn [mbind result_bind].
    destruct (compare_int_spec d (min_discount + 9)) as (_ & -> & _).
    unfold in_bounds. rewrite Hd. cbn [fst snd]. now destruct (min_discount <=? d).
Qed.

Lemma game_entry_key i game :
  (exists d, int_discount game = Some d) -> formats game ->
  exists entry,
    game_entry i game = Ok entry /\ entry_key entry = game_key game
    /\ is_Some (game_key game).
Proof.
  intros [d Hd] (original & final & Ho & Hf & Hname & Hdiscount & Hid).
  destruct game as [| | |m]; try discriminate. unfold game_entry.
  cbn [get_or mbind result_bind] in *.
  destruct (format_price (default (VNum (Int 0)) (m !! "original_price")))
    as [o|]; [|discriminate].
  destruct (format_price (default (VNum (Int 0)) (m !! "final_price")))
    as [f|]; [|discriminate].
  cbn [mbind result_bind]. rewrite Hname, Hdiscount. cbn [mbind result_bind].
  assert ((if truthy (default (VStr []) (m !! "id"))
           then format_value (default (VStr []) (m !! "id")) else Ok tt) = Ok tt)
    as -> by (destruct (truthy _); [exact Hid | reflexivity]).
  cbn [mbind result_bind]. eexists. split; [reflexivity|].
  cbn [entry_key game_key]. split; [reflexivity | eauto].
Qed.

Lemma write_games_spec i games file :
  Forall (fun g => exists d, int_discount g = Some d) games ->
  Forall formats games ->
  exists written,
    write_games i games file = (file ++ written, Ok tt)
    /\ omap entry_key written = omap game_key games
    /\ List.length written = List.length games.
Proof.
  intros Hint Hfmt. revert i file.
  induction games as [|game games IH]; intros i file.
  - exists []. now rewrite app_nil_r.
  - apply Forall_cons in Hint as [Hg Hint]. apply Forall_cons in Hfmt as [Hf Hfmt].
    destruct (game_entry_key i game Hg Hf) as (entry & Hentry & Hkey & [k Hk]).
    destruct (IH Hint Hfmt (i + 1) (file ++ [entry])) as (written & Hw & Hkeys & Hlen).
    exists (entry :: written). cbn [write_games]. rewrite Hentry, Hw.
    split; [now rewrite <- app_assoc|].
    cbn [omap list_omap List.length]. rewrite Hkey, Hk in *.
    split; [now f_equal | now f_equal].
Qed.

Lemma write_ranges_spec ranges bounds sorted_games file :
  Forall (fun g => exists d, int_discount g = Some d) sorted_games ->
  Forall formats sorted_games ->
  Forall2 (fun (r : string * Z) (b : string * (option Z * option Z)) =>
             range_games (snd r) sorted_games
             = Ok (List.filter (in_bounds (snd b)) sorted_games)) ranges bounds ->
  exists written,
    write_ranges ranges sorted_games file = (file ++ written, Ok tt)
    /\ omap entry_key written
       = omap game_key
           (flat_map (fun b => List.filter (in_bounds (snd b)) sorted_games) bounds).
Proof.
  intros Hint Hfmt Hranges. revert file.
  induction Hranges as [|[title min_discount] b ranges bounds Hr _ IH]; intros file.
  - exists []. now rewrite app_nil_r.
  - cbn [write_ranges flat_map]. cbn [snd] in Hr. rewrite Hr.
    assert (Hint' : Forall (fun g => exists d, int_discount g = Some d)
                      (List.filter (in_bounds (snd b)) sorted_games)).
    { apply Forall_forall. intros g Hg%list_elem_of_In%filter_In.
      rewrite Forall_forall in Hint. apply Hint, list_elem_of_In, Hg. }
    assert (Hfmt' : Forall formats (List.filter (in_bounds (snd b)) sorted_games)).
    { apply Forall_forall. intros g Hg%list_elem_of_In%filter_In.
      rewrite Forall_forall in Hfmt. apply Hfmt, list_elem_of_In, Hg. }
    destruct (List.filter (in_bounds (snd b)) sorted_games) as [|g rest].
    + destruct (IH file) as (written & Hw & Hkeys). exists written.
      split; [exact Hw | exact Hkeys].
    + cbv zeta. set (games := g :: rest) in *.
      destruct (write_games_spec 1 games
                  (file ++ [RangeHeading title (Z.of_nat (List.length games))])
                  Hint' Hfmt') as (entries & Hentries & Hkeys & _).
      rewrite Hentries.
      destruct (IH ((file ++ [RangeHeading title (Z.of_nat (List.length games))])
                      ++ entries)) as (written & Hw & Hkeys').
      exists ([RangeHeading title (Z.of_nat (List.length games))] ++ entries ++ written).
      split; [rewrite Hw; now rewrite <- !app_assoc|].
      rewrite !omap_app, Hkeys, Hkeys'. reflexivity.
Qed.

Lemma report_ranges_bounds sorted_games :
  Forall (fun g => exists d, int_discount g = Some d) sorted_games ->
  Forall2 (fun (r : string * Z) (b : string * (option Z * option Z)) =>
             range_games (snd r) sorted_games
             = Ok (List.filter (in_bounds (snd b)) sorted_games))
    report_ranges report_bounds.
Proof.
  intros Hint. unfold report_ranges, report_bounds.
  repeat (constructor;
          [cbn [snd]; apply range_games_spec; [exact Hint|];
           first [left; split; reflexivity
                 | right; left; split; reflexivity
                 | right; right; repeat split; [lia | lia]]|]).
  constructor.
Qed.

Lemma listed_iff game d sorted_games :
  In game sorted_games -> int_discount game = Some d ->
  In game (flat_map (fun b => List.filter (in_bounds (snd b)) sorted_games)
             report_bounds)
  <-> d <= 100.
Proof.
  intros Hin Hd. rewrite in_flat_map. split.
  - intros ([title b] & Hb & Hg). apply filter_In in Hg as [_ Hg].
    unfold in_bounds in Hg. rewrite Hd in Hg. cbn [snd] in Hg.
    unfold report_bounds in Hb. cbn [In] in Hb.
    repeat (destruct Hb as [Hb|Hb]; [injection Hb as <- <-; cbn [fst snd] in Hg; lia|]).
    destruct Hb.
  - intros Hle.
    assert (Hcase : d <= 39 \/ 40 <= d <= 49 \/ 50 <= d <= 59 \/ 60 <= d <= 69
                    \/ 70 <= d <= 79 \/ 80 <= d <= 89 \/ 90 <= d <= 100) by lia.
    assert (Hfilter : forall b,
              in_bounds b game = true ->
              In game (List.filter (in_bounds b) sorted_games))
      by (intros b Hb; apply filter_In; auto).
    unfold report_bounds.
    destruct Hcase as [H|[H|[H|[H|[H|[H|H]]]]]];
      [exists ("DİĞER İNDİRİMLER (<%40)", (None, Some 39))
      |exists ("KÜÇÜK İNDİRİMLER (%40 - %49)", (Some 40, Some 49))
      |exists ("ORTA İNDİRİMLER (%50 - %59)", (Some 50, Some 59))
      |exists ("MAKUL İNDİRİMLER (%60 - %69)", (Some 60, Some 69))
      |exists ("İYİ İNDİRİMLER (%70 - %79)", (Some 70, Some 79))
      |exists ("BÜYÜK İNDİRİMLER (%80 - %89)", (Some 80, Some 89))
      |exists ("İNANILMAZ İNDİRİMLER (%90 - %100)", (Some 90, Some 100))];
      (split; [cbn [In]; tauto|]); apply Hfilter; unfold in_bounds;
      rewrite Hd; cbn [fst snd]; lia.
Qed.

(** X11: when every game has an integer discount, prices that can be
    formatted and a name, a discount and an id that can be put into text,
    [save_sales_to_text_file] returns [True] and writes the
    heading with the number of all sorted games, then range by range from
    the highest the sorted games whose discount lies within the range. A
    game is listed exactly when its discount is at most 100: one with a
    higher discount is counted in the heading and written nowhere. *)
Theorem text_report_lists_up_to_100 (items : organized_data) :
  Forall (fun g => exists d, int_discount g = Some d)
    (rd_all_games (od_results items)) ->
  Forall formats (rd_all_games (od_results items)) ->
  exists file sorted,
    save_sales_to_text_file (Some items) = (Some file, true)
    /\ sort_items_by_discount (rd_all_games (od_results items)) = Ok sorted
    /\ head file
       = Some (Heading (od_search_date items) (Z.of_nat (List.length sorted)))
    /\ omap entry_key file
       = omap game_key
           (flat_map (fun b => List.filter (in_bounds (snd b)) sorted) report_bounds)
    /\ (forall game d,
          In game sorted -> int_discount game = Some d ->
          In game (flat_map (fun b => List.filter (in_bounds (snd b)) sorted)
                     report_bounds)
          <-> d <= 100).
Proof.
  intros Hint Hfmt. set (games := rd_all_games (od_results items)) in *.
  destruct (sort_items_by_discount_total games) as [sorted Hsorted].
  { eapply Forall_impl; [exact Hint|]. intros g [d Hd]. right.
    unfold int_discount in Hd. destruct g as [| | |m]; try discriminate.
    exists m. split; [reflexivity|]. right.
    destruct (m !! "discount_percent") as [[|[z|]| |]|]; try discriminate. eauto. }
  assert (Hsub : forall g, In g sorted -> In g games)
    by (intros g Hg; now apply (sorted_items_valid games sorted g Hsorted)).
  assert (Hint' : Forall (fun g => exists d, int_discount g = Some d) sorted).
  { apply Forall_forall. intros g Hg%list_elem_of_In.
    rewrite Forall_forall in Hint. apply Hint, list_elem_of_In, Hsub, Hg. }
  assert (Hfmt' : Forall formats sorted).
  { apply Forall_forall. intros g Hg%list_elem_of_In.
    rewrite Forall_forall in Hfmt. apply Hfmt, list_elem_of_In, Hsub, Hg. }
  destruct (write_ranges_spec report_ranges report_bounds sorted
              [Heading (od_search_date items) (Z.of_nat (List.length sorted))]
              Hint' Hfmt' (report_ranges_bounds sorted Hint'))
    as (written & Hw & Hkeys).
  eexists _, sorted. unfold save_sales_to_text_file. fold games.
  rewrite Hsorted. cbv zeta. rewrite Hw.
  split; [reflexivity|]. split; [reflexivity|]. split; [reflexivity|].
  split; [exact Hkeys|]. intros game d. apply listed_iff.
Qed.

Lemma text_report_lists_up_to_100_witness :
  exists file,
    fst (save_sales_to_text_file
           (Some (mk_organized_data (u "20240101_000000") 2 (u "2024-01-01 00:00:00")
                    (mk_results_data
                       [record (u "1") (u "A") 150 1000 0;
                        record (u "2") (u "B") 95 1000 50] ∅ []))))
    = Some file
    /\ omap entry_key file = omap game_key [record (u "2") (u "B") 95 1000 50].
Proof.
  destruct (text_report_lists_up_to_100
              (mk_organized_data (u "20240101_000000") 2 (u "2024-01-01 00:00:00")
                 (mk_results_data
                    [record (u "1") (u "A") 150 1000 0;
                     record (u "2") (u "B") 95 1000 50] ∅ [])))
    as (file & sorted & Hsave & Hsorted & _ & Hkeys & _).
  { repeat constructor; eexists; reflexivity. }
  { repeat constructor; eexists; eexists; repeat split; vm_compute; reflexivity. }
  exists file. rewrite Hsave. split; [reflexivity|].
  rewrite Hkeys.
  assert (Hs : sort_items_by_discount
                 [record (u "1") (u "A") 150 1000 0; record (u "2") (u "B") 95 1000 50]
               = Ok [record (u "1") (u "A") 150 1000 0;
                     record (u "2") (u "B") 95 1000 50])
    by (vm_compute; reflexivity).
  cbn [rd_all_games od_results] in Hsorted. rewrite Hs in Hsorted.
  injection Hsorted as <-. vm_compute. reflexivity.
Defined.

(** * Errors of the sort, and the rows behind the records *)

Lemma filter_result_all_Ok {A} (cond : A -> result bool) (l kept : list A) :
  filter_result cond l = Ok kept -> Forall (fun x => exists b, cond x = Ok b) l.
Proof.
  revert kept. induction l as [|x l IH]; intros kept H; [constructor|].
  cbn [filter_result] in H.
  apply result_bind_Ok in H as (b & Hb & H).
  apply result_bind_Ok in H as (rest & Hrest & _).
  constructor; [eauto | eapply IH; eassumption].
Qed.

Lemma filter_result_defined {A} (cond : A -> result bool) (l : list A) :
  Forall (fun x => exists b, cond x = Ok b) l ->
  filter_result cond l
  = Ok (List.filter (fun x => match cond x with Ok b => b | Raise _ => false end) l).
Proof.
  induction 1 as [|x l [b Hb] _ IH]; [reflexivity|].
  cbn [filter_result List.filter]. rewrite Hb, IH. cbn [mbind result_bind].
  now destruct b.
Qed.

(** X12: [sort_items_by_discount] returns a list exactly when the validity
    test raises for no item and [int()] accepts the discount of every valid
    item; in every other case it raises, as for a valid item whose discount
    is a text that is not a number. *)
Theorem sort_items_by_discount_defined (items : list pyval) :
  (exists sorted, sort_items_by_discount items = Ok sorted)
  <-> Forall (fun x => exists b,
                valid_item x = Ok b
                /\ (b = true -> exists k, discount_key x = Ok k)) items.
Proof.
  unfold sort_items_by_discount. split.
  - intros [sorted H].
    apply result_bind_Ok in H as (valid & Hvalid & H).
    apply result_bind_Ok in H as (keyed & Hkeyed & _).
    pose proof (filter_result_all_Ok _ _ _ Hvalid) as Hall.
    apply filter_result_Ok in Hvalid as ->.
    apply map_result_Ok in Hkeyed.
    apply Forall_forall. intros x Hx.
    rewrite Forall_forall in Hall. destruct (Hall x Hx) as [b Hb].
    exists b. split; [exact Hb|]. intros ->.
    assert (Hin : x ∈ List.filter
                    (fun x => match valid_item x with Ok b => b | Raise _ => false end)
                    items).
    { apply list_elem_of_In, filter_In. split; [now apply list_elem_of_In|].
      now rewrite Hb. }
    apply list_elem_of_lookup in Hin as [i Hi].
    destruct (Forall2_lookup_l _ _ _ _ _ Hkeyed Hi) as (y & _ & Hy).
    apply result_bind_Ok in Hy as (k & Hk & _). eauto.
  - intros Hall.
    rewrite filter_result_defined
      by (eapply Forall_impl; [exact Hall|]; intros x (b & Hb & _); eauto).
    cbn [mbind result_bind].
    destruct (map_result_total (fun x => k ← discount_key x; Ok (k, x))
                (List.filter
                   (fun x => match valid_item x with Ok b => b | Raise _ => false end)
                   items)) as [keyed Hkeyed].
    { apply Forall_forall. intros x Hx%list_elem_of_In%filter_In.
      destruct Hx as [Hx Hv]. rewrite Forall_forall in Hall.
      destruct (Hall x ltac:(now apply list_elem_of_In)) as (b & Hb & Hkey).
      rewrite Hb in Hv. destruct (Hkey Hv) as [k Hk].
      exists (k, x). now rewrite Hk. }
    rewrite Hkeyed. cbn [mbind result_bind]. eauto.
Qed.

Lemma sort_items_by_discount_defined_witness :
  (exists sorted,
     sort_items_by_discount
       [VDict {["discount_percent" := VStr (u "75")]}; VNone] = Ok sorted)
  /\ ~ (exists sorted,
          sort_items_by_discount
            [VDict {["discount_percent" := VStr (u "75%")]}] = Ok sorted).
Proof.
  split.
  - apply (sort_items_by_discount_defined
             [VDict {["discount_percent" := VStr (u "75")]}; VNone]).
    repeat constructor.
    + exists true. split; [reflexivity|]. intros _. exists 75. reflexivity.
    + exists false. split; [reflexivity | discriminate].
  - intros H.
    apply (sort_items_by_discount_defined
             [VDict {["discount_percent" := VStr (u "75%")]}]) in H.
    apply Forall_cons in H as [(b & Hb & Hk) _].
    assert (b = true) as -> by (vm_compute in Hb; congruence).
    destruct (Hk eq_refl) as [k Hkey]. vm_compute in Hkey. discriminate.
Defined.

Section RowFacts.

Variable fetch_game_details : str -> option game_details.

(** The record of a row carries the id and the name read from that row. *)
Lemma extract_game_row game log r :
  extract_game fetch_game_details game = (log, Ok (Some r)) ->
  exists app_id d o f,
    extract_app_id game = Ok (Some app_id)
    /\ r = record app_id (extract_name game name_selectors (u "Unknown Game")) d o f.
Proof.
  unfold extract_game. rewrite io_bind_lift.
  destruct (extract_app_id game) as [app_id|]; [|discriminate].
  destruct (nonempty app_id) eqn:Hid; cbn [negb]; [|discriminate].
  destruct app_id as [app_id|]; [|discriminate].
  change (default [] (Some app_id)) with app_id.
  rewrite io_bind_lift.
  destruct (extract_discount _ _ _) as [d|]; [|discriminate].
  destruct (d <=? 0); [discriminate|].
  rewrite io_bind_lift.
  destruct (structured_prices _) as [[o f]|]; [|discriminate].
  rewrite io_bind_lift.
  destruct (full_text_prices _ _ _ _) as [[o1 f1]|]; [|discriminate].
  intros H. apply io_bind_Ok in H as (l1 & [[d2 o2] f2] & l2 & _ & H & _).
  rewrite io_bind_lift in H.
  destruct (derive_prices _ _ _) as [[o3 f3]|]; [|discriminate].
  unfold lift in H. injection H as _ H.
  apply make_record_spec in H as (O & F & -> & _).
  exists app_id, d2, O, F. split; reflexivity.
Qed.

(** X13: the records of a page follow its rows: they come in the order of
    the rows that were kept, and each carries the id and the name that the
    extractor read from its own row. *)
Theorem records_follow_rows (game_rows : list element) :
  exists log results kept,
    extract_rows fetch_game_details game_rows = (log, Ok results)
    /\ kept `sublist_of` game_rows
    /\ Forall2
         (fun game r =>
            exists app_id d o f,
              extract_app_id game = Ok (Some app_id)
              /\ r = record app_id
                       (extract_name game name_selectors (u "Unknown Game")) d o f)
         kept results.
Proof.
  induction game_rows as [|game rest (log & results & kept & Hrest & Hsub & Hall)].
  - exists [], [], []. repeat split; constructor.
  - cbn [extract_rows]. rewrite Hrest.
    destruct (extract_game fetch_game_details game) as [l [[r|]|e]] eqn:Egame;
      cbn [try_or mbind io_bind mret io_ret].
    + exists (l ++ log ++ []), (r :: results), (game :: kept).
      split; [reflexivity|]. split; [now apply sublist_skip|].
      constructor; [|exact Hall]. eapply extract_game_row; eassumption.
    + exists (l ++ log ++ []), results, kept.
      split; [reflexivity|]. split; [now apply sublist_cons | exact Hall].
    + exists (l ++ log ++ []), results, kept.
      split; [reflexivity|]. split; [now apply sublist_cons | exact Hall].
Qed.

End RowFacts.

(** * The discount badge and the id in a link *)

Lemma int_lstrip_no_space s :
  Forall (fun c => int_space c = false) s -> int_lstrip s = s.
Proof.
  intros H. destruct H as [|c s Hc _]; [reflexivity|]. cbn [int_lstrip].
  now rewrite Hc.
Qed.

Lemma int_strip_no_space s :
  Forall (fun c => int_space c = false) s -> int_strip s = s.
Proof.
  intros H. unfold int_strip. rewrite (int_lstrip_no_space s H).
  rewrite int_lstrip_no_space; [apply rev_involutive|].
  now apply List.Forall_rev.
Qed.

Lemma decimal_not_int_space c : is_decimal c = true -> int_space c = false.
Proof. intros H. unfold int_space. now rewrite (decimal_not_space c H). Qed.

Lemma decimal_differs c k :
  is_decimal c = true -> is_decimal k = false -> char_eqb c k = false.
Proof.
  intros Hc Hk. destruct (char_eqb c k) eqn:E; [|reflexivity].
  apply N.eqb_eq in E. subst. congruence.
Qed.

Lemma int_digits_after_decimal ds prev :
  all_decimal ds -> ds <> [] \/ prev = true -> int_digits prev ds = Some ds.
Proof.
  intros Hds. revert prev. induction Hds as [|c ds Hc _ IH]; intros prev Hp.
  - destruct Hp as [Hp| ->]; [congruence | reflexivity].
  - cbn [int_digits]. rewrite Hc. rewrite IH by (right; reflexivity).
    reflexivity.
Qed.

Lemma int_digits_decimal ds :
  all_decimal ds -> ds <> [] -> int_digits false ds = Some ds.
Proof. intros Hds Hne. apply int_digits_after_decimal; [exact Hds | now left]. Qed.

Lemma unsigned_body (c : char) (r : str) :
  c <> 45%N -> c <> 43%N ->
  match c :: r with
  | 45%N :: r' => (true, r')
  | 43%N :: r' => (false, r')
  | _ => (false, c :: r)
  end = (false, c :: r).
Proof.
  intros H45 H43. destruct c as [|p]; [reflexivity|].
  do 7 (try (destruct p as [p|p|]; try reflexivity; try congruence)).
Qed.

(** [int()] of a run of decimal digits is the number they spell. *)
Lemma int_of_str_digits ds n :
  ds <> [] -> all_decimal ds -> (List.length ds <= 4300)%nat ->
  digits_value 0 ds = Some n -> int_of_str ds = Ok n.
Proof.
  intros Hne Hds Hlen Hn. unfold int_of_str.
  rewrite int_strip_no_space
    by (eapply Forall_impl; [exact Hds|]; apply decimal_not_int_space).
  destruct ds as [|c r]; [congruence|].
  rewrite unsigned_body.
  - rewrite (int_digits_decimal (c :: r) Hds Hne).
    assert ((max_str_digits <? List.length (c :: r))%nat = false) as ->
      by (apply Nat.ltb_ge; exact Hlen).
    now rewrite Hn.
  - intros ->. now apply Forall_cons in Hds as [Hc _].
  - intros ->. now apply Forall_cons in Hds as [Hc _].
Qed.

(** X14: a discount badge whose text is a minus sign, decimal digits and a
    percent sign is read as the number that the digits spell. *)
Theorem discount_badge_value (game discount_element : element) (ds : str) (n : Z) :
  select_one [Simple (by_class "discount_pct")] game = Some discount_element ->
  str_strip (text discount_element) = u "-" ++ ds ++ u "%" ->
  ds <> [] -> all_decimal ds -> (List.length ds <= 4300)%nat ->
  digits_value 0 ds = Some n ->
  extract_discount game discount_selectors 0 = Ok n.
Proof.
  intros Hsel Htext Hne Hds Hlen Hn.
  unfold discount_selectors. cbn [extract_discount]. rewrite Hsel. cbv zeta.
  rewrite Htext. change (u "-") with [45%N]. change (u "%") with [37%N].
  cbn [app str_replace]. change (char_eqb 45%N 45%N) with true. cbv iota.
  cbn [app]. rewrite str_replace_app.
  rewrite (str_replace_id 45%N [] ds)
    by (eapply Forall_impl; [exact Hds|]; intros c Hc; now apply decimal_differs).
  cbn [str_replace]. change (char_eqb 37%N 45%N) with false. cbv iota.
  cbn [app]. rewrite str_replace_app.
  rewrite (str_replace_id 37%N [] ds)
    by (eapply Forall_impl; [exact Hds|]; intros c Hc; now apply decimal_differs).
  cbn [str_replace]. change (char_eqb 37%N 37%N) with true. cbv iota.
  rewrite !app_nil_r. now rewrite (int_of_str_digits ds n Hne Hds Hlen Hn).
Qed.

Lemma discount_badge_value_witness :
  extract_discount
    (mk_element
       (mk_tag (u "a") [(u "data-ds-appid", u "100")]
          [with_class "div" "discount_pct" [NavigableString (u " -75% ")]]) [])
    discount_selectors 0
  = Ok 75.
Proof.
  eapply (discount_badge_value _ _ (u "75") 75);
    [vm_compute; reflexivity | vm_compute; reflexivity | discriminate
    | change (u "75") with [55%N; 53%N]; repeat constructor
    | change (u "75") with [55%N; 53%N]; cbn [List.length]; lia | reflexivity].
Defined.

(** ** The id in a link *)

Lemma starts_with_app p a b :
  (List.length p <= List.length a)%nat -> starts_with p (a ++ b) = starts_with p a.
Proof.
  revert a. induction p as [|x p IH]; intros a Hlen; [now destruct a|].
  destruct a as [|y a]; [cbn in Hlen; lia|].
  cbn [app starts_with]. rewrite IH by (cbn in Hlen; lia). reflexivity.
Qed.

Lemma starts_with_self p s : starts_with p (p ++ s) = true.
Proof.
  induction p as [|x p IH]; [reflexivity|]. cbn [app starts_with].
  unfold char_eqb. now rewrite N.eqb_refl, IH.
Qed.

Lemma split_from_skip sep cur gone s :
  split_from sep (List.length gone) cur (gone ++ s) = split_from sep 0 cur s.
Proof.
  induction gone as [|c gone IH]; [reflexivity|]. cbn [app List.length split_from].
  exact IH.
Qed.

Lemma split_from_at_sep x sep' cur s :
  split_from (x :: sep') 0 cur ((x :: sep') ++ s)
  = rev cur :: split_from (x :: sep') 0 [] s.
Proof.
  cbn [app split_from]. change (x :: sep' ++ s) with ((x :: sep') ++ s).
  rewrite starts_with_self. f_equal.
  replace (List.length (x :: sep') - 1)%nat with (List.length sep')
    by (cbn [List.length]; lia).
  apply split_from_skip.
Qed.

(** The text before the first occurrence of the separator is the first
    piece. *)
Lemma split_from_first init last pre cur s :
  str_contains (init ++ [last]) (pre ++ init) = false ->
  split_from (init ++ [last]) 0 cur (pre ++ (init ++ [last]) ++ s)
  = (rev cur ++ pre) :: split_from (init ++ [last]) 0 [] s.
Proof.
  intros Hpre. revert cur. induction pre as [|c pre IH]; intros cur.
  - rewrite app_nil_r. cbn [app].
    destruct (init ++ [last]) as [|x sep'] eqn:Esep;
      [destruct init; discriminate|].
    apply split_from_at_sep.
  - cbn [app str_contains] in Hpre.
    apply orb_false_iff in Hpre as [Hhere Hpre].
    assert (Hstart :
              starts_with (init ++ [last]) ((c :: pre) ++ (init ++ [last]) ++ s)
              = false).
    { replace ((c :: pre) ++ (init ++ [last]) ++ s)
        with (((c :: pre) ++ init) ++ [last] ++ s)
        by (now rewrite <- !app_assoc).
      rewrite starts_with_app; [exact Hhere|].
      rewrite !length_app. cbn [List.length]. lia. }
    cbn [app] in Hstart |- *.
    destruct (init ++ [last]) as [|x sep'] eqn:Esep;
      [destruct init; discriminate|].
    cbn [split_from]. rewrite Hstart. rewrite (IH Hpre (c :: cur)). cbn [rev].
    now rewrite <- app_assoc.
Qed.

(** A piece goes on over the characters that cannot start the separator. *)
Lemma split_from_push x sep' cur run s :
  Forall (fun c => char_eqb x c = false) run ->
  split_from (x :: sep') 0 cur (run ++ s)
  = split_from (x :: sep') 0 (rev run ++ cur) s.
Proof.
  intros Hrun. revert cur. induction Hrun as [|c run Hc _ IH]; intros cur;
    [reflexivity|].
  cbn [app split_from starts_with]. rewrite Hc. cbn [andb].
  rewrite IH. cbn [rev]. now rewrite <- app_assoc.
Qed.

(** The first piece starts with what has been read. *)
Lemma split_from_head sep cur s :
  exists more pieces, split_from sep 0 cur s = (rev cur ++ more) :: pieces.
Proof.
  revert cur. induction s as [|c s IH]; intros cur.
  - exists [], []. cbn. now rewrite app_nil_r.
  - cbn [split_from]. destruct (starts_with sep (c :: s)).
    + exists [], (split_from sep (List.length sep - 1) [] s). now rewrite app_nil_r.
    + destruct (IH (c :: cur)) as (more & pieces & ->).
      exists (c :: more), pieces. cbn [rev]. now rewrite <- app_assoc.
Qed.

Lemma isdigit_differs c k : isdigit_char c = true -> isdigit_char k = false ->
  char_eqb k c = false.
Proof.
  intros Hc Hk. destruct (char_eqb k c) eqn:E; [|reflexivity].
  apply N.eqb_eq in E. subst. congruence.
Qed.

Lemma split_from_head_after x sep' cur c r :
  char_eqb x c = false ->
  exists more pieces,
    split_from (x :: sep') 0 cur (c :: r) = (rev cur ++ c :: more) :: pieces.
Proof.
  intros Hc. cbn [split_from starts_with]. rewrite Hc. cbn [andb].
  destruct (split_from_head (x :: sep') (c :: cur) r) as (more & pieces & ->).
  exists more, pieces. cbn [rev]. now rewrite <- app_assoc.
Qed.

Lemma str_contains_at sep pre s : str_contains sep (pre ++ sep ++ s) = true.
Proof.
  induction pre as [|c pre IH].
  - cbn [app]. destruct (sep ++ s) eqn:E; cbn [str_contains];
      rewrite <- ?E, starts_with_self; reflexivity.
  - cbn [app str_contains]. rewrite IH. apply orb_true_r.
Qed.

(** X15: a row without an id attribute takes its id from its link: the
    digits between the first ["app/"] of the link and the next slash, or the
    end of the link. *)
Theorem app_id_from_href (game : element) (prefix ds rest : str) :
  nonempty (get_attr "data-ds-appid" game) = false ->
  nonempty (get_attr "data-appid" game) = false ->
  get_attr "href" game = Some (prefix ++ u "app/" ++ ds ++ rest) ->
  str_contains (u "app/") (prefix ++ u "app") = false ->
  str_isdigit ds = true ->
  rest = [] \/ (exists r, rest = 47%N :: r) ->
  extract_app_id game = Ok (Some ds).
Proof.
  intros Hds_attr Happ_attr Hhref Hfirst Hdigit Hrest.
  unfold extract_app_id. rewrite Hds_attr, Happ_attr, Hhref.
  cbn [default from_option id].
  assert (Hall : Forall (fun c => isdigit_char c = true) ds).
  { unfold str_isdigit in Hdigit. destruct ds; [discriminate|].
    apply Forall_forall. intros d Hd. apply list_elem_of_In in Hd.
    exact (proj1 (forallb_forall _ _) Hdigit d Hd). }
  assert (Hne : ds <> []) by (destruct ds; [discriminate | congruence]).
  assert (Hletter : Forall (fun c => char_eqb 97%N c = false) ds)
    by (eapply Forall_impl; [exact Hall|]; intros c Hc; now apply isdigit_differs).
  assert (Hslash : Forall (fun c => char_eqb 47%N c = false) ds)
    by (eapply Forall_impl; [exact Hall|]; intros c Hc; now apply isdigit_differs).
  rewrite str_contains_at. unfold str_split.
  rewrite (split_from_first (u "app") 47%N prefix _ _ Hfirst).
  set (after := split_from _ 0 [] (ds ++ rest)).
  assert (Hafter : exists more pieces,
            after = (ds ++ more) :: pieces
            /\ (more = [] \/ exists r, more = 47%N :: r)).
  { subst after. rewrite (split_from_push 97%N (u "pp/") _ ds _ Hletter).
    rewrite app_nil_r. destruct Hrest as [->|[r ->]].
    - exists [], []. cbn [split_from]. rewrite rev_involutive, app_nil_r. auto.
    - destruct (split_from_head_after 97%N (u "pp/") (rev ds) 47%N r eq_refl)
        as (more & pieces & Hs).
      exists (47%N :: more), pieces. split; [|eauto].
      etransitivity; [exact Hs|]. now rewrite rev_involutive. }
  destruct Hafter as (more & pieces & -> & Hmore).
  cbn [index lookup list_lookup mbind result_bind].
  set (piece := split_from _ 0 [] (ds ++ more)).
  assert (Hpiece : exists others, piece = ds :: others).
  { subst piece. rewrite (split_from_push 47%N [] _ ds _ Hslash).
    rewrite app_nil_r. destruct Hmore as [->|[r ->]].
    - exists []. cbn [split_from]. now rewrite rev_involutive.
    - rewrite (split_from_at_sep 47%N [] _ r). rewrite rev_involutive. eauto. }
  destruct Hpiece as (others & ->).
  cbn [index lookup list_lookup mbind result_bind default from_option id].
  destruct ds as [|c ds']; [congruence|]. cbn [nonempty andb].
  now rewrite Hdigit.
Qed.

Lemma app_id_from_href_witness :
  extract_app_id
    (mk_element
       (mk_tag (u "a")
          [(u "href", u "https://store.steampowered.com/app/1245620/ELDEN_RING/")]
          []) [])
  = Ok (Some (u "1245620")).
Proof.
  apply (app_id_from_href _ (u "https://store.steampowered.com/") (u "1245620")
           (u "/ELDEN_RING/"));
    try reflexivity.
  right. eexists. reflexivity.
Defined.
